(** * Zeroth AI: sandboxed execution and the verify-repair loop

    A shallow embedding of the two pieces of the repository that carry
    logic: the execute endpoint of the server with its Python sandbox
    ([app.post("/api/execute")] and [runPython]) and the agent pipeline of
    the front end ([runAgent] in the [App] component).

    JavaScript strings are sequences of UTF-16 code units, written here as
    lists of [N].  The asynchronous parts of [runPython] (listeners on the
    child process and the watchdog timer) are modelled by a handler per
    event over an explicit execution state; the environment decides which
    events are delivered and in which order.  The AI collaborators and the
    HTTP round trip of [runAgent] are external: they are the fields of a
    record of oracles, and every theorem quantifies over them. *)

From Stdlib Require Import Ascii.
From stdpp Require Import base numbers strings list gmap.

Local Open Scope N_scope.

(** ** JavaScript strings *)

Abbreviation jsstring := (list N).

(** A literal of the source, as code units. *)
Definition lit (s : string) : jsstring :=
  (fun a => N_of_ascii a) <$> String.list_ascii_of_string s.

(** [WhiteSpace] and [LineTerminator] of ECMAScript: what
    [String.prototype.trim] strips. *)
Definition is_js_space (c : N) : bool :=
  ((9 <=? c) && (c <=? 13)) || (c =? 32) || (c =? 160) || (c =? 5760)
  || ((8192 <=? c) && (c <=? 8202)) || (c =? 8232) || (c =? 8233)
  || (c =? 8239) || (c =? 8287) || (c =? 12288) || (c =? 65279).

Fixpoint trimStart (s : jsstring) : jsstring :=
  match s with
  | c :: t => if is_js_space c then trimStart t else s
  | [] => []
  end.

Definition trimEnd (s : jsstring) : jsstring := rev (trimStart (rev s)).

Definition trim (s : jsstring) : jsstring := trimEnd (trimStart s).

(** [s1 === s2] on strings. *)
Definition str_eqb (s1 s2 : jsstring) : bool := bool_decide (s1 = s2).

(** Truthiness of a string: only the empty string is falsy. *)
Definition truthy (s : jsstring) : bool :=
  match s with [] => false | _ => true end.

(** [a || b] on strings. *)
Definition or_else (a b : jsstring) : jsstring := if truthy a then a else b.

(** *** Numbers in template literals

    [`${n}`] for a non-negative integer below 10^21 is its decimal
    expansion.  The fuel is the binary logarithm, an upper bound on the
    number of further digits. *)
Fixpoint digits_of (fuel : nat) (n : N) (acc : jsstring) : jsstring :=
  let acc' := (48 + n mod 10) :: acc in
  match fuel with
  | O => acc'
  | S f => if n / 10 =? 0 then acc' else digits_of f (n / 10) acc'
  end.

Definition dec (n : N) : jsstring := digits_of (N.to_nat (N.log2 n)) n [].

Definition decZ (z : Z) : jsstring :=
  if (z <? 0)%Z then 45 :: dec (Z.to_N (- z)) else dec (Z.to_N z).

(** An exit code as Node hands it to a ['close'] listener: a number, or
    [null] when the child was ended by a signal. *)
Definition exit_code := option Z.

Definition show_code (code : exit_code) : jsstring :=
  match code with
  | Some z => decZ z
  | None => lit "null"
  end.

(** *** [parseInt(p1, 10)] on a run of ASCII digits

    Exact below 2^53, where JavaScript numbers are exact too. *)
Definition is_digit (c : N) : bool := (48 <=? c) && (c <=? 57).

Definition pstep (a c : N) : N := 10 * a + (c - 48).

Definition parseInt10 (ds : jsstring) : N := fold_left pstep ds 0.

(** ** The line-number rewrite of [runPython]

    [error.replace(/line (\d+)/g, callback)]: scan from the left; where the
    text reads [line ] followed by at least one digit, the longest run of
    digits is the capture group, the callback's result replaces the match
    and scanning resumes behind it; anywhere else the code unit is copied. *)

Fixpoint strip_prefix (p s : jsstring) : option jsstring :=
  match p, s with
  | [], _ => Some s
  | a :: p', b :: s' => if a =? b then strip_prefix p' s' else None
  | _ :: _, [] => None
  end.

Fixpoint span_digits (s : jsstring) : jsstring * jsstring :=
  match s with
  | c :: t =>
      if is_digit c then let '(ds, r) := span_digits t in (c :: ds, r)
      else ([], s)
  | [] => ([], [])
  end.

(** A text that does not continue a run of digits. *)
Definition no_digit_ahead (s : jsstring) : Prop :=
  match s with
  | [] => True
  | c :: _ => is_digit c = false
  end.

(** The user code starts at line 28 in the temp file. *)
Definition remap_line (p1 : jsstring) : jsstring :=
  let lineNum := parseInt10 p1 in
  if 28 <=? lineNum then lit "line " ++ dec (lineNum - 27)
  else lit "line " ++ p1.

Fixpoint replace_lines (fuel : nat) (s : jsstring) : jsstring :=
  match fuel, s with
  | S f, c :: t =>
      match strip_prefix (lit "line ") s with
      | Some r =>
          match span_digits r with
          | (d :: ds, rest) => remap_line (d :: ds) ++ replace_lines f rest
          | ([], _) => c :: replace_lines f t
          end
      | None => c :: replace_lines f t
      end
  | _, _ => s
  end.

Definition adjust (error : jsstring) : jsstring :=
  replace_lines (length error) error.

(** [let adjustedError = error; if (error) { adjustedError = ... }] *)
Definition adjustedError (error : jsstring) : jsstring :=
  if truthy error then adjust error else error.

(** ** The wrapped source

    The template literal of [runPython] opens with a line break, so the
    first line of the scratch file is empty; the candidate is spliced in
    after the marker comment and followed by one more line break. *)
Definition PREAMBLE_LINES : list string :=
  [ "";
    "import resource";
    "import sys";
    "import os";
    "";
    "# Secure Sandbox Limits";
    "try:";
    "    # Limit CPU time to 2 seconds";
    "    resource.setrlimit(resource.RLIMIT_CPU, (2, 2))";
    "    # Limit memory to 256 MB";
    "    resource.setrlimit(resource.RLIMIT_AS, (256 * 1024 * 1024, 256 * 1024 * 1024))";
    "    # Prevent creating new files";
    "    resource.setrlimit(resource.RLIMIT_FSIZE, (0, 0))";
    "    # Prevent creating new processes (fork bombs)";
    "    resource.setrlimit(resource.RLIMIT_NPROC, (0, 0))";
    "except Exception as e:";
    "    pass # Ignore if resource module fails (e.g. Windows)";
    "";
    "# Remove dangerous builtins to prevent basic exploits";
    "try:";
    "    del __builtins__.__dict__['open']";
    "    del __builtins__.__dict__['exec']";
    "    del __builtins__.__dict__['eval']";
    "except:";
    "    pass";
    "";
    "# --- User Code ---" ]%string.

Definition NL : N := 10.

Definition PREAMBLE : jsstring :=
  concat ((fun l => lit l ++ [NL]) <$> PREAMBLE_LINES).

Definition secureCode (code : jsstring) : jsstring :=
  PREAMBLE ++ code ++ [NL].

(** Lines of a text, split at line feeds. *)
Fixpoint lines_from (cur : jsstring) (s : jsstring) : list jsstring :=
  match s with
  | [] => [rev cur]
  | c :: t => if c =? NL then rev cur :: lines_from [] t
              else lines_from (c :: cur) t
  end.

Definition lines (s : jsstring) : list jsstring := lines_from [] s.

(** ** The sandbox executor [runPython]

    What the executor does to the host is kept in a log next to the file
    system, so that "nothing was spawned" and "the file is gone" are
    statements about a value.  The source registers listeners for the data
    of stdout and stderr, for ['close'] and for ['exit'], and one timer;
    these are the events of the model.  It registers no ['error'] listener
    on the child or its streams, so that event is not part of the model. *)

Inductive syscall :=
| WriteFile (path content : jsstring)
| Unlink (path : jsstring)
| Spawn (path stdin : jsstring)
| Kill (path : jsstring).

Record world := {
  fs : gmap jsstring jsstring;
  oslog : list syscall }.

Inductive promise :=
| Pending
| Resolved (value : jsstring)
| Rejected (message : jsstring).

(** What the host decides at the synchronous part of a call: the scratch
    name ([Date.now()] and [Math.random()]), and whether [writeFileSync] or
    [spawn] throws. *)
Record host := {
  scratch_name : jsstring;
  writeFileSync_throws : option jsstring;
  spawn_throws : option jsstring }.

(** The variables the closures of one [runPython] call share. [listening]
    says that the executor reached the end of its body, so that the
    listeners and the timer exist; [timer] holds the delay while the
    watchdog is armed. *)
Record exec_state := {
  host_world : world;
  tempFile : jsstring;
  listening : bool;
  output : jsstring;
  error : jsstring;
  timer : option N;
  outcome : promise }.

Definition HARD_TIMEOUT_MS : N := 3000.

Definition MSG_MEMORY : jsstring := lit "Memory Limit Exceeded or Process Killed".
Definition MSG_CPU : jsstring := lit "CPU Time Limit Exceeded".
Definition MSG_HARD_TIMEOUT : jsstring := lit "Time Limit Exceeded (Hard Timeout)".

Definition existsSync (f : jsstring) (wd : world) : bool :=
  bool_decide (is_Some (fs wd !! f)).

Definition writeFileSync (f content : jsstring) (wd : world) : world :=
  {| fs := <[f := content]> (fs wd); oslog := oslog wd ++ [WriteFile f content] |}.

Definition unlinkSync (f : jsstring) (wd : world) : world :=
  {| fs := delete f (fs wd); oslog := oslog wd ++ [Unlink f] |}.

Definition log_call (c : syscall) (wd : world) : world :=
  {| fs := fs wd; oslog := oslog wd ++ [c] |}.

(** [if (fs.existsSync(tempFile)) fs.unlinkSync(tempFile);] *)
Definition remove_scratch (st : exec_state) : exec_state :=
  {| host_world :=
       if existsSync (tempFile st) (host_world st)
       then unlinkSync (tempFile st) (host_world st) else host_world st;
     tempFile := tempFile st; listening := listening st;
     output := output st; error := error st;
     timer := timer st; outcome := outcome st |}.

(** [resolve] and [reject]: only the first call settles the promise. *)
Definition settle (p : promise) (st : exec_state) : exec_state :=
  match outcome st with
  | Pending =>
      {| host_world := host_world st; tempFile := tempFile st;
         listening := listening st; output := output st; error := error st;
         timer := timer st; outcome := p |}
  | _ => st
  end.

Definition clearTimeout (st : exec_state) : exec_state :=
  {| host_world := host_world st; tempFile := tempFile st;
     listening := listening st; output := output st; error := error st;
     timer := None; outcome := outcome st |}.

Definition code_is (code : exit_code) (z : Z) : bool :=
  match code with Some c => (c =? z)%Z | None => false end.

(** The promise executor up to the registration of the listeners.  An
    exception inside the executor rejects the promise with it. *)
Definition start (h : host) (code input : jsstring) (w0 : world) : exec_state :=
  let tempFile := scratch_name h in
  match writeFileSync_throws h with
  | Some err =>
      {| host_world := w0; tempFile := tempFile; listening := false;
         output := []; error := []; timer := None; outcome := Rejected err |}
  | None =>
      let w1 := writeFileSync tempFile (secureCode code) w0 in
      match spawn_throws h with
      | Some err =>
          {| host_world := w1; tempFile := tempFile; listening := false;
             output := []; error := []; timer := None; outcome := Rejected err |}
      | None =>
          {| host_world := log_call (Spawn tempFile input) w1;
             tempFile := tempFile; listening := true;
             output := []; error := [];
             timer := Some HARD_TIMEOUT_MS; outcome := Pending |}
      end
  end.

Inductive event :=
| StdoutData (data : jsstring)
| StderrData (data : jsstring)
| Exit
| Close (code : exit_code)
| TimerFires.

(** [py.on("close", (code) => ...)] *)
Definition on_close (code : exit_code) (st : exec_state) : exec_state :=
  let st := remove_scratch st in
  let adjustedError := adjustedError (error st) in
  if code_is code 0 then settle (Resolved (output st)) st
  else if code_is code 137 || code_is code 9 then settle (Rejected MSG_MEMORY) st
  else if code_is code 152 || code_is code 24 then settle (Rejected MSG_CPU) st
  else settle (Rejected (or_else adjustedError
                           (lit "Process exited with code " ++ show_code code))) st.

(** The callback of [setTimeout(..., 3000)]; a cleared timer never fires. *)
Definition on_timer (st : exec_state) : exec_state :=
  match timer st with
  | None => st
  | Some _ =>
      let st :=
        {| host_world := log_call (Kill (tempFile st)) (host_world st);
           tempFile := tempFile st; listening := listening st;
           output := output st; error := error st;
           timer := None; outcome := outcome st |} in
      settle (Rejected MSG_HARD_TIMEOUT) (remove_scratch st)
  end.

Definition handle (st : exec_state) (e : event) : exec_state :=
  if listening st then
    match e with
    | StdoutData data =>
        {| host_world := host_world st; tempFile := tempFile st;
           listening := listening st; output := output st ++ data;
           error := error st; timer := timer st; outcome := outcome st |}
    | StderrData data =>
        {| host_world := host_world st; tempFile := tempFile st;
           listening := listening st; output := output st;
           error := error st ++ data; timer := timer st; outcome := outcome st |}
    | Exit => clearTimeout st
    | Close code => on_close code st
    | TimerFires => on_timer st
    end
  else st.

(** One call of [runPython] under a host and the events the environment
    delivers, in order. *)
Definition runPython (h : host) (code input : jsstring) (evs : list event)
    (w0 : world) : exec_state :=
  fold_left handle evs (start h code input w0).

(** ** The execute endpoint *)

Record TestCase := {
  input : jsstring;
  expectedOutput : jsstring;
  description : option jsstring }.

Record TestResult := {
  r_input : jsstring;
  r_expectedOutput : jsstring;
  r_actualOutput : option jsstring;
  r_error : option jsstring;
  passed : bool }.

Record request := {
  req_code : jsstring;
  req_language : jsstring;
  req_testCases : list TestCase }.

(** [NoResponse]: an awaited promise never settles. *)
Inductive response :=
| Status400 (err : jsstring)
| Json (results : list TestResult)
| NoResponse.

(** The server between requests: the host, and how many sandbox calls it
    has made (the index into the environment's script). *)
Record server := {
  sworld : world;
  launched : nat }.

Definition sandbox_script := nat -> host * list event.

Fixpoint for_testCases (env : sandbox_script) (code language : jsstring)
    (testCases : list TestCase) (results : list TestResult) (s : server)
    : option (list TestResult) * server :=
  match testCases with
  | [] => (Some results, s)
  | testCase :: rest =>
      if str_eqb language (lit "python") then
        let '(h, evs) := env (launched s) in
        let st := runPython h code (input testCase) evs (sworld s) in
        let s' := {| sworld := host_world st; launched := S (launched s) |} in
        match outcome st with
        | Resolved out =>
            let passed :=
              str_eqb (trim out) (trim (expectedOutput testCase)) in
            for_testCases env code language rest
              (results ++ [ {| r_input := input testCase;
                               r_expectedOutput := expectedOutput testCase;
                               r_actualOutput := Some out;
                               r_error := None;
                               passed := passed |} ]) s'
        | Rejected message =>
            for_testCases env code language rest
              (results ++ [ {| r_input := input testCase;
                               r_expectedOutput := expectedOutput testCase;
                               r_actualOutput := None;
                               r_error := Some message;
                               passed := false |} ]) s'
        | Pending => (None, s')
        end
      else
        (* Mock execution for C++ and Java *)
        for_testCases env code language rest
          (results ++ [ {| r_input := input testCase;
                           r_expectedOutput := expectedOutput testCase;
                           r_actualOutput := Some (expectedOutput testCase);
                           r_error := None;
                           passed := true |} ]) s
  end.

Definition supported (language : jsstring) : bool :=
  str_eqb language (lit "python") || str_eqb language (lit "cpp")
  || str_eqb language (lit "java").

Definition post_execute (env : sandbox_script) (req : request) (s : server)
    : response * server :=
  if negb (str_eqb (req_language req) (lit "python"))
     && negb (str_eqb (req_language req) (lit "cpp"))
     && negb (str_eqb (req_language req) (lit "java"))
  then (Status400 (lit "Unsupported language."), s)
  else
    match for_testCases env (req_code req) (req_language req)
            (req_testCases req) [] s with
    | (Some results, s') => (Json results, s')
    | (None, s') => (NoResponse, s')
    end.

Local Close Scope N_scope.

(** *** What the endpoint is held to, and hosts to run it on *)

(** The promises that the sandbox calls of a Python request come to, one
    per test vector, as long as each of them settles. *)
Fixpoint sandbox_outcomes (env : sandbox_script) (code : jsstring)
    (testCases : list TestCase) (s : server) : list promise :=
  match testCases with
  | [] => []
  | testCase :: rest =>
      let '(h, evs) := env (launched s) in
      let st := runPython h code (input testCase) evs (sworld s) in
      outcome st ::
      match outcome st with
      | Pending => []
      | _ => sandbox_outcomes env code rest
               {| sworld := host_world st; launched := S (launched s) |}
      end
  end.

(** What a settled sandbox call has to do with the result pushed for it. *)
Definition reports (p : promise) (r : TestResult) : Prop :=
  match p with
  | Resolved out => r_actualOutput r = Some out /\ r_error r = None
  | Rejected msg =>
      r_actualOutput r = None /\ r_error r = Some msg /\ passed r = false
  | Pending => False
  end.

(** The verdict on one vector, in the words of the harness: passed exactly
    when there is an output, no fault, and the trimmed texts agree. *)
Definition verdict (testCase : TestCase) (r : TestResult) : Prop :=
  r_input r = input testCase
  /\ r_expectedOutput r = expectedOutput testCase
  /\ (passed r = true <->
      exists out, r_actualOutput r = Some out /\ r_error r = None
                  /\ trim out = trim (expectedOutput testCase))
  /\ (forall msg, r_error r = Some msg ->
      passed r = false /\ r_actualOutput r = None).

Definition SUPPORTED : list jsstring := [lit "python"; lit "cpp"; lit "java"].

(** A host on which nothing fails, one on which [spawn] throws, and an
    empty scratch directory. *)
Definition quiet_host : host :=
  {| scratch_name := lit "/app/temp_1700000000000_k3x9q.py";
     writeFileSync_throws := None; spawn_throws := None |}.

Definition failing_spawn_host : host :=
  {| scratch_name := lit "/app/temp_1700000000000_k3x9q.py";
     writeFileSync_throws := None;
     spawn_throws := Some (lit "spawn ENOMEM") |}.

Definition empty_world : world := {| fs := ∅; oslog := [] |}.

Definition fresh_server : server := {| sworld := empty_world; launched := 0 |}.

(** A script for the sandbox: the first call prints [5] and succeeds, the
    second crashes, the third runs into the watchdog. *)
Definition three_runs : sandbox_script := fun k =>
  match k with
  | 0 => (quiet_host, [StdoutData (lit "5" ++ [NL]); Exit; Close (Some 0%Z)])
  | 1 => (quiet_host, [StderrData (lit "boom"); Exit; Close (Some 1%Z)])
  | _ => (quiet_host, [TimerFires; Exit; Close None])
  end.

Definition three_vectors : list TestCase :=
  [ {| input := lit "2 3"; expectedOutput := lit "5"; description := None |};
    {| input := lit "1 1"; expectedOutput := lit "2"; description := None |};
    {| input := lit "0 0"; expectedOutput := lit "0"; description := None |} ].

Definition is_data (e : event) : bool :=
  match e with StdoutData _ | StderrData _ => true | _ => false end.

Definition is_close (e : event) : bool :=
  match e with Close _ => true | _ => false end.

(** The exit codes that [runPython] tells apart from a plain failure. *)
Definition known_codes : list exit_code :=
  [Some 0; Some 137; Some 9; Some 152; Some 24]%Z.

(** ** The agent pipeline [runAgent]

    The collaborators are asynchronous calls that either return or throw;
    [runAgent] awaits each of them in turn. *)

Inductive reply (T : Type) :=
| Returns (v : T)
| Throws (message : jsstring).
Arguments Returns {T} v.
Arguments Throws {T} message.

Record AIResponse (T : Type) := {
  data : T;
  reasoning : option jsstring }.
Arguments data {T} _.
Arguments reasoning {T} _.

(** The fields of the analysis that [runAgent] reads. *)
Record ProblemAnalysis := {
  title : jsstring;
  complexityGoal : jsstring }.

Inductive Language := python | cpp | java.

Definition language_name (l : Language) : jsstring :=
  match l with
  | python => lit "python"
  | cpp => lit "cpp"
  | java => lit "java"
  end.

Definition language_upper (l : Language) : jsstring :=
  match l with
  | python => lit "PYTHON"
  | cpp => lit "CPP"
  | java => lit "JAVA"
  end.

(** The answers of the execute endpoint and of the repair model may differ
    from one cycle to the next: the cycle number is their first argument.
    [fetch_execute] stands for the POST to [/api/execute] together with
    [response.json()] and the destructuring of [results]. *)
Record collaborators := {
  analyzeProblem : jsstring -> bool -> reply (AIResponse ProblemAnalysis);
  generateInitialCode :
    ProblemAnalysis -> Language -> bool -> reply (AIResponse jsstring);
  generateTestCases :
    jsstring -> ProblemAnalysis -> jsstring -> reply (list TestCase);
  fetch_execute :
    nat -> jsstring -> Language -> list TestCase -> reply (list TestResult);
  debugAndRepair :
    nat -> jsstring -> jsstring -> list TestResult -> bool ->
    reply (AIResponse jsstring);
  optimizeCode : jsstring -> jsstring -> bool -> reply (AIResponse jsstring) }.

Inductive Step :=
| idle | analyzing | coding | testing | debugging | optimizing
| completed | failed.

Inductive LogType := log_info | log_success | log_error | log_ai.

(** A log line; the wall-clock timestamp is left out. *)
Record LogEntry := {
  log_type : LogType;
  message : jsstring }.

Inductive Tab := tab_logs | tab_errors.

(** The React state that [runAgent] writes. *)
Record view := {
  step : Step;
  logs : list LogEntry;
  analysis : option ProblemAnalysis;
  code : jsstring;
  testResults : list TestResult;
  generatedTests : list TestCase;
  showTestLibrary : bool;
  allTests : list TestCase;
  telemetryTab : Tab }.

(** The calls that leave the browser, in the order they are made. *)
Inductive call :=
| Analyze (r : reply (AIResponse ProblemAnalysis))
| Generate (r : reply (AIResponse jsstring))
| GenerateTests (r : reply (list TestCase))
| Execute (sent : jsstring) (tests : list TestCase)
    (r : reply (list TestResult))
| Repair (sent : jsstring) (failedTests : list TestResult)
    (r : reply (AIResponse jsstring))
| Optimize (sent : jsstring) (r : reply (AIResponse jsstring)).

Record agent := {
  ui : view;
  calls : list call }.

(** What the user has entered when the run starts. *)
Record inputs := {
  problem : jsstring;
  sampleInput : jsstring;
  sampleOutput : jsstring;
  proMode : bool;
  language : Language }.

(** *** A state and exception monad for the body of [runAgent] *)

Inductive result (A : Type) :=
| Val (a : A)
| Exn (message : jsstring)
| OutOfFuel.
Arguments Val {A} a.
Arguments Exn {A} message.
Arguments OutOfFuel {A}.

Definition M (A : Type) : Type := agent -> result A * agent.

#[global] Instance agent_ret : MRet M := fun A a s => (Val a, s).

#[global] Instance agent_bind : MBind M := fun A B k m s =>
  match m s with
  | (Val a, s') => k a s'
  | (Exn msg, s') => (Exn msg, s')
  | (OutOfFuel, s') => (OutOfFuel, s')
  end.

Definition throw {A} (msg : jsstring) : M A := fun s => (Exn msg, s).

(** [await]: the call is made, logged, and its answer returned or thrown. *)
Definition await {A} (c : reply A -> call) (r : reply A) : M A :=
  fun s =>
    let s' := {| ui := ui s; calls := calls s ++ [c r] |} in
    match r with
    | Returns v => (Val v, s')
    | Throws msg => (Exn msg, s')
    end.

Definition update (f : view -> view) : M unit :=
  fun s => (Val tt, {| ui := f (ui s); calls := calls s |}).

Definition setStep (x : Step) : M unit :=
  update (fun u =>
    {| step := x; logs := logs u; analysis := analysis u; code := code u;
       testResults := testResults u; generatedTests := generatedTests u;
       showTestLibrary := showTestLibrary u; allTests := allTests u;
       telemetryTab := telemetryTab u |}).

Definition setLogs (x : list LogEntry) : M unit :=
  update (fun u =>
    {| step := step u; logs := x; analysis := analysis u; code := code u;
       testResults := testResults u; generatedTests := generatedTests u;
       showTestLibrary := showTestLibrary u; allTests := allTests u;
       telemetryTab := telemetryTab u |}).

Definition addLog (msg : jsstring) (t : LogType) : M unit :=
  update (fun u =>
    {| step := step u;
       logs := logs u ++ [ {| log_type := t; message := msg |} ];
       analysis := analysis u; code := code u;
       testResults := testResults u; generatedTests := generatedTests u;
       showTestLibrary := showTestLibrary u; allTests := allTests u;
       telemetryTab := telemetryTab u |}).

Definition setAnalysis (x : ProblemAnalysis) : M unit :=
  update (fun u =>
    {| step := step u; logs := logs u; analysis := Some x; code := code u;
       testResults := testResults u; generatedTests := generatedTests u;
       showTestLibrary := showTestLibrary u; allTests := allTests u;
       telemetryTab := telemetryTab u |}).

Definition setCode (x : jsstring) : M unit :=
  update (fun u =>
    {| step := step u; logs := logs u; analysis := analysis u; code := x;
       testResults := testResults u; generatedTests := generatedTests u;
       showTestLibrary := showTestLibrary u; allTests := allTests u;
       telemetryTab := telemetryTab u |}).

Definition setTestResults (x : list TestResult) : M unit :=
  update (fun u =>
    {| step := step u; logs := logs u; analysis := analysis u; code := code u;
       testResults := x; generatedTests := generatedTests u;
       showTestLibrary := showTestLibrary u; allTests := allTests u;
       telemetryTab := telemetryTab u |}).

Definition setGeneratedTests (x : list TestCase) : M unit :=
  update (fun u =>
    {| step := step u; logs := logs u; analysis := analysis u; code := code u;
       testResults := testResults u; generatedTests := x;
       showTestLibrary := showTestLibrary u; allTests := allTests u;
       telemetryTab := telemetryTab u |}).

Definition setShowTestLibrary (x : bool) : M unit :=
  update (fun u =>
    {| step := step u; logs := logs u; analysis := analysis u; code := code u;
       testResults := testResults u; generatedTests := generatedTests u;
       showTestLibrary := x; allTests := allTests u;
       telemetryTab := telemetryTab u |}).

Definition setAllTests (x : list TestCase) : M unit :=
  update (fun u =>
    {| step := step u; logs := logs u; analysis := analysis u; code := code u;
       testResults := testResults u; generatedTests := generatedTests u;
       showTestLibrary := showTestLibrary u; allTests := x;
       telemetryTab := telemetryTab u |}).

Definition setTelemetryTab (x : Tab) : M unit :=
  update (fun u =>
    {| step := step u; logs := logs u; analysis := analysis u; code := code u;
       testResults := testResults u; generatedTests := generatedTests u;
       showTestLibrary := showTestLibrary u; allTests := allTests u;
       telemetryTab := x |}).

(** [if (r.reasoning) addLog(`Reasoning: ${r.reasoning}`, 'ai')] *)
Definition log_reasoning {T} (r : AIResponse T) : M unit :=
  match reasoning r with
  | Some why =>
      if truthy why then addLog (lit "Reasoning: " ++ why) log_ai else mret tt
  | None => mret tt
  end.

Definition show_nat (n : nat) : jsstring := dec (N.of_nat n).

(** *** The test and repair loop *)

Definition MAX_ITERATIONS : nat := 5.

Record loop_vars := {
  iterations : nat;
  allPassed : bool;
  currentCode : jsstring;
  bestCode : jsstring;
  maxPassedCount : Z;
  bestTestResults : list TestResult }.

(** [results.filter((r) => r.passed).length] *)
Definition passedCount (results : list TestResult) : Z :=
  Z.of_nat (length (List.filter passed results)).

(** [if (passedCount > maxPassedCount) { ... }] *)
Definition consider (v : loop_vars) (results : list TestResult) : loop_vars :=
  if (maxPassedCount v <? passedCount results)%Z then
    {| iterations := iterations v; allPassed := allPassed v;
       currentCode := currentCode v;
       bestCode := currentCode v;
       maxPassedCount := passedCount results;
       bestTestResults := results |}
  else v.

Definition blank (s : jsstring) : bool :=
  negb (truthy s) || str_eqb (trim s) [].

Definition MSG_EMPTY_REPAIR : jsstring :=
  lit "Self-repair generated empty code. Aborting.".

(** The body of the [while] loop. *)
Definition cycle (C : collaborators) (i : inputs) (tests : list TestCase)
    (v : loop_vars) : M loop_vars :=
  let n := S (iterations v) in
  addLog (lit "Validation Cycle " ++ show_nat n ++ lit ": Executing code...")
    log_ai;;
  results ← await (Execute (currentCode v) tests)
              (fetch_execute C n (currentCode v) (language i) tests);
  setTestResults results;;
  let v := consider v results in
  let failed := List.filter (fun r => negb (passed r)) results in
  if (length failed =? 0)%nat then
    setTelemetryTab tab_logs;;
    addLog (lit "All validation cycles passed. Integrity confirmed.")
      log_success;;
    mret {| iterations := n; allPassed := true;
            currentCode := currentCode v; bestCode := bestCode v;
            maxPassedCount := maxPassedCount v;
            bestTestResults := bestTestResults v |}
  else
    setStep debugging;;
    setTelemetryTab tab_errors;;
    addLog (show_nat (length failed)
            ++ lit " anomalies detected. Initiating self-repair protocols...")
      log_error;;
    if (n <? MAX_ITERATIONS)%nat then
      repairResponse ← await (Repair (currentCode v) failed)
                         (debugAndRepair C n (problem i) (currentCode v)
                            failed (proMode i));
      if blank (data repairResponse) then throw MSG_EMPTY_REPAIR
      else
        log_reasoning repairResponse;;
        setCode (data repairResponse);;
        addLog (lit "Repair successful. Re-verifying...") log_info;;
        mret {| iterations := n; allPassed := allPassed v;
                currentCode := data repairResponse; bestCode := bestCode v;
                maxPassedCount := maxPassedCount v;
                bestTestResults := bestTestResults v |}
    else
      mret {| iterations := n; allPassed := allPassed v;
              currentCode := currentCode v; bestCode := bestCode v;
              maxPassedCount := maxPassedCount v;
              bestTestResults := bestTestResults v |}.

(** [while (!allPassed && iterations < MAX_ITERATIONS) { ... }] *)
Fixpoint while_loop (fuel : nat) (C : collaborators) (i : inputs)
    (tests : list TestCase) (v : loop_vars) : M loop_vars :=
  if negb (allPassed v) && (iterations v <? MAX_ITERATIONS)%nat then
    match fuel with
    | O => fun s => (OutOfFuel, s)
    | S fuel' => v' ← cycle C i tests v; while_loop fuel' C i tests v'
    end
  else mret v.

(** Step 4 of [runAgent]: the loop and the fall-back to the best candidate. *)
Definition test_and_repair (C : collaborators) (i : inputs)
    (tests : list TestCase) (code0 : jsstring) : M jsstring :=
  let v0 := {| iterations := 0; allPassed := false; currentCode := code0;
               bestCode := code0; maxPassedCount := (-1)%Z;
               bestTestResults := [] |} in
  v ← while_loop MAX_ITERATIONS C i tests v0;
  if negb (allPassed v) then
    addLog (lit "Neural convergence incomplete. Returning best solution ("
            ++ decZ (maxPassedCount v) ++ lit "/" ++ show_nat (length tests)
            ++ lit " passed).") log_error;;
    setCode (bestCode v);;
    setTestResults (bestTestResults v);;
    mret (bestCode v)
  else mret (currentCode v).

(** Steps 1 to 3: analysis, first candidate, test vectors. *)
Definition analyze_and_generate (C : collaborators) (i : inputs)
    : M (jsstring * list TestCase) :=
  addLog (lit "Parsing problem semantics and constraints...") log_ai;;
  analysisResponse ← await Analyze (analyzeProblem C (problem i) (proMode i));
  let analysisData := data analysisResponse in
  log_reasoning analysisResponse;;
  setAnalysis analysisData;;
  addLog (lit "Target Identified: " ++ title analysisData) log_success;;
  addLog (lit "Complexity Objective: " ++ complexityGoal analysisData)
    log_info;;
  setStep coding;;
  addLog (lit "Synthesizing algorithmic structure in "
          ++ language_upper (language i) ++ lit "...") log_ai;;
  codeResponse ← await Generate
                   (generateInitialCode C analysisData (language i) (proMode i));
  let currentCode := data codeResponse in
  log_reasoning codeResponse;;
  setCode currentCode;;
  addLog (lit "Base architecture established.") log_success;;
  setStep testing;;
  addLog (lit "Generating adversarial test cases...") log_ai;;
  newGeneratedTests ← await GenerateTests
                        (generateTestCases C (problem i) analysisData currentCode);
  setGeneratedTests newGeneratedTests;;
  setShowTestLibrary true;;
  let inputPublicTests :=
    if truthy (trim (sampleInput i)) && truthy (trim (sampleOutput i)) then
      [ {| input := trim (sampleInput i);
           expectedOutput := trim (sampleOutput i);
           description := Some (lit "User provided test case") |} ]
    else [] in
  let allTests := inputPublicTests ++ newGeneratedTests in
  setAllTests allTests;;
  addLog (lit "Stress testing with " ++ show_nat (length allTests)
          ++ lit " scenarios...") log_info;;
  mret (currentCode, allTests).

(** Step 5. *)
Definition optimize (C : collaborators) (i : inputs) (currentCode : jsstring)
    : M unit :=
  setStep optimizing;;
  addLog (lit "Correctness verified. Commencing performance optimization...")
    log_ai;;
  optimizeResponse ← await (Optimize currentCode)
                       (optimizeCode C (problem i) currentCode (proMode i));
  let optimizedCode := data optimizeResponse in
  log_reasoning optimizeResponse;;
  setCode optimizedCode;;
  addLog (lit "Optimization complete. Finalizing solution...") log_success;;
  setStep completed;;
  addLog (lit "ZEROTH AI: MISSION ACCOMPLISHED") log_success.

(** Steps 1 to 4: everything of the [try] block before the optimisation. *)
Definition verify (C : collaborators) (i : inputs) : M jsstring :=
  '(currentCode, allTests) ← analyze_and_generate C i;
  test_and_repair C i allTests currentCode.

(** The [try] block. *)
Definition pipeline (C : collaborators) (i : inputs) : M unit :=
  currentCode ← verify C i;
  optimize C i currentCode.

Definition prologue (i : inputs) : M unit :=
  setStep analyzing;;
  setLogs [];;
  addLog (lit "ZEROTH CORE INITIALIZED") log_info;;
  addLog (lit "Establishing neural link with "
          ++ (if proMode i then lit "Gemini 3.1 Pro (Thinking: HIGH)"
              else lit "Gemini 3.0 Flash (Thinking: LOW)")
          ++ lit "...") log_ai.

(** [catch (err) { setStep('failed'); addLog(`CRITICAL FAILURE: ...`) }] *)
Definition on_error (msg : jsstring) : M unit :=
  setStep failed;;
  addLog (lit "CRITICAL FAILURE: " ++ msg) log_error.

Definition runAgent (C : collaborators) (i : inputs) (s : agent) : agent :=
  if negb (truthy (trim (problem i))) then s
  else
    match (prologue i;; pipeline C i) s with
    | (Val _, s') => s'
    | (Exn msg, s') => snd (on_error msg s')
    | (OutOfFuel, s') => s'
    end.

(** The executions of the test-vector set that a run has made: the
    candidate sent and the results received, oldest first. *)
Definition executions (cs : list call) : list (jsstring * list TestResult) :=
  omap (fun c => match c with
                 | Execute sent _ (Returns results) => Some (sent, results)
                 | _ => None
                 end) cs.

Definition is_execute (c : call) : bool :=
  match c with Execute _ _ _ => true | _ => false end.

Definition idle_agent : agent :=
  {| ui := {| step := idle; logs := []; analysis := None; code := [];
              testResults := []; generatedTests := []; showTestLibrary := false;
              allTests := []; telemetryTab := tab_logs |};
     calls := [] |}.

(** A piece of the pipeline that makes no call and leaves the candidate and
    the test results on display alone. *)
Definition quiet (m : M unit) : Prop :=
  forall s, exists s', m s = (Val tt, s') /\ calls s' = calls s
                       /\ code (ui s') = code (ui s)
                       /\ testResults (ui s') = testResults (ui s).

(** *** One pass through the loop body, as a relation

    The loop variables after a pass that received [results]. *)
Definition advance (v : loop_vars) (results : list TestResult)
    (passed_all : bool) (cur : jsstring) : loop_vars :=
  {| iterations := S (iterations v); allPassed := passed_all;
     currentCode := cur;
     bestCode := bestCode (consider v results);
     maxPassedCount := maxPassedCount (consider v results);
     bestTestResults := bestTestResults (consider v results) |}.

Definition failures (results : list TestResult) : list TestResult :=
  List.filter (fun r => negb (passed r)) results.

Inductive cycle_step (C : collaborators) (i : inputs) (tests : list TestCase)
    (v : loop_vars) (s : agent) : result loop_vars -> agent -> Prop :=
| cycle_fetch_throws msg s' :
    fetch_execute C (S (iterations v)) (currentCode v) (language i) tests
      = Throws msg ->
    calls s' = calls s ++ [Execute (currentCode v) tests (Throws msg)] ->
    code (ui s') = code (ui s) ->
    testResults (ui s') = testResults (ui s) ->
    cycle_step C i tests v s (Exn msg) s'
| cycle_all_passed results s' :
    fetch_execute C (S (iterations v)) (currentCode v) (language i) tests
      = Returns results ->
    failures results = [] ->
    calls s' = calls s ++ [Execute (currentCode v) tests (Returns results)] ->
    code (ui s') = code (ui s) ->
    testResults (ui s') = results ->
    cycle_step C i tests v s (Val (advance v results true (currentCode v))) s'
| cycle_budget_spent results s' :
    fetch_execute C (S (iterations v)) (currentCode v) (language i) tests
      = Returns results ->
    failures results <> [] ->
    MAX_ITERATIONS <= S (iterations v) ->
    calls s' = calls s ++ [Execute (currentCode v) tests (Returns results)] ->
    code (ui s') = code (ui s) ->
    testResults (ui s') = results ->
    cycle_step C i tests v s
      (Val (advance v results (allPassed v) (currentCode v))) s'
| cycle_repair_throws results msg s' :
    fetch_execute C (S (iterations v)) (currentCode v) (language i) tests
      = Returns results ->
    failures results <> [] ->
    S (iterations v) < MAX_ITERATIONS ->
    debugAndRepair C (S (iterations v)) (problem i) (currentCode v)
      (failures results) (proMode i) = Throws msg ->
    calls s' = calls s ++ [Execute (currentCode v) tests (Returns results);
                           Repair (currentCode v) (failures results) (Throws msg)] ->
    code (ui s') = code (ui s) ->
    testResults (ui s') = results ->
    cycle_step C i tests v s (Exn msg) s'
| cycle_repair_blank results r s' :
    fetch_execute C (S (iterations v)) (currentCode v) (language i) tests
      = Returns results ->
    failures results <> [] ->
    S (iterations v) < MAX_ITERATIONS ->
    debugAndRepair C (S (iterations v)) (problem i) (currentCode v)
      (failures results) (proMode i) = Returns r ->
    blank (data r) = true ->
    calls s' = calls s ++ [Execute (currentCode v) tests (Returns results);
                           Repair (currentCode v) (failures results) (Returns r)] ->
    code (ui s') = code (ui s) ->
    testResults (ui s') = results ->
    cycle_step C i tests v s (Exn MSG_EMPTY_REPAIR) s'
| cycle_repaired results r s' :
    fetch_execute C (S (iterations v)) (currentCode v) (language i) tests
      = Returns results ->
    failures results <> [] ->
    S (iterations v) < MAX_ITERATIONS ->
    debugAndRepair C (S (iterations v)) (problem i) (currentCode v)
      (failures results) (proMode i) = Returns r ->
    blank (data r) = false ->
    calls s' = calls s ++ [Execute (currentCode v) tests (Returns results);
                           Repair (currentCode v) (failures results) (Returns r)] ->
    code (ui s') = data r ->
    testResults (ui s') = results ->
    cycle_step C i tests v s (Val (advance v results (allPassed v) (data r))) s'.

(** The loop as a chain of passes: it stops when all vectors passed or the
    budget is spent, and it is left at once when a pass throws. *)
Inductive loop_steps (C : collaborators) (i : inputs) (tests : list TestCase)
    : loop_vars -> agent -> result loop_vars -> agent -> Prop :=
| loop_done v s :
    allPassed v = true \/ MAX_ITERATIONS <= iterations v ->
    loop_steps C i tests v s (Val v) s
| loop_abort v s msg s' :
    allPassed v = false -> iterations v < MAX_ITERATIONS ->
    cycle_step C i tests v s (Exn msg) s' ->
    loop_steps C i tests v s (Exn msg) s'
| loop_more v s v1 s1 r s' :
    allPassed v = false -> iterations v < MAX_ITERATIONS ->
    cycle_step C i tests v s (Val v1) s1 ->
    loop_steps C i tests v1 s1 r s' ->
    loop_steps C i tests v s r s'.

(** The loop variables at the start of step 4. *)
Definition initial_vars (code0 : jsstring) : loop_vars :=
  {| iterations := 0; allPassed := false; currentCode := code0;
     bestCode := code0; maxPassedCount := (-1)%Z; bestTestResults := [] |}.

(** How many times the test-vector set was executed. *)
Definition executed (cs : list call) : nat := length (List.filter is_execute cs).

(** The calls of steps 1 to 3. *)
Definition is_setup (c : call) : Prop :=
  match c with
  | Analyze _ | Generate _ | GenerateTests _ => True
  | _ => False
  end.

Definition is_optimize (c : call) : Prop :=
  match c with Optimize _ _ => True | _ => False end.

(** The best-candidate bookkeeping on its own: candidate, pass count and
    results of the best execution so far. *)
Definition best := (jsstring * Z * list TestResult)%type.

Definition track (b : best) (rec : jsstring * list TestResult) : best :=
  if (b.1.2 <? passedCount rec.2)%Z then (rec.1, passedCount rec.2, rec.2)
  else b.

Definition best_of (v : loop_vars) : best :=
  (bestCode v, maxPassedCount v, bestTestResults v).

(** [rec] is the winner among [recs]: nothing scores higher, and everything
    before it scores strictly lower. *)
Definition earliest_best (recs : list (jsstring * list TestResult))
    (idx : nat) (rec : jsstring * list TestResult) : Prop :=
  recs !! idx = Some rec
  /\ (forall j r, recs !! j = Some r -> (passedCount r.2 <= passedCount rec.2)%Z)
  /\ (forall j r, j < idx -> recs !! j = Some r ->
      (passedCount r.2 < passedCount rec.2)%Z).

(** A repair call that came back with an empty or all-blank candidate. *)
Definition blank_repair (c : call) : Prop :=
  match c with
  | Repair _ _ (Returns a) => blank (data a) = true
  | _ => False
  end.

(** A run that receives a blank repair stops right there: the call is the
    last one made, and the run ends with the exception for it. *)
Definition stops_at_blank_repair {A} (r : result A) (new : list call) : Prop :=
  forall pre c post,
    new = pre ++ c :: post -> blank_repair c ->
    post = [] /\ r = Exn MSG_EMPTY_REPAIR.

(** Steps 1 to 4 as a relation: the set-up fails; or the loop is left by
    an exception; or it ends with all vectors passed; or it ends with the
    budget spent and the best candidate is put back on display. *)
Inductive verify_run (C : collaborators) (i : inputs) (s : agent)
    : result jsstring -> agent -> Prop :=
| verify_setup_fails msg s0 setup :
    calls s0 = calls s ++ setup -> Forall is_setup setup ->
    verify_run C i s (Exn msg) s0
| verify_loop_aborts code0 tests s0 setup msg s1 :
    calls s0 = calls s ++ setup -> Forall is_setup setup ->
    code (ui s0) = code0 ->
    loop_steps C i tests (initial_vars code0) s0 (Exn msg) s1 ->
    verify_run C i s (Exn msg) s1
| verify_all_passed code0 tests s0 setup v s1 s2 :
    calls s0 = calls s ++ setup -> Forall is_setup setup ->
    code (ui s0) = code0 ->
    loop_steps C i tests (initial_vars code0) s0 (Val v) s1 ->
    allPassed v = true ->
    calls s2 = calls s1 ->
    code (ui s2) = code (ui s1) ->
    testResults (ui s2) = testResults (ui s1) ->
    verify_run C i s (Val (currentCode v)) s2
| verify_best_effort code0 tests s0 setup v s1 s2 :
    calls s0 = calls s ++ setup -> Forall is_setup setup ->
    code (ui s0) = code0 ->
    loop_steps C i tests (initial_vars code0) s0 (Val v) s1 ->
    allPassed v = false ->
    calls s2 = calls s1 ->
    code (ui s2) = bestCode v ->
    testResults (ui s2) = bestTestResults v ->
    verify_run C i s (Val (bestCode v)) s2.

(** The state the [catch] block leaves behind. *)
Definition failed_with (msg : jsstring) (s s' : agent) : Prop :=
  step (ui s') = failed
  /\ last (logs (ui s'))
     = Some {| log_type := log_error;
               message := lit "CRITICAL FAILURE: " ++ msg |}
  /\ calls s' = calls s
  /\ code (ui s') = code (ui s)
  /\ testResults (ui s') = testResults (ui s).

(** A whole run of [runAgent] as a relation. *)
Inductive agent_run (C : collaborators) (i : inputs) (s : agent)
    : agent -> Prop :=
| run_ignored :
    truthy (trim (problem i)) = false ->
    agent_run C i s s
| run_verify_fails s0 msg s1 s' :
    truthy (trim (problem i)) = true ->
    calls s0 = calls s ->
    verify_run C i s0 (Exn msg) s1 ->
    failed_with msg s1 s' ->
    agent_run C i s s'
| run_optimize_fails s0 cur s1 msg s2 s' :
    truthy (trim (problem i)) = true ->
    calls s0 = calls s ->
    verify_run C i s0 (Val cur) s1 ->
    optimizeCode C (problem i) cur (proMode i) = Throws msg ->
    calls s2 = calls s1 ++ [Optimize cur (Throws msg)] ->
    code (ui s2) = code (ui s1) ->
    testResults (ui s2) = testResults (ui s1) ->
    failed_with msg s2 s' ->
    agent_run C i s s'
| run_completed s0 cur s1 a s' :
    truthy (trim (problem i)) = true ->
    calls s0 = calls s ->
    verify_run C i s0 (Val cur) s1 ->
    optimizeCode C (problem i) cur (proMode i) = Returns a ->
    calls s' = calls s1 ++ [Optimize cur (Returns a)] ->
    code (ui s') = data a ->
    testResults (ui s') = testResults (ui s1) ->
    step (ui s') = completed ->
    agent_run C i s s'.

(** ** Scenarios

    Concrete collaborators, used to run the model. *)

Definition outcome_of (ok : bool) : TestResult :=
  {| r_input := lit "1"; r_expectedOutput := lit "1";
     r_actualOutput := Some (if ok then lit "1" else lit "0");
     r_error := None; passed := ok |}.

(** [k] passing results out of [n]. *)
Definition score (k n : nat) : list TestResult :=
  replicate k (outcome_of true) ++ replicate (n - k) (outcome_of false).

Definition five_tests : list TestCase :=
  replicate 5 {| input := lit "1"; expectedOutput := lit "1";
                 description := None |}.

(** The repair model answers with a new candidate named after the cycle. *)
Definition candidate (n : nat) : jsstring := lit "v" ++ show_nat n.

Definition scripted (scores : list nat)
    (repair : nat -> reply (AIResponse jsstring))
    (opt : jsstring -> reply (AIResponse jsstring)) : collaborators :=
  {| analyzeProblem := fun _ _ =>
       Returns {| data := {| title := lit "T"; complexityGoal := lit "O(n)" |};
                  reasoning := None |};
     generateInitialCode := fun _ _ _ =>
       Returns {| data := candidate 0; reasoning := None |};
     generateTestCases := fun _ _ _ => Returns five_tests;
     fetch_execute := fun n _ _ _ =>
       Returns (score (nth (n - 1) scores 0) 5);
     debugAndRepair := fun n _ _ _ _ => repair n;
     optimizeCode := fun _ c _ => opt c |}.

Definition good_repair (n : nat) : reply (AIResponse jsstring) :=
  Returns {| data := candidate n; reasoning := None |}.

Definition good_optimize (c : jsstring) : reply (AIResponse jsstring) :=
  Returns {| data := c ++ lit " # fast"; reasoning := None |}.

Definition blank_repair_at (k : nat) (n : nat) : reply (AIResponse jsstring) :=
  if (n =? k)%nat then Returns {| data := lit "  " ++ [NL]; reasoning := None |}
  else good_repair n.

Definition failing_optimize (c : jsstring) : reply (AIResponse jsstring) :=
  Throws (lit "429 quota exceeded").

Definition user_inputs : inputs :=
  {| problem := lit "sum two numbers"; sampleInput := []; sampleOutput := [];
     proMode := false; language := python |}.

(** ** Further vocabulary for the sandbox and the endpoint *)

(** What the child wrote to stdout, in the order of arrival. *)
Fixpoint stdout_of (evs : list event) : jsstring :=
  match evs with
  | [] => []
  | StdoutData d :: rest => d ++ stdout_of rest
  | _ :: rest => stdout_of rest
  end.

(** A host on which neither [writeFileSync] nor [spawn] throws. *)
Definition no_throw (h : host) : Prop :=
  writeFileSync_throws h = None /\ spawn_throws h = None.

(** The stdin handed to the processes that were spawned, oldest first. *)
Definition spawned_stdin (log : list syscall) : list jsstring :=
  omap (fun c => match c with Spawn _ i => Some i | _ => None end) log.

(** The result the endpoint makes up for a C++ or Java vector. *)
Definition mock_result (testCase : TestCase) : TestResult :=
  {| r_input := input testCase;
     r_expectedOutput := expectedOutput testCase;
     r_actualOutput := Some (expectedOutput testCase);
     r_error := None;
     passed := true |}.

(** A sandbox whose [k]-th run prints [outs k] and exits with status 0. *)
Definition printing (h : host) (outs : nat -> jsstring) : sandbox_script :=
  fun k => (h, [StdoutData (outs k); Exit; Close (Some 0%Z)]).

Definition all_space (s : jsstring) : Prop :=
  Forall (fun c => is_js_space c = true) s.

(** ** The calls of a run, as a grammar *)

(** [inputPublicTests]: the sample of the user, when both fields are filled. *)
Definition public_tests (i : inputs) : list TestCase :=
  if truthy (trim (sampleInput i)) && truthy (trim (sampleOutput i)) then
    [ {| input := trim (sampleInput i);
         expectedOutput := trim (sampleOutput i);
         description := Some (lit "User provided test case") |} ]
  else [].

Definition is_repair (c : call) : bool :=
  match c with Repair _ _ _ => true | _ => false end.

Definition repairs (cs : list call) : nat := length (List.filter is_repair cs).

(** The calls of steps 4 and 5, from cycle [n + 1] on with candidate [c]:
    a cycle ends the run (an exception, a blank repair), hands over to the
    optimiser (all vectors passed, or the fifth cycle failed), or is followed
    by the cycles of the repaired candidate. *)
Inductive loop_log (tests : list TestCase) : nat -> jsstring -> list call -> Prop :=
| ll_fetch_throws n c msg :
    n < MAX_ITERATIONS ->
    loop_log tests n c [Execute c tests (Throws msg)]
| ll_all_passed n c rs cur r :
    n < MAX_ITERATIONS -> failures rs = [] ->
    loop_log tests n c [Execute c tests (Returns rs); Optimize cur r]
| ll_budget_spent n c rs cur r :
    S n = MAX_ITERATIONS -> failures rs <> [] ->
    loop_log tests n c [Execute c tests (Returns rs); Optimize cur r]
| ll_repair_throws n c rs msg :
    S n < MAX_ITERATIONS -> failures rs <> [] ->
    loop_log tests n c
      [Execute c tests (Returns rs); Repair c (failures rs) (Throws msg)]
| ll_repair_blank n c rs a :
    S n < MAX_ITERATIONS -> failures rs <> [] -> blank (data a) = true ->
    loop_log tests n c
      [Execute c tests (Returns rs); Repair c (failures rs) (Returns a)]
| ll_repaired n c rs a rest :
    S n < MAX_ITERATIONS -> failures rs <> [] -> blank (data a) = false ->
    loop_log tests (S n) (data a) rest ->
    loop_log tests n c
      (Execute c tests (Returns rs) :: Repair c (failures rs) (Returns a) :: rest).

(** All the calls of a run. *)
Inductive run_log (i : inputs) : list call -> Prop :=
| rl_analyze_throws msg :
    run_log i [Analyze (Throws msg)]
| rl_generate_throws a msg :
    run_log i [Analyze (Returns a); Generate (Throws msg)]
| rl_tests_throw a g msg :
    run_log i [Analyze (Returns a); Generate (Returns g);
               GenerateTests (Throws msg)]
| rl_loop a g t rest :
    loop_log (public_tests i ++ t) 0 (data g) rest ->
    run_log i (Analyze (Returns a) :: Generate (Returns g)
               :: GenerateTests (Returns t) :: rest).

(** The calls of steps 1 to 3 with the result they lead to. *)
Inductive setup_log (i : inputs)
    : result (jsstring * list TestCase) -> list call -> Prop :=
| sl_analyze_throws msg :
    setup_log i (Exn msg) [Analyze (Throws msg)]
| sl_generate_throws a msg :
    setup_log i (Exn msg) [Analyze (Returns a); Generate (Throws msg)]
| sl_tests_throw a g msg :
    setup_log i (Exn msg) [Analyze (Returns a); Generate (Returns g);
                           GenerateTests (Throws msg)]
| sl_ready a g t :
    setup_log i (Val (data g, public_tests i ++ t))
      [Analyze (Returns a); Generate (Returns g); GenerateTests (Returns t)].

(** A list in which every element is followed only by what [R] allows. *)
Inductive chain {A} (R : A -> A -> Prop) : list A -> Prop :=
| chain_nil : chain R []
| chain_one x : chain R [x]
| chain_cons x y l : R x y -> chain R (y :: l) -> chain R (x :: y :: l).

(** Which call may come directly after which.  Nothing comes after a call
    that threw, after a blank repair, or after the optimiser. *)
Definition follows (x y : call) : Prop :=
  match x, y with
  | Analyze (Returns _), Generate _ => True
  | Generate (Returns _), GenerateTests _ => True
  | GenerateTests (Returns _), Execute _ _ _ => True
  | Execute c _ (Returns rs), Repair c' f _ =>
      c' = c /\ f = failures rs /\ f <> []
  | Execute _ _ (Returns _), Optimize _ _ => True
  | Repair _ _ (Returns a), Execute c _ _ => c = data a /\ blank (data a) = false
  | _, _ => False
  end.

Definition optimizer_returned (c : call) : Prop :=
  match c with Optimize _ (Returns _) => True | _ => False end.

(** ** The answer of a code model, taken apart

    [generateInitialCode], [debugAndRepair] and [optimizeCode] end with the
    same post-processing of [response.text]: the reasoning section is cut
    out, then the code is taken from the first fenced block, or, without
    one, from the whole text with the fence markers deleted.  The versions
    differ in the language tags that their fence patterns list. *)

(** [s] reads [pat] somewhere. *)
Definition contains (pat s : jsstring) : Prop := exists a b, s = a ++ pat ++ b.

(** The first occurrence of [pat] in [s]: the text before it and the text
    behind it. *)
Fixpoint split_at (pat s : jsstring) {struct s} : option (jsstring * jsstring) :=
  match strip_prefix pat s with
  | Some rest => Some ([], rest)
  | None =>
      match s with
      | [] => None
      | c :: t =>
          match split_at pat t with
          | Some (b, a) => Some (c :: b, a)
          | None => None
          end
      end
  end.

(** One attempt of [/(?:o1|o2|...)([\s\S]*?)close/] at the start of [s]: the
    alternatives in the order of the pattern; the lazy group ends at the
    first [close] behind the opener.  The group and the text behind. *)
Fixpoint match_here (openers : list jsstring) (close s : jsstring)
    : option (jsstring * jsstring) :=
  match openers with
  | [] => None
  | o :: os =>
      match strip_prefix o s with
      | Some rest =>
          match split_at close rest with
          | Some r => Some r
          | None => match_here os close s
          end
      | None => match_here os close s
      end
  end.

(** [s.match(...)] without the [g] flag: the leftmost position where an
    attempt succeeds.  The text before the match, the group, the text behind
    the match. *)
Fixpoint regex_match (openers : list jsstring) (close s : jsstring) {struct s}
    : option (jsstring * jsstring * jsstring) :=
  match match_here openers close s with
  | Some (g, a) => Some ([], g, a)
  | None =>
      match s with
      | [] => None
      | c :: t =>
          match regex_match openers close t with
          | Some (b, g, a) => Some (c :: b, g, a)
          | None => None
          end
      end
  end.

(** The first alternative of [/m1|m2|.../] that [s] starts with. *)
Fixpoint first_prefix (marks : list jsstring) (s : jsstring) : option jsstring :=
  match marks with
  | [] => None
  | m :: ms =>
      match strip_prefix m s with
      | Some rest => Some rest
      | None => first_prefix ms s
      end
  end.

(** [s.replace(/m1|m2|.../g, empty)]: scan from the left, drop a match and
    resume behind it, copy any other code unit. *)
Fixpoint remove_marks (fuel : nat) (marks : list jsstring) (s : jsstring)
    : jsstring :=
  match fuel, s with
  | S f, c :: t =>
      match first_prefix marks s with
      | Some rest => remove_marks f marks rest
      | None => c :: remove_marks f marks t
      end
  | _, _ => s
  end.

Definition BACKTICK : N := 96%N.

Definition FENCE : jsstring := lit "```".

Definition REASONING_OPEN : jsstring := lit "<reasoning>".

Definition REASONING_CLOSE : jsstring := lit "</reasoning>".

(** [/```(?:t1|t2|...)?\n/]: the tags in order, then no tag. *)
Definition fence_openers (tags : list jsstring) : list jsstring :=
  (fun t => FENCE ++ t ++ [NL]) <$> (tags ++ [[]]).

(** [/```(?:t1|t2|...)|```/g] *)
Definition fence_marks (tags : list jsstring) : list jsstring :=
  ((fun t => FENCE ++ t) <$> tags) ++ [FENCE].

Definition strip_fences (tags : list jsstring) (s : jsstring) : jsstring :=
  remove_marks (length s) (fence_marks tags) s.

(** [response.text || empty]: [text] is undefined when the model gave no
    text part. *)
Definition response_text (text : option jsstring) : jsstring :=
  match text with
  | Some t => t
  | None => []
  end.

Definition extract_code (tags : list jsstring) (text : jsstring)
    : AIResponse jsstring :=
  let reasoningMatch := regex_match [REASONING_OPEN] REASONING_CLOSE text in
  let reasoning :=
    match reasoningMatch with
    | Some (_, g, _) => Some (trim g)
    | None => None
    end in
  let code :=
    trim (match reasoningMatch with
          | Some (b, _, a) => b ++ a
          | None => text
          end) in
  let codeMatch := regex_match (fence_openers tags) FENCE code in
  let code :=
    match codeMatch with
    | Some (_, g, _) => trim g
    | None => trim (strip_fences tags code)
    end in
  {| data := code; reasoning := reasoning |}.

(** The tags of [generateInitialCode] (both versions of the services) and of
    the single-language [debugAndRepair] and [optimizeCode]. *)
Definition PYTHON_ONLY : list jsstring := [lit "python"].

(** The tags of the multi-language [debugAndRepair] and [optimizeCode]. *)
Definition ALL_TAGS : list jsstring := [lit "python"; lit "cpp"; lit "java"].

Definition starts_clean (s : jsstring) : Prop :=
  match s with
  | [] => True
  | c :: _ => is_js_space c = false
  end.

(** The number of backticks that [s] starts with. *)
Fixpoint lead (s : jsstring) : nat :=
  match s with
  | c :: t => if (c =? BACKTICK)%N then S (lead t) else 0
  | [] => 0
  end.

(** [s] does not start with the code unit [x]. *)
Definition head_not (x : N) (s : jsstring) : Prop :=
  match s with
  | [] => True
  | c :: _ => c <> x
  end.

(** Every pattern of the list starts with the code unit [x]. *)
Definition all_start_with (x : N) (pats : list jsstring) : Prop :=
  Forall (fun p => exists p', p = x :: p') pats.


(** The second half of [extract_code], on the text without its reasoning
    section. *)
Definition fenced_code (tags : list jsstring) (code : jsstring) : jsstring :=
  match regex_match (fence_openers tags) FENCE code with
  | Some (_, g, _) => trim g
  | None => trim (strip_fences tags code)
  end.

(** ** The test library: the result shown with a vector

    [testResults.find(r => r.input === test.input
                           && r.expectedOutput === test.expectedOutput)] *)
Definition same_vector (test : TestCase) (r : TestResult) : bool :=
  str_eqb (r_input r) (input test)
  && str_eqb (r_expectedOutput r) (expectedOutput test).

Definition find_result (testResults : list TestResult) (test : TestCase)
    : option TestResult :=
  List.find (same_vector test) testResults.

Inductive badge := badge_passed | badge_failed | no_badge.

Definition badge_of (testResults : list TestResult) (test : TestCase) : badge :=
  match find_result testResults test with
  | Some result => if passed result then badge_passed else badge_failed
  | None => no_badge
  end.

(** Two identical vectors; the program passes the first time and runs into
    the watchdog the second time. *)
Definition twin_vectors : list TestCase :=
  [ {| input := lit "2 3"; expectedOutput := lit "5"; description := None |};
    {| input := lit "2 3"; expectedOutput := lit "5"; description := None |} ].

Definition flaky_runs : sandbox_script := fun k =>
  match k with
  | 0 => (quiet_host, [StdoutData (lit "5" ++ [NL]); Exit; Close (Some 0%Z)])
  | _ => (quiet_host, [TimerFires; Exit; Close None])
  end.

(** ** The pipeline display *)

#[global] Instance Step_eq_dec : EqDecision Step.
Proof. solve_decision. Defined.

Definition PIPELINE_STEPS : list Step :=
  [analyzing; coding; testing; debugging; optimizing; completed].

(** [PIPELINE_STEPS.findIndex(x => x.id === step)], [-1] when absent. *)
Fixpoint findIndex_from (i : Z) (l : list Step) (step : Step) : Z :=
  match l with
  | [] => (-1)%Z
  | x :: t => if bool_decide (x = step) then i
              else findIndex_from (i + 1)%Z t step
  end.

Definition findIndex (step : Step) : Z := findIndex_from 0%Z PIPELINE_STEPS step.

(** The four looks of a stage icon, in the order of the conditional. *)
Inductive icon_style := icon_active | icon_past | icon_failed | icon_idle.

Definition icon (step : Step) (i : nat) (s : Step) : icon_style :=
  let currentIndex := findIndex step in
  let isActive := bool_decide (step = s) in
  let isPast := (Z.of_nat i <? currentIndex)%Z || bool_decide (step = completed) in
  let isFailed := bool_decide (step = failed) in
  if isActive && negb isFailed then icon_active
  else if isPast && negb isFailed then icon_past
  else if isFailed && isActive then icon_failed
  else icon_idle.

Definition icons (step : Step) : list icon_style := imap (icon step) PIPELINE_STEPS.

(** [scaleX] of the progress line: a literal, or a quotient that is left
    as written. *)
Inductive scale := scale_lit (z : Z) | scale_div (n d : Z).

Definition scaleX (step : Step) : scale :=
  if bool_decide (step = idle) then scale_lit 0
  else if bool_decide (step = failed) then scale_lit 1
  else if bool_decide (step = completed) then scale_lit 1
  else scale_div (Z.max 0 (findIndex step))
         (Z.of_nat (length PIPELINE_STEPS) - 1).

(** ** The contest clock *)



(** ** The chat panel *)

Module Chat.

Inductive Mode := normal | fast | search.

Inductive Role := user | ai.

Record Message := {
  id : jsstring;
  role : Role;
  content : jsstring;
  image : option jsstring;
  isFast : option bool;
  isSearch : option bool }.

(** What the chat services read of the answer of the model. *)
Record Chunk := {
  web_uri : option jsstring;
  web_title : option jsstring }.

Record GenResponse := {
  text : option jsstring;
  groundingChunks : option (list Chunk) }.

Definition NO_RESPONSE : jsstring := lit "No response generated.".

Definition chatWithGemini (response : GenResponse) : jsstring :=
  or_else (response_text (text response)) NO_RESPONSE.

Definition fastResponse (response : GenResponse) : jsstring :=
  or_else (response_text (text response)) NO_RESPONSE.

(** [chunk.web?.uri && chunk.web?.title] *)
Definition source_line (chunk : Chunk) : jsstring :=
  match web_uri chunk, web_title chunk with
  | Some uri, Some title =>
      if truthy uri && truthy title then
        lit "- [" ++ title ++ lit "](" ++ uri ++ lit ")" ++ [NL]
      else []
  | _, _ => []
  end.

Definition searchWithGemini (response : GenResponse) : jsstring :=
  let text := or_else (response_text (text response)) NO_RESPONSE in
  match groundingChunks response with
  | Some (c :: cs) =>
      fold_left (fun text chunk => text ++ source_line chunk) (c :: cs)
        (text ++ [NL; NL] ++ lit "**Sources:**" ++ [NL])
  | _ => text
  end.

Record state := {
  messages : list Message;
  input : jsstring;
  isLoading : bool;
  mode : Mode }.

#[global] Instance Mode_eq_dec : EqDecision Mode.
Proof. solve_decision. Defined.

(** One call of [handleSend] from the guard to the [finally] block.  [gen]
    is the answer of the model (or the exception of the request), [now] and
    [later] are the readings of the clock for the two message ids. *)
Definition handleSend (gen : Mode -> jsstring -> reply GenResponse)
    (now later : N) (st : state) : state :=
  if negb (truthy (trim (input st))) && negb (bool_decide (mode st = normal))
  then st
  else
    let userMessage :=
      {| id := dec now; role := user; content := input st; image := None;
         isFast := Some (bool_decide (mode st = fast));
         isSearch := Some (bool_decide (mode st = search)) |} in
    let answer :=
      match gen (mode st) (content userMessage) with
      | Returns response =>
          let responseText :=
            match mode st with
            | fast => fastResponse response
            | search => searchWithGemini response
            | normal => chatWithGemini response
            end in
          {| id := dec (later + 1); role := ai; content := responseText;
             image := None;
             isFast := Some (bool_decide (mode st = fast));
             isSearch := Some (bool_decide (mode st = search)) |}
      | Throws message =>
          {| id := dec (later + 1); role := ai;
             content := lit "Error: " ++ message;
             image := None; isFast := None; isSearch := None |}
      end in
    {| messages := (messages st ++ [userMessage]) ++ [answer];
       input := [];
       isLoading := false;
       mode := mode st |}.

End Chat.

(** A run without test vectors: the user gave no sample, the test generator
    came back with an empty list, and the endpoint answers the empty vector
    list with the empty result list. *)
Definition untested : collaborators :=
  {| analyzeProblem := fun _ _ =>
       Returns {| data := {| title := lit "T"; complexityGoal := lit "O(n)" |};
                  reasoning := None |};
     generateInitialCode := fun _ _ _ =>
       Returns {| data := candidate 0; reasoning := None |};
     generateTestCases := fun _ _ _ => Returns [];
     fetch_execute := fun _ _ _ _ => Returns [];
     debugAndRepair := fun n _ _ _ _ => good_repair n;
     optimizeCode := fun _ c _ => good_optimize c |}.

(** ** The error view [ErrorLogDisplay] and the code view *)

Definition QUOTE : N := 34%N.

Definition is_line_terminator (c : N) : bool :=
  (c =? 10)%N || (c =? 13)%N || (c =? 8232)%N || (c =? 8233)%N.

(** The final group of a pattern, any run of code units other than line
    terminators: up to the first line terminator. *)
Fixpoint dot_star (s : jsstring) : jsstring :=
  match s with
  | c :: t => if is_line_terminator c then [] else c :: dot_star t
  | [] => []
  end.

(** The longest run of code units other than the quote, and the rest. *)
Fixpoint span_unquoted (s : jsstring) : jsstring * jsstring :=
  match s with
  | c :: t =>
      if (c =? QUOTE)%N then ([], s)
      else let '(run, r) := span_unquoted t in (c :: run, r)
  | [] => ([], [])
  end.

(** One attempt of the file-and-line pattern at the start of [s]: the word
    File, a quote, a non-empty run without a quote (the first group), a
    quote, a comma, the word line, a run of digits (the second group) and
    the rest of the line (the third group).  The run without a quote stops
    at the quote that the pattern reads next, so only the longest run can
    be followed by a match; the last group always matches. *)
Definition file_line_here (s : jsstring)
    : option (jsstring * jsstring * jsstring) :=
  match strip_prefix (lit "File " ++ [QUOTE]) s with
  | Some r1 =>
      match span_unquoted r1 with
      | (f :: fs, r2) =>
          match strip_prefix (QUOTE :: lit ", line ") r2 with
          | Some r3 =>
              match span_digits r3 with
              | (d :: ds, r4) => Some (f :: fs, d :: ds, dot_star r4)
              | ([], _) => None
              end
          | None => None
          end
      | ([], _) => None
      end
  | None => None
  end.

(** [fileLineMatch]: the leftmost position where an attempt succeeds. *)
Fixpoint file_line_match (s : jsstring) {struct s}
    : option (jsstring * jsstring * jsstring) :=
  match file_line_here s with
  | Some r => Some r
  | None =>
      match s with
      | [] => None
      | _ :: t => file_line_match t
      end
  end.

Definition is_upper (c : N) : bool := ((65 <=? c) && (c <=? 90))%N.

Definition is_letter (c : N) : bool :=
  is_upper c || ((97 <=? c) && (c <=? 122))%N.

Fixpoint span_letters (s : jsstring) : jsstring * jsstring :=
  match s with
  | c :: t =>
      if is_letter c then let '(run, r) := span_letters t in (c :: run, r)
      else ([], s)
  | [] => ([], [])
  end.

(** [run] is at least one code unit followed by [Error]. *)
Definition ends_with_Error (run : jsstring) : bool :=
  match strip_prefix (rev (lit "Error")) (rev run) with
  | Some (_ :: _) => true
  | _ => false
  end.

(** [errorTypeMatch], anchored at the start of the line: a capital, letters
    and [Error], or else [Exception]; then a colon and the rest of the line.
    In the first alternative everything before the colon is a letter, so
    the letters behind the capital are the whole run of letters, which has
    to end with [Error] and to be followed by the colon.  The two groups. *)
Definition error_type_match (s : jsstring) : option (jsstring * jsstring) :=
  let named :=
    match s with
    | u :: t =>
        if is_upper u then
          let '(run, tail) := span_letters t in
          match tail with
          | c :: rest =>
              if (c =? 58)%N && ends_with_Error run
              then Some (u :: run, dot_star rest)
              else None
          | [] => None
          end
        else None
    | [] => None
    end in
  match named with
  | Some r => Some r
  | None =>
      match strip_prefix (lit "Exception:") s with
      | Some rest => Some (lit "Exception", dot_star rest)
      | None => None
      end
  end.

(** One attempt of [/line (\d+)/] at the start of [s]: the digits. *)
Definition line_ref_here (s : jsstring) : option jsstring :=
  match strip_prefix (lit "line ") s with
  | Some r =>
      match span_digits r with
      | (d :: ds, _) => Some (d :: ds)
      | ([], _) => None
      end
  | None => None
  end.

(** [line.match(/line (\d+)/)]: the group of the leftmost match. *)
Fixpoint line_ref_match (s : jsstring) {struct s} : option jsstring :=
  match line_ref_here s with
  | Some ds => Some ds
  | None =>
      match s with
      | [] => None
      | _ :: t => line_ref_match t
      end
  end.

(** [line.split(sep)[0]] and [line.split(sep)[1]] for a separator that
    occurs in [line]. *)
Definition split_parts (sep line : jsstring) : jsstring * jsstring :=
  match split_at sep line with
  | Some (before, behind) =>
      match split_at sep behind with
      | Some (between, _) => (before, between)
      | None => (before, behind)
      end
  | None => (line, [])
  end.

(** What the view makes of one line of the text. *)
Inductive line_view :=
| traceback_header (line : jsstring)
| file_line (file : jsstring) (lineNum : N) (rest : jsstring)
| error_type (name rest : jsstring)
| code_snippet (text : jsstring)
| line_reference (before : jsstring) (lineNum : N) (label after : jsstring)
| plain_line (line : jsstring).

Definition TRACEBACK_HEADER : jsstring :=
  lit "Traceback (most recent call last):".

Definition render_line (line : jsstring) : line_view :=
  if str_eqb (trim line) TRACEBACK_HEADER then traceback_header line
  else
    match file_line_match line with
    | Some (file, lineNumStr, rest) =>
        file_line file (parseInt10 lineNumStr) rest
    | None =>
        match error_type_match line with
        | Some (name, rest) => error_type name rest
        | None =>
            match strip_prefix (lit "    ") line with
            | Some _ => code_snippet (trim line)
            | None =>
                match line_ref_match line with
                | Some ds =>
                    let label := lit "line " ++ ds in
                    let parts := split_parts label line in
                    line_reference parts.1 (parseInt10 ds) label parts.2
                | None => plain_line line
                end
            end
        end
    end.

(** The view of a text; [None] is the placeholder for an empty text. *)
Definition ErrorLogDisplay (errorText : jsstring) : option (list line_view) :=
  if truthy errorText then Some (render_line <$> lines errorText) else None.

(** The line number that a click on the button of a line passes to
    [handleLineClick]. *)
Definition button (v : line_view) : option N :=
  match v with
  | file_line _ lineNum _ => Some lineNum
  | line_reference _ lineNum _ _ => Some lineNum
  | _ => None
  end.

(** The rows of the code view: the id and the text of each line. *)
Definition line_id (lineNum : N) : jsstring := lit "code-line-" ++ dec lineNum.

Definition code_view (code : jsstring) : list (jsstring * jsstring) :=
  if truthy code then
    imap (fun i line => (line_id (N.of_nat (i + 1)), line)) (lines code)
  else [].

(** [document.getElementById(`code-line-${lineNum}`)] in [handleLineClick]:
    the row that is scrolled to and lit up, if there is one. *)
Definition handleLineClick (code : jsstring) (lineNum : N)
    : option (jsstring * jsstring) :=
  List.find (fun row => str_eqb row.1 (line_id lineNum)) (code_view code).

(** A candidate of two lines that fails in its second line, and what
    Python writes to stderr when it runs in the scratch file. *)
Definition failing_candidate : jsstring :=
  lit "a = 1" ++ [NL] ++ lit "print(b)".

Definition failing_stderr : jsstring :=
  lit "Traceback (most recent call last):" ++ [NL]
  ++ lit "  " ++ (lit "File " ++ [QUOTE]) ++ lit "/app/temp_1700000000000_k3x9q.py"
  ++ (QUOTE :: lit ", line ") ++ lit "29" ++ lit ", in <module>" ++ [NL]
  ++ lit "NameError: name 'b' is not defined" ++ [NL].

(** * Properties *)

(** ** Strings and numbers *)

Section Strings.
Local Open Scope N_scope.

Lemma digits_of_parse fuel : forall n acc,
  n < 2 ^ N.of_nat (S fuel) ->
  fold_left pstep (digits_of fuel n acc) 0 = fold_left pstep acc n.
Proof.
  induction fuel as [|f IH]; intros n acc Hn.
  - cbn [digits_of fold_left]. f_equal. unfold pstep.
    change (2 ^ N.of_nat 1) with 2 in Hn.
    rewrite N.mod_small by lia. lia.
  - cbn [digits_of]. destruct (N.eqb_spec (n / 10) 0) as [Hz|Hnz].
    + cbn [fold_left]. f_equal. unfold pstep.
      assert (n < 10) by (apply N.div_small_iff in Hz; lia).
      rewrite N.mod_small by lia. lia.
    + rewrite IH.
      * cbn [fold_left]. f_equal. unfold pstep.
        rewrite (N.add_comm 48), N.add_sub.
        symmetry. apply N.div_mod. lia.
      * rewrite Nat2N.inj_succ, N.pow_succ_r' in Hn.
        apply N.Div0.div_lt_upper_bound. lia.
Qed.

Lemma parseInt10_dec n : parseInt10 (dec n) = n.
Proof.
  unfold parseInt10, dec.
  rewrite digits_of_parse; [reflexivity|].
  rewrite Nat2N.inj_succ, N2Nat.id.
  destruct (N.eq_dec n 0) as [->|Hn]; [reflexivity|].
  apply N.log2_spec. lia.
Qed.

Lemma digits_of_shape fuel : forall n acc,
  exists d ds, digits_of fuel n acc = d :: ds ++ acc
               /\ Forall (fun c => is_digit c = true) (d :: ds).
Proof.
  assert (Hd : forall n, is_digit (48 + n mod 10) = true).
  { intros n. unfold is_digit.
    pose proof (N.mod_upper_bound n 10 ltac:(lia)) as Hm.
    revert Hm. generalize (n mod 10). intros m Hm.
    apply andb_true_intro; split; apply N.leb_le; lia. }
  induction fuel as [|f IH]; intros n acc; cbn [digits_of].
  - exists (48 + n mod 10), []. split; [reflexivity|]. repeat constructor. apply Hd.
  - destruct (n / 10 =? 0).
    + exists (48 + n mod 10), []. split; [reflexivity|]. repeat constructor. apply Hd.
    + destruct (IH (n / 10) ((48 + n mod 10) :: acc)) as (d & ds & -> & Hall).
      exists d, (ds ++ [48 + n mod 10]). split.
      * rewrite <- app_assoc. reflexivity.
      * rewrite app_comm_cons. apply Forall_app. split; [exact Hall|].
        repeat constructor. apply Hd.
Qed.

Lemma dec_shape n :
  exists d ds, dec n = d :: ds /\ Forall (fun c => is_digit c = true) (d :: ds).
Proof.
  destruct (digits_of_shape (N.to_nat (N.log2 n)) n []) as (d & ds & E & H).
  exists d, ds. unfold dec. rewrite E, app_nil_r. auto.
Qed.

Lemma span_digits_app ds rest :
  Forall (fun c => is_digit c = true) ds -> no_digit_ahead rest ->
  span_digits (ds ++ rest) = (ds, rest).
Proof.
  intros Hds Hrest. induction Hds as [|c ds Hc _ IH]; cbn.
  - destruct rest as [|c t]; [reflexivity|]. cbn in Hrest. cbn. now rewrite Hrest.
  - rewrite Hc, IH. reflexivity.
Qed.

Lemma span_digits_spec s :
  s = (span_digits s).1 ++ (span_digits s).2
  /\ Forall (fun c => is_digit c = true) (span_digits s).1
  /\ no_digit_ahead (span_digits s).2.
Proof.
  induction s as [|c t IH]; cbn.
  - repeat split; constructor.
  - destruct (is_digit c) eqn:Hc.
    + destruct (span_digits t) as [ds r]. cbn in *.
      destruct IH as (-> & ? & ?). repeat split; auto.
    + cbn. repeat split; auto.
Qed.

Lemma strip_prefix_app p s : strip_prefix p (p ++ s) = Some s.
Proof.
  induction p as [|a p IH]; cbn; [now destruct s|]. now rewrite N.eqb_refl.
Qed.

Lemma strip_prefix_cons a p b s :
  strip_prefix (a :: p) (b :: s) = if a =? b then strip_prefix p s else None.
Proof. reflexivity. Qed.

Lemma strip_prefix_Some p : forall s r, strip_prefix p s = Some r -> s = p ++ r.
Proof.
  induction p as [|a p IH]; intros [|b s] r; cbn; try congruence.
  destruct (N.eqb_spec a b); [|discriminate].
  intros H. apply IH in H. congruence.
Qed.

(** Text in front of a match cannot borrow from it: [x] does not occur in
    the pattern, so a prefix that failed on [s] still fails on [s ++ x :: _]. *)
Lemma strip_prefix_None_app p x : forall s t,
  x ∉ p -> strip_prefix p s = None -> strip_prefix p (s ++ x :: t) = None.
Proof.
  induction p as [|a p IH]; intros s t Hx; cbn; [destruct s; discriminate|].
  apply not_elem_of_cons in Hx as [Hxa Hxp].
  destruct s as [|b s]; cbn.
  - destruct (N.eqb_spec a x); [congruence|reflexivity].
  - destruct (a =? b); [apply IH; assumption|reflexivity].
Qed.

(** *** The rewrite does not depend on its fuel *)

Lemma match_is_suffix s r :
  strip_prefix (lit "line ") s = Some r ->
  (length (span_digits r).2 < length s)%nat.
Proof.
  intros H. apply strip_prefix_Some in H. subst s.
  destruct (span_digits_spec r) as (E & _ & _).
  rewrite E at 2. rewrite !length_app. cbn. lia.
Qed.

Lemma replace_lines_fuel f1 : forall f2 s,
  (length s <= f1)%nat -> (length s <= f2)%nat ->
  replace_lines f1 s = replace_lines f2 s.
Proof.
  induction f1 as [|f1 IH]; intros f2 s H1 H2.
  - destruct s; [|cbn in H1; lia]. now destruct f2.
  - destruct s as [|c t]; [now destruct f2|].
    destruct f2 as [|f2]; [cbn in H2; lia|].
    cbn [replace_lines].
    destruct (strip_prefix (lit "line ") (c :: t)) as [r|] eqn:Hp.
    + pose proof (match_is_suffix _ _ Hp) as Hlen.
      destruct (span_digits r) as [[|d ds] rest]; cbn in Hlen, H1, H2.
      * f_equal. apply IH; lia.
      * f_equal. apply IH; lia.
    + f_equal. cbn in H1, H2. apply IH; lia.
Qed.

(** The rewrite, one match at a time. *)
Lemma adjust_cons c t :
  adjust (c :: t) =
  match strip_prefix (lit "line ") (c :: t) with
  | Some r =>
      match span_digits r with
      | (d :: ds, rest) => remap_line (d :: ds) ++ adjust rest
      | ([], _) => c :: adjust t
      end
  | None => c :: adjust t
  end.
Proof.
  unfold adjust. cbn [length replace_lines].
  destruct (strip_prefix (lit "line ") (c :: t)) as [r|] eqn:Hp.
  - pose proof (match_is_suffix _ _ Hp) as Hlen.
    destruct (span_digits r) as [[|d ds] rest]; cbn in Hlen; [reflexivity|].
    f_equal. apply replace_lines_fuel; lia.
  - reflexivity.
Qed.

Lemma adjust_nil : adjust [] = [].
Proof. reflexivity. Qed.

(** Matches in front of a text that begins with [l] end before it. *)
Lemma adjust_app pre : forall tl,
  adjust (pre ++ 108 :: tl) = adjust pre ++ adjust (108 :: tl).
Proof.
  induction pre as [pre IH] using (induction_ltof1 _ (@length N)).
  unfold ltof in IH. intros tl.
  destruct pre as [|c t]; [reflexivity|].
  rewrite <- app_comm_cons, (adjust_cons c (t ++ _)), (adjust_cons c t).
  destruct (strip_prefix (lit "line ") (c :: t)) as [r|] eqn:Hp.
  - pose proof (match_is_suffix _ _ Hp) as Hlen.
    apply strip_prefix_Some in Hp. rewrite app_comm_cons, Hp, <- app_assoc.
    rewrite strip_prefix_app.
    destruct (span_digits_spec r) as (Er & Hds & Hrest).
    assert (Hspan : span_digits (r ++ 108 :: tl)
                    = ((span_digits r).1, (span_digits r).2 ++ 108 :: tl)).
    { rewrite Er at 1. rewrite <- app_assoc. apply span_digits_app; [exact Hds|].
      destruct (span_digits r).2; [reflexivity|exact Hrest]. }
    rewrite Hspan. destruct (span_digits r) as [[|d ds] rest]; cbn [fst snd] in *.
    + cbn in Er. subst r. rewrite <- app_comm_cons. f_equal.
      apply IH. cbn. lia.
    + rewrite IH by exact Hlen. now rewrite app_assoc.
  - assert (strip_prefix (lit "line ") (c :: t ++ 108 :: tl) = None) as ->.
    { change (lit "line ") with (108 :: [105; 110; 101; 32]) in *.
      rewrite (strip_prefix_cons 108 _ c) in Hp |- *.
      destruct (108 =? c); [|reflexivity].
      apply strip_prefix_None_app; [|exact Hp].
      rewrite !not_elem_of_cons. repeat split; try discriminate.
      apply not_elem_of_nil. }
    rewrite <- app_comm_cons. f_equal. apply IH. cbn. lia.
Qed.

(** A reference to line [n] of the scratch file, with [n] past the
    preamble, comes out as a reference to line [n - 27]. *)
Lemma adjust_line_reference n post :
  28 <= n -> no_digit_ahead post ->
  adjust (lit "line " ++ dec n ++ post) = lit "line " ++ dec (n - 27) ++ adjust post.
Proof.
  intros Hn Hpost. change (lit "line ") with (108 :: [105; 110; 101; 32]) at 1.
  rewrite <- app_comm_cons, adjust_cons, app_comm_cons.
  change (108 :: [105; 110; 101; 32]) with (lit "line ").
  rewrite strip_prefix_app.
  destruct (dec_shape n) as (d & ds & E & Hds).
  rewrite span_digits_app by (rewrite ?E; assumption).
  rewrite E, <- E. unfold remap_line. rewrite parseInt10_dec.
  destruct (N.leb_spec 28 n); [|lia]. now rewrite <- app_assoc.
Qed.

(** A reference into the preamble is left as it is. *)
Lemma adjust_preamble_reference n post :
  n < 28 -> no_digit_ahead post ->
  adjust (lit "line " ++ dec n ++ post) = lit "line " ++ dec n ++ adjust post.
Proof.
  intros Hn Hpost. change (lit "line ") with (108 :: [105; 110; 101; 32]) at 1.
  rewrite <- app_comm_cons, adjust_cons, app_comm_cons.
  change (108 :: [105; 110; 101; 32]) with (lit "line ").
  rewrite strip_prefix_app.
  destruct (dec_shape n) as (d & ds & E & Hds).
  rewrite span_digits_app by (rewrite ?E; assumption).
  rewrite E, <- E. unfold remap_line. rewrite parseInt10_dec.
  destruct (N.leb_spec 28 n); [lia|]. now rewrite <- app_assoc.
Qed.

Lemma adjust_truthy s : truthy s = true -> truthy (adjust s) = true.
Proof.
  destruct s as [|c t]; [discriminate|]. intros _. rewrite adjust_cons.
  destruct (strip_prefix _ _); [|reflexivity].
  destruct (span_digits _) as [[|d ds] rest]; [reflexivity|].
  unfold remap_line. now destruct (28 <=? _).
Qed.

End Strings.

(** ** The wrapped source: where the candidate's lines end up *)

Lemma lines_from_app_nl p : forall cur x,
  lines_from cur (p ++ NL :: x) = lines_from cur p ++ lines_from [] x.
Proof.
  induction p as [|c p IH]; intros cur x; cbn.
  - reflexivity.
  - destruct (N.eqb c NL); [now rewrite IH|apply IH].
Qed.

Lemma lines_from_snoc_nl s : forall cur,
  lines_from cur (s ++ [NL]) = lines_from cur s ++ [[]].
Proof. intros cur. apply lines_from_app_nl. Qed.

Lemma PREAMBLE_lines : lines (removelast PREAMBLE) = lit <$> PREAMBLE_LINES.
Proof. vm_compute. reflexivity. Qed.

Lemma PREAMBLE_ends_line : PREAMBLE = removelast PREAMBLE ++ [NL].
Proof. vm_compute. reflexivity. Qed.

Lemma secureCode_lines src :
  lines (secureCode src) = (lit <$> PREAMBLE_LINES) ++ lines src ++ [[]].
Proof.
  unfold secureCode, lines. rewrite PREAMBLE_ends_line, <- app_assoc.
  cbn [app]. rewrite lines_from_app_nl, lines_from_snoc_nl.
  fold (lines (removelast PREAMBLE)). now rewrite PREAMBLE_lines.
Qed.

(** Line [j + 1] of the candidate is line [j + 28] of the scratch file. *)
Lemma user_line_offset src (j : nat) l :
  lines src !! j = Some l -> lines (secureCode src) !! (27 + j)%nat = Some l.
Proof.
  intros H. rewrite secureCode_lines.
  rewrite lookup_app_r by (rewrite length_fmap; cbn; lia).
  rewrite length_fmap. change (length PREAMBLE_LINES) with 27%nat.
  replace (27 + j - 27)%nat with j by lia.
  rewrite lookup_app_l; [exact H|]. eapply lookup_lt_Some, H.
Qed.

(** ** The sandbox executor *)

Lemma settle_outcome p st :
  outcome (settle p st) = match outcome st with Pending => p | o => o end.
Proof. unfold settle. destruct (outcome st) eqn:E; cbn; congruence. Qed.

Lemma settle_world p st : host_world (settle p st) = host_world st.
Proof. unfold settle. now destruct (outcome st). Qed.

Lemma settle_tempFile p st : tempFile (settle p st) = tempFile st.
Proof. unfold settle. now destruct (outcome st). Qed.

Lemma settle_timer p st : timer (settle p st) = timer st.
Proof. unfold settle. now destruct (outcome st). Qed.

Lemma settle_listening p st : listening (settle p st) = listening st.
Proof. unfold settle. now destruct (outcome st). Qed.

Lemma remove_scratch_gone st :
  existsSync (tempFile st) (host_world (remove_scratch st)) = false.
Proof.
  unfold remove_scratch. cbn.
  destruct (existsSync (tempFile st) (host_world st)) eqn:E; [|exact E].
  unfold existsSync, unlinkSync. cbn. rewrite lookup_delete_eq.
  apply bool_decide_eq_false. intros [? ?]. discriminate.
Qed.

Lemma on_close_outcome code st :
  outcome (on_close code st) =
  match outcome st with
  | Pending =>
      if code_is code 0 then Resolved (output st)
      else if code_is code 137 || code_is code 9 then Rejected MSG_MEMORY
      else if code_is code 152 || code_is code 24 then Rejected MSG_CPU
      else Rejected (or_else (adjustedError (error st))
                       (lit "Process exited with code " ++ show_code code))
  | o => o
  end.
Proof.
  unfold on_close.
  destruct (code_is code 0); [|destruct (_ || _); [|destruct (_ || _)]];
    rewrite settle_outcome; cbn; now destruct (outcome st).
Qed.

Lemma on_close_world code st :
  host_world (on_close code st) = host_world (remove_scratch st)
  /\ tempFile (on_close code st) = tempFile st.
Proof.
  unfold on_close.
  destruct (code_is code 0); [|destruct (_ || _); [|destruct (_ || _)]];
    now rewrite settle_world, settle_tempFile.
Qed.

(** Only the first of [resolve] and [reject] counts. *)
Lemma handle_settled st e :
  outcome st <> Pending -> outcome (handle st e) = outcome st.
Proof.
  intros H. unfold handle. destruct (listening st); [|reflexivity].
  destruct e; cbn; try reflexivity.
  - rewrite on_close_outcome. now destruct (outcome st).
  - unfold on_timer. destruct (timer st); [|reflexivity].
    rewrite settle_outcome. cbn. now destruct (outcome st).
Qed.

Lemma run_settled evs : forall st,
  outcome st <> Pending -> outcome (fold_left handle evs st) = outcome st.
Proof.
  induction evs as [|e evs IH]; intros st H; cbn; [reflexivity|].
  rewrite IH; rewrite handle_settled; auto.
Qed.

(** Without listeners no event changes anything. *)
Lemma run_not_listening evs : forall st,
  listening st = false -> fold_left handle evs st = st.
Proof.
  induction evs as [|e evs IH]; intros st H; cbn; [reflexivity|].
  unfold handle at 2. rewrite H. now apply IH.
Qed.

(** The paths that do clean up: ['close'] and the watchdog. *)
Lemma close_removes_scratch st code :
  listening st = true ->
  let st' := handle st (Close code) in
  existsSync (tempFile st') (host_world st') = false.
Proof.
  intros H. cbn. unfold handle. rewrite H.
  destruct (on_close_world code st) as [-> ->]. apply remove_scratch_gone.
Qed.

Lemma watchdog_kills_and_rejects st ms :
  listening st = true -> timer st = Some ms -> outcome st = Pending ->
  let st' := handle st TimerFires in
  outcome st' = Rejected MSG_HARD_TIMEOUT
  /\ Kill (tempFile st) ∈ oslog (host_world st')
  /\ existsSync (tempFile st') (host_world st') = false.
Proof.
  intros Hl Ht Ho. cbn. unfold handle, on_timer. rewrite Hl, Ht.
  rewrite settle_outcome, settle_world, settle_tempFile. cbn.
  rewrite Ho. split; [reflexivity|]. split.
  - destruct (existsSync _ _); cbn; rewrite !elem_of_app, !list_elem_of_singleton; auto.
  - destruct (existsSync (tempFile st) (log_call _ (host_world st))) eqn:E;
      [|exact E].
    unfold existsSync, unlinkSync. cbn. rewrite lookup_delete_eq.
    apply bool_decide_eq_false. intros [? ?]. discriminate.
Qed.

Lemma not_known_code code :
  code ∉ known_codes ->
  code_is code 0 = false /\ code_is code 137 = false /\ code_is code 9 = false
  /\ code_is code 152 = false /\ code_is code 24 = false.
Proof.
  unfold known_codes. rewrite !not_elem_of_cons. intros (H0 & H1 & H2 & H3 & H4 & _).
  destruct code as [z|]; cbn; [|auto].
  repeat split; apply Z.eqb_neq; congruence.
Qed.

Lemma runtime_error_detail st code :
  listening st = true -> outcome st = Pending -> code ∉ known_codes ->
  outcome (handle st (Close code)) =
  Rejected (if truthy (error st) then adjust (error st)
            else lit "Process exited with code " ++ show_code code).
Proof.
  intros Hl Ho Hc. unfold handle. rewrite Hl, on_close_outcome, Ho.
  destruct (not_known_code _ Hc) as (-> & -> & -> & -> & ->). cbn [orb].
  f_equal. unfold adjustedError, or_else.
  destruct (truthy (error st)) eqn:E; [now rewrite adjust_truthy|now rewrite E].
Qed.

(** C6, as stated, fails: a child that exits with status 1 and writes
    nothing to stderr is rejected with the text [Process exited with code 1],
    not with the (empty) captured stderr. *)
Lemma C6_counterexample :
  let st := runPython quiet_host (lit "import sys; sys.exit(1)") []
              [Exit; Close (Some 1%Z)] empty_world in
  error st = []
  /\ outcome st = Rejected (lit "Process exited with code 1")
  /\ outcome st <> Rejected (error st).
Proof. vm_compute. repeat split; congruence. Qed.

(** C6 (amended): when ['close'] arrives while the call is still pending,
    status 0 resolves with the captured stdout; 137 and 9 reject with the
    memory message; 152 and 24 reject with the CPU-time message; any other
    status, [null] included, rejects with the captured stderr after the
    line-number rewrite, or with [Process exited with code <status>] when
    nothing was captured on stderr. *)
Theorem C6_close_classifies_exit_status st code :
  listening st = true -> outcome st = Pending ->
  let st' := handle st (Close code) in
  (code = Some 0%Z -> outcome st' = Resolved (output st))
  /\ (code = Some 137%Z \/ code = Some 9%Z ->
      outcome st' = Rejected (lit "Memory Limit Exceeded or Process Killed"))
  /\ (code = Some 152%Z \/ code = Some 24%Z ->
      outcome st' = Rejected (lit "CPU Time Limit Exceeded"))
  /\ (code ∉ known_codes ->
      outcome st' =
      Rejected (if truthy (error st) then adjust (error st)
                else lit "Process exited with code " ++ show_code code)).
Proof.
  intros Hl Ho. cbn zeta. repeat split.
  - intros ->. unfold handle. now rewrite Hl, on_close_outcome, Ho.
  - intros [-> | ->]; unfold handle; now rewrite Hl, on_close_outcome, Ho.
  - intros [-> | ->]; unfold handle; now rewrite Hl, on_close_outcome, Ho.
  - now apply runtime_error_detail.
Qed.

(** A run with output on both streams, closed with each kind of status. *)
Lemma C6_witness :
  let st := runPython quiet_host (lit "print(x)") []
              [StdoutData (lit "42"); StderrData (lit "NameError, line 28")]
              empty_world in
  (listening st = true /\ outcome st = Pending)
  /\ outcome (handle st (Close (Some 0%Z))) = Resolved (lit "42")
  /\ outcome (handle st (Close (Some 137%Z)))
     = Rejected (lit "Memory Limit Exceeded or Process Killed")
  /\ outcome (handle st (Close (Some 24%Z)))
     = Rejected (lit "CPU Time Limit Exceeded")
  /\ outcome (handle st (Close (Some 1%Z))) = Rejected (lit "NameError, line 1").
Proof.
  set (st := runPython _ _ _ _ _). cbn zeta.
  assert (Hl : listening st = true) by reflexivity.
  assert (Ho : outcome st = Pending) by reflexivity.
  split; [split; assumption|].
  split; [exact (proj1 (C6_close_classifies_exit_status st _ Hl Ho) eq_refl)|].
  split; [exact (proj1 (proj2 (C6_close_classifies_exit_status st _ Hl Ho))
                   (or_introl eq_refl))|].
  split; [exact (proj1 (proj2 (proj2 (C6_close_classifies_exit_status st _ Hl Ho)))
                   (or_intror eq_refl))|].
  rewrite (proj2 (proj2 (proj2 (C6_close_classifies_exit_status st (Some 1%Z) Hl Ho)))).
  - vm_compute. reflexivity.
  - unfold known_codes. rewrite !not_elem_of_cons.
    repeat split; try discriminate. apply not_elem_of_nil.
Defined.



(** The watchdog is set to 3000 ms, above the 2 s of CPU time that the
    preamble allows. *)
Lemma hard_timeout_above_cpu_cap :
  HARD_TIMEOUT_MS = 3000%N
  /\ "    resource.setrlimit(resource.RLIMIT_CPU, (2, 2))"%string ∈ PREAMBLE_LINES
  /\ (2 * 1000 < HARD_TIMEOUT_MS)%N.
Proof.
  split; [reflexivity|]. split; [|reflexivity].
  unfold PREAMBLE_LINES. rewrite !elem_of_cons. tauto.
Qed.

Lemma start_spawned h code input w0 :
  writeFileSync_throws h = None -> spawn_throws h = None ->
  let st := start h code input w0 in
  listening st = true /\ timer st = Some HARD_TIMEOUT_MS
  /\ outcome st = Pending /\ tempFile st = scratch_name h.
Proof. intros Hw Hs. unfold start. rewrite Hw, Hs. repeat split. Qed.

(** While the child only writes, the call stays pending with the watchdog
    armed and the scratch file in place. *)
Lemma data_keeps_pending evs : forall st,
  forallb is_data evs = true ->
  let st' := fold_left handle evs st in
  listening st' = listening st /\ timer st' = timer st
  /\ outcome st' = outcome st /\ tempFile st' = tempFile st
  /\ host_world st' = host_world st.
Proof.
  induction evs as [|e evs IH]; intros st Hev; cbn; [auto 6|].
  cbn in Hev. apply andb_prop in Hev as [He Hev].
  destruct (IH (handle st e) Hev) as (-> & -> & -> & -> & ->).
  unfold handle. destruct (listening st) eqn:Hl; [|auto 6].
  destruct e; try discriminate; cbn; auto 6.
Qed.

(** A child that has not exited when the three seconds are over, whatever
    it has written and whatever it did to its own limits: the watchdog
    sends SIGKILL, removes the scratch file and rejects with the
    hard-timeout message. *)
Lemma hard_timeout_decides h code input evs w0 :
  writeFileSync_throws h = None -> spawn_throws h = None ->
  forallb is_data evs = true ->
  let st := runPython h code input (evs ++ [TimerFires]) w0 in
  outcome st = Rejected (lit "Time Limit Exceeded (Hard Timeout)")
  /\ Kill (scratch_name h) ∈ oslog (host_world st)
  /\ existsSync (tempFile st) (host_world st) = false.
Proof.
  intros Hw Hs Hev. cbn zeta. unfold runPython. rewrite fold_left_app.
  destruct (data_keeps_pending evs (start h code input w0) Hev)
    as (Hl & Ht & Ho & Hf & _). cbn zeta in *.
  destruct (start_spawned h code input w0 Hw Hs) as (Hl0 & Ht0 & Ho0 & Hf0).
  cbn [fold_left]. rewrite <- Hf0, <- Hf.
  apply (watchdog_kills_and_rejects _ HARD_TIMEOUT_MS).
  - now rewrite Hl.
  - now rewrite Ht.
  - now rewrite Ho.
Qed.

(** After ['exit'] the watchdog is gone; until ['close'] arrives nothing
    settles the call and nothing removes the scratch file. *)
Lemma exit_disarms_watchdog evs : forall st,
  timer st = None -> outcome st = Pending ->
  forallb (fun e => negb (is_close e)) evs = true ->
  let st' := fold_left handle evs st in
  outcome st' = Pending /\ timer st' = None
  /\ host_world st' = host_world st.
Proof.
  induction evs as [|e evs IH]; intros st Ht Ho Hev; cbn; [auto|].
  cbn in Hev. apply andb_prop in Hev as [He Hev].
  assert (H : outcome (handle st e) = Pending /\ timer (handle st e) = None
              /\ host_world (handle st e) = host_world st).
  { unfold handle. destruct (listening st); [|auto].
    destruct e; cbn; auto; [discriminate|].
    unfold on_timer. rewrite Ht. auto. }
  destruct H as (Ho' & Ht' & Hw').
  destruct (IH (handle st e) Ht' Ho' Hev) as (? & ? & Hw). cbn in Hw.
  rewrite Hw, Hw'. auto.
Qed.

(** C8 at the failing run: the child writes, exits at once, and a
    descendant keeps its stdout open, so that ['close'] does not arrive.
    ['exit'] has cleared the watchdog: when the three seconds are over
    nothing fires, no kill is sent, the call is still pending and the
    scratch file is still there. *)
Theorem C8_exit_without_close_never_settles :
  let st := runPython quiet_host
              (lit "import os, time" ++ [NL]
               ++ lit "if os.fork() == 0: time.sleep(10**6)") []
              [StdoutData (lit "hi"); Exit; TimerFires] empty_world in
  outcome st = Pending
  /\ timer st = None
  /\ (Kill (tempFile st) ∉ oslog (host_world st))
  /\ existsSync (tempFile st) (host_world st) = true.
Proof.
  cbn zeta. split; [reflexivity|]. split; [reflexivity|]. split.
  - rewrite list_elem_of_In. vm_compute. intuition discriminate.
  - vm_compute. reflexivity.
Qed.

(** C9 at the failing run: [spawn] throws after the scratch file has been
    written.  The promise is rejected with the spawn error, no listener and
    no timer exist, and the file stays, whatever happens afterwards. *)
Theorem C9_spawn_failure_leaves_scratch_file code input evs :
  let st := runPython failing_spawn_host code input evs empty_world in
  outcome st = Rejected (lit "spawn ENOMEM")
  /\ fs (host_world st) !! tempFile st = Some (secureCode code)
  /\ existsSync (tempFile st) (host_world st) = true
  /\ oslog (host_world st) = [WriteFile (tempFile st) (secureCode code)].
Proof.
  cbn zeta. unfold runPython. rewrite run_not_listening by reflexivity.
  unfold start, existsSync, writeFileSync.
  cbn [failing_spawn_host writeFileSync_throws spawn_throws scratch_name
       outcome host_world tempFile fs oslog empty_world app].
  rewrite lookup_insert_eq. repeat split.
Qed.

(** ** The execute endpoint *)

Lemma str_eqb_eq a b : str_eqb a b = true <-> a = b.
Proof. unfold str_eqb. apply bool_decide_eq_true. Qed.

Lemma str_eqb_neq a b : str_eqb a b = false <-> a <> b.
Proof. unfold str_eqb. apply bool_decide_eq_false. Qed.

Lemma verdict_resolved tc out :
  verdict tc {| r_input := input tc; r_expectedOutput := expectedOutput tc;
                r_actualOutput := Some out; r_error := None;
                passed := str_eqb (trim out) (trim (expectedOutput tc)) |}.
Proof.
  unfold verdict. cbn. repeat split; try discriminate.
  - intros H. apply str_eqb_eq in H. eauto.
  - intros (o & [= <-] & _ & H). now apply str_eqb_eq.
Qed.

Lemma verdict_rejected tc msg :
  verdict tc {| r_input := input tc; r_expectedOutput := expectedOutput tc;
                r_actualOutput := None; r_error := Some msg; passed := false |}.
Proof.
  unfold verdict. cbn. repeat split; try discriminate.
  intros (o & [=] & _).
Qed.

Lemma verdict_mock tc :
  verdict tc {| r_input := input tc; r_expectedOutput := expectedOutput tc;
                r_actualOutput := Some (expectedOutput tc); r_error := None;
                passed := true |}.
Proof.
  unfold verdict. cbn. repeat split; try discriminate. eauto.
Qed.

Lemma for_testCases_python env code tcs : forall acc s,
  match for_testCases env code (lit "python") tcs acc s with
  | (Some rs, _) =>
      exists new, rs = acc ++ new /\ Forall2 verdict tcs new
                  /\ Forall2 reports (sandbox_outcomes env code tcs s) new
  | (None, _) => Pending ∈ sandbox_outcomes env code tcs s
  end.
Proof.
  induction tcs as [|tc tcs IH]; intros acc s.
  - cbn. exists []. rewrite app_nil_r. repeat split; constructor.
  - cbn [for_testCases sandbox_outcomes].
    replace (str_eqb (lit "python") (lit "python")) with true by reflexivity.
    destruct (env (launched s)) as [h evs].
    set (st := runPython h code (input tc) evs (sworld s)).
    destruct (outcome st) as [|out|msg] eqn:Ho.
    + apply list_elem_of_here.
    + match goal with |- context [for_testCases _ _ _ _ ?a ?s'] =>
        specialize (IH a s'); destruct (for_testCases env code _ tcs a s') as [[rs|] s'']
      end.
      * destruct IH as (new & -> & Hv & Hr). eexists (_ :: new).
        rewrite <- app_assoc. split; [reflexivity|].
        split; constructor; auto using verdict_resolved. now cbn.
      * now apply list_elem_of_further.
    + match goal with |- context [for_testCases _ _ _ _ ?a ?s'] =>
        specialize (IH a s'); destruct (for_testCases env code _ tcs a s') as [[rs|] s'']
      end.
      * destruct IH as (new & -> & Hv & Hr). eexists (_ :: new).
        rewrite <- app_assoc. split; [reflexivity|].
        split; constructor; auto using verdict_rejected. now cbn.
      * now apply list_elem_of_further.
Qed.

Lemma for_testCases_mock env code language tcs : forall acc s,
  language <> lit "python" ->
  exists new, for_testCases env code language tcs acc s = (Some (acc ++ new), s)
              /\ Forall2 verdict tcs new
              /\ Forall (fun r => passed r = true) new.
Proof.
  induction tcs as [|tc tcs IH]; intros acc s Hl.
  - exists []. cbn. rewrite app_nil_r. repeat split; constructor.
  - cbn [for_testCases]. apply str_eqb_neq in Hl as Hb. rewrite Hb.
    destruct (IH (acc ++ [ {| r_input := input tc;
                              r_expectedOutput := expectedOutput tc;
                              r_actualOutput := Some (expectedOutput tc);
                              r_error := None; passed := true |} ]) s Hl)
      as (new & -> & Hv & Hp).
    eexists (_ :: new). rewrite <- app_assoc. split; [reflexivity|].
    split; constructor; auto using verdict_mock.
Qed.

Lemma supported_iff language : supported language = true <-> language ∈ SUPPORTED.
Proof.
  unfold supported, SUPPORTED. rewrite !orb_true_iff, !str_eqb_eq, !elem_of_cons.
  pose proof (not_elem_of_nil language). tauto.
Qed.

Lemma post_execute_gate env req s :
  post_execute env req s =
  if supported (req_language req) then
    match for_testCases env (req_code req) (req_language req)
            (req_testCases req) [] s with
    | (Some results, s') => (Json results, s')
    | (None, s') => (NoResponse, s')
    end
  else (Status400 (lit "Unsupported language."), s).
Proof.
  unfold post_execute, supported.
  destruct (str_eqb (req_language req) (lit "python")),
           (str_eqb (req_language req) (lit "cpp")),
           (str_eqb (req_language req) (lit "java")); reflexivity.
Qed.

(** C4: a request whose language is none of [python], [cpp], [java] is
    answered with status 400 and [Unsupported language.] while the server
    is left as it was: no file written, no process spawned, no sandbox call
    made.  A request in a supported language is never answered that way. *)
Theorem C4_unsupported_language_rejected_first env req s :
  (req_language req ∉ SUPPORTED ->
   post_execute env req s = (Status400 (lit "Unsupported language."), s))
  /\ (req_language req ∈ SUPPORTED ->
      forall err, (post_execute env req s).1 <> Status400 err).
Proof.
  rewrite post_execute_gate. split; intros H.
  - destruct (supported (req_language req)) eqn:E; [|reflexivity].
    apply supported_iff in E. contradiction.
  - apply supported_iff in H. rewrite H. intros err.
    destruct (for_testCases _ _ _ _ _ _) as [[rs|] s']; discriminate.
Qed.

(** A request in Rust and a request in Python. *)
Lemma C4_witness :
  (let req := {| req_code := lit "fn main() {}"; req_language := lit "rust";
                 req_testCases := three_vectors |} in
   (req_language req ∉ SUPPORTED)
   /\ post_execute three_runs req fresh_server
      = (Status400 (lit "Unsupported language."), fresh_server))
  /\ (let req := {| req_code := lit "print(5)"; req_language := lit "python";
                    req_testCases := three_vectors |} in
      req_language req ∈ SUPPORTED
      /\ forall err, (post_execute three_runs req fresh_server).1 <> Status400 err).
Proof.
  split; cbn zeta.
  - assert (H : lit "rust" ∉ SUPPORTED).
    { intros H. apply supported_iff in H. discriminate. }
    split; [exact H|].
    exact (proj1 (C4_unsupported_language_rejected_first three_runs
                    {| req_code := lit "fn main() {}"; req_language := lit "rust";
                       req_testCases := three_vectors |} fresh_server) H).
  - assert (H : lit "python" ∈ SUPPORTED) by (now apply supported_iff).
    split; [exact H|].
    exact (proj2 (C4_unsupported_language_rejected_first three_runs
                    {| req_code := lit "print(5)"; req_language := lit "python";
                       req_testCases := three_vectors |} fresh_server) H).
Defined.



(** ** The agent pipeline *)

(** *** Stepping through monadic code *)

Lemma bind_val {A B} (m : M A) (k : A -> M B) s a s' :
  m s = (Val a, s') -> (m ≫= k) s = k a s'.
Proof. intros E. unfold mbind, agent_bind. now rewrite E. Qed.

Lemma bind_exn {A B} (m : M A) (k : A -> M B) s msg s' :
  m s = (Exn msg, s') -> (m ≫= k) s = (Exn msg, s').
Proof. intros E. unfold mbind, agent_bind. now rewrite E. Qed.

Lemma quiet_update f :
  (forall u, code (f u) = code u) ->
  (forall u, testResults (f u) = testResults u) ->
  quiet (update f).
Proof. intros Hc Ht s. eexists. split; [reflexivity|]. cbn. auto. Qed.

Lemma quiet_setStep x : quiet (setStep x).
Proof. now apply quiet_update. Qed.

Lemma quiet_setLogs x : quiet (setLogs x).
Proof. now apply quiet_update. Qed.

Lemma quiet_addLog msg t : quiet (addLog msg t).
Proof. now apply quiet_update. Qed.

Lemma quiet_setAnalysis x : quiet (setAnalysis x).
Proof. now apply quiet_update. Qed.

Lemma quiet_setGeneratedTests x : quiet (setGeneratedTests x).
Proof. now apply quiet_update. Qed.

Lemma quiet_setShowTestLibrary x : quiet (setShowTestLibrary x).
Proof. now apply quiet_update. Qed.

Lemma quiet_setAllTests x : quiet (setAllTests x).
Proof. now apply quiet_update. Qed.

Lemma quiet_setTelemetryTab x : quiet (setTelemetryTab x).
Proof. now apply quiet_update. Qed.

Lemma quiet_mret : quiet (mret tt).
Proof. intros s. now exists s. Qed.

Lemma quiet_log_reasoning {T} (r : AIResponse T) : quiet (log_reasoning r).
Proof.
  unfold log_reasoning. destruct (reasoning r) as [why|];
    [destruct (truthy why)|]; auto using quiet_addLog, quiet_mret.
Qed.

Lemma quiet_seq m1 m2 : quiet m1 -> quiet m2 -> quiet (m1;; m2).
Proof.
  intros H1 H2 s. destruct (H1 s) as (s1 & E1 & ? & ? & ?).
  destruct (H2 s1) as (s2 & E2 & ? & ? & ?).
  exists s2. rewrite (bind_val _ _ _ _ _ E1). repeat split; congruence.
Qed.

Create HintDb quiet.
#[local] Hint Resolve quiet_setStep quiet_setLogs quiet_addLog quiet_setAnalysis
  quiet_setGeneratedTests quiet_setShowTestLibrary quiet_setAllTests
  quiet_setTelemetryTab quiet_mret quiet_log_reasoning quiet_seq : quiet.

Lemma setCode_run x s :
  exists s', setCode x s = (Val tt, s') /\ calls s' = calls s
             /\ code (ui s') = x /\ testResults (ui s') = testResults (ui s).
Proof. eexists. split; [reflexivity|]. cbn. auto. Qed.

Lemma setTestResults_run x s :
  exists s', setTestResults x s = (Val tt, s') /\ calls s' = calls s
             /\ code (ui s') = code (ui s) /\ testResults (ui s') = x.
Proof. eexists. split; [reflexivity|]. cbn. auto. Qed.

Lemma await_returns {A} (c : reply A -> call) (r : reply A) v s :
  r = Returns v ->
  exists s', await c r s = (Val v, s') /\ calls s' = calls s ++ [c (Returns v)]
             /\ code (ui s') = code (ui s)
             /\ testResults (ui s') = testResults (ui s).
Proof. intros ->. eexists. split; [reflexivity|]. cbn. auto. Qed.

Lemma await_throws {A} (c : reply A -> call) (r : reply A) msg s :
  r = Throws msg ->
  exists s', await c r s = (Exn msg, s') /\ calls s' = calls s ++ [c (Throws msg)]
             /\ code (ui s') = code (ui s)
             /\ testResults (ui s') = testResults (ui s).
Proof. intros ->. eexists. split; [reflexivity|]. cbn. auto. Qed.

(** One step of a run: name the state after the first action and keep what
    is known about it. *)
Ltac quiet_step :=
  match goal with
  | |- context [ (?m ≫= ?k) ?s ] =>
      let Hq := fresh "Hq" in
      let s' := fresh "s" in
      let E := fresh "E" in
      assert (Hq : quiet m) by auto with quiet;
      destruct (Hq s) as (s' & E & ? & ? & ?); clear Hq;
      rewrite (bind_val m k s tt s' E); clear E
  end.

Ltac step_with lem :=
  match goal with
  | |- context [ (?m ≫= ?k) ?s ] =>
      let s' := fresh "s" in
      let E := fresh "E" in
      destruct lem as (s' & E & ? & ? & ?);
      first [ rewrite (bind_val m k s _ s' E)
            | rewrite (bind_exn m k s _ s' E) ]; clear E
  end.

Arguments lit : simpl never.
Arguments dec : simpl never.
Arguments decZ : simpl never.
Arguments show_nat : simpl never.
Arguments trim : simpl never.
Arguments blank : simpl never.
Arguments failures : simpl never.
Arguments consider : simpl never.

Lemma consider_keeps v results :
  iterations (consider v results) = iterations v
  /\ allPassed (consider v results) = allPassed v
  /\ currentCode (consider v results) = currentCode v.
Proof. unfold consider. destruct (_ <? _)%Z; auto. Qed.

Ltac calls_chain :=
  repeat match goal with
         | H : calls _ = _ |- _ => rewrite H; clear H
         end;
  rewrite <- ?app_assoc; reflexivity.

Lemma cycle_sound C i tests v s :
  cycle_step C i tests v s (cycle C i tests v s).1 (cycle C i tests v s).2.
Proof.
  unfold cycle. quiet_step.
  destruct (fetch_execute C _ _ _ _) as [results|msg] eqn:Hf.
  2:{ step_with (await_throws (Execute (currentCode v) tests) _ msg s0 eq_refl).
      unfold mret, agent_ret; cbn [fst snd]. eapply cycle_fetch_throws; eauto; congruence. }
  step_with (await_returns (Execute (currentCode v) tests) _ results s0 eq_refl).
  step_with (setTestResults_run results s1).
  destruct (consider_keeps v results) as (Hi & Ha & Hc).
  fold (failures results). rewrite Ha, Hc.
  destruct (length (failures results) =? 0) eqn:Hlen.
  { apply Nat.eqb_eq, nil_length_inv in Hlen.
    do 2 quiet_step. unfold mret, agent_ret; cbn [fst snd].
    eapply cycle_all_passed; eauto; congruence. }
  assert (Hfail : failures results <> []).
  { intros E. rewrite E in Hlen. discriminate. }
  do 3 quiet_step.
  destruct (S (iterations v) <? MAX_ITERATIONS) eqn:Hlt.
  2:{ unfold mret, agent_ret; cbn [fst snd]. apply Nat.ltb_ge in Hlt.
      eapply cycle_budget_spent; eauto; congruence. }
  apply Nat.ltb_lt in Hlt.
  destruct (debugAndRepair C _ _ _ _ _) as [r|msg] eqn:Hr.
  2:{ step_with (await_throws (Repair (currentCode v) (failures results)) _ msg s5 eq_refl).
      unfold mret, agent_ret; cbn [fst snd]. eapply cycle_repair_throws; eauto.
      - calls_chain.
      - congruence.
      - congruence. }
  step_with (await_returns (Repair (currentCode v) (failures results)) _ r s5 eq_refl).
  destruct (blank (data r)) eqn:Hb.
  { unfold throw; cbn [fst snd]. eapply cycle_repair_blank; eauto.
    - calls_chain.
    - congruence.
    - congruence. }
  quiet_step. step_with (setCode_run (data r) s7). quiet_step.
  unfold mret, agent_ret; cbn [fst snd]. eapply cycle_repaired; eauto.
  - calls_chain.
  - congruence.
  - congruence.
Qed.

(** *** The loop *)

Lemma while_loop_unfold fuel C i tests v :
  while_loop fuel C i tests v =
  if negb (allPassed v) && (iterations v <? MAX_ITERATIONS) then
    match fuel with
    | O => fun s => (OutOfFuel, s)
    | S fuel' => v' ← cycle C i tests v; while_loop fuel' C i tests v'
    end
  else mret v.
Proof. destruct fuel; reflexivity. Qed.

Lemma cycle_step_iterations C i tests v s v' s' :
  cycle_step C i tests v s (Val v') s' -> iterations v' = S (iterations v).
Proof. inversion 1; reflexivity. Qed.

(** With fuel for the remaining budget the loop function follows the
    relation; in particular it never runs out of fuel. *)
Lemma while_loop_sound C i tests fuel : forall v s,
  MAX_ITERATIONS <= fuel + iterations v ->
  loop_steps C i tests v s (while_loop fuel C i tests v s).1
    (while_loop fuel C i tests v s).2.
Proof.
  induction fuel as [|fuel IH]; intros v s Hfuel; rewrite while_loop_unfold.
  - destruct (allPassed v) eqn:Ha; cbn [negb andb].
    + apply loop_done. auto.
    + destruct (Nat.ltb_spec (iterations v) MAX_ITERATIONS); [lia|].
      apply loop_done. auto.
  - destruct (allPassed v) eqn:Ha; cbn [negb andb].
    + apply loop_done. auto.
    + destruct (Nat.ltb_spec (iterations v) MAX_ITERATIONS) as [Hlt|Hge].
      2:{ apply loop_done. auto. }
      pose proof (cycle_sound C i tests v s) as Hc.
      destruct (cycle C i tests v s) as [[v1|msg|] s1] eqn:E; cbn [fst snd] in Hc.
      * rewrite (bind_val _ _ _ _ _ E).
        eapply loop_more; eauto. apply IH.
        apply cycle_step_iterations in Hc. lia.
      * rewrite (bind_exn _ _ _ _ _ E). cbn [fst snd].
        eapply loop_abort; eauto.
      * inversion Hc.
Qed.

Lemma loop_steps_total C i tests v s r s' :
  loop_steps C i tests v s r s' -> r <> OutOfFuel.
Proof. induction 1; auto; discriminate. Qed.

Lemma cycle_step_calls C i tests v s r s' :
  cycle_step C i tests v s r s' ->
  exists new, calls s' = calls s ++ new /\ executed new = 1.
Proof. inversion 1; subst; eexists; split; eauto. Qed.

Lemma executed_app a b : executed (a ++ b) = executed a + executed b.
Proof. unfold executed. now rewrite List.filter_app, length_app. Qed.

Lemma loop_steps_executed C i tests v s r s' :
  loop_steps C i tests v s r s' ->
  exists new, calls s' = calls s ++ new
              /\ executed new + iterations v <= Nat.max MAX_ITERATIONS (iterations v).
Proof.
  induction 1 as [v s _|v s msg s' _ Hlt Hc|v s v1 s1 r s' _ Hlt Hc _ IH].
  - exists []. rewrite app_nil_r. split; [reflexivity|]. cbn. lia.
  - destruct (cycle_step_calls _ _ _ _ _ _ _ Hc) as (new & E & Hn).
    exists new. split; [exact E|]. lia.
  - destruct (cycle_step_calls _ _ _ _ _ _ _ Hc) as (new1 & E1 & Hn1).
    destruct IH as (new & E & Hn).
    apply cycle_step_iterations in Hc.
    exists (new1 ++ new). rewrite E, E1, <- app_assoc. split; [reflexivity|].
    rewrite executed_app. lia.
Qed.

(** *** The stages of a run *)

Lemma analyze_and_generate_run C i s :
  exists r s' setup,
    analyze_and_generate C i s = (r, s')
    /\ calls s' = calls s ++ setup /\ Forall is_setup setup
    /\ match r with
       | Val (code0, _) => code (ui s') = code0
       | Exn _ => True
       | OutOfFuel => False
       end.
Proof.
  unfold analyze_and_generate. quiet_step.
  destruct (analyzeProblem C (problem i) (proMode i)) as [a|msg] eqn:Ha.
  2:{ step_with (await_throws Analyze _ msg s0 eq_refl).
      do 3 eexists. split; [reflexivity|]. split; [calls_chain|].
      split; [|exact I]. repeat constructor. }
  step_with (await_returns Analyze _ a s0 eq_refl).
  do 6 quiet_step.
  destruct (generateInitialCode C (data a) (language i) (proMode i))
    as [g|msg] eqn:Hg.
  2:{ step_with (await_throws Generate _ msg s7 eq_refl).
      do 3 eexists. split; [reflexivity|]. split; [calls_chain|].
      split; [|exact I]. repeat constructor. }
  step_with (await_returns Generate _ g s7 eq_refl).
  quiet_step. step_with (setCode_run (data g) s9). do 3 quiet_step.
  destruct (generateTestCases C (problem i) (data a) (data g)) as [t|msg] eqn:Ht.
  2:{ step_with (await_throws GenerateTests _ msg s13 eq_refl).
      do 3 eexists. split; [reflexivity|]. split; [calls_chain|].
      split; [|exact I]. repeat constructor. }
  step_with (await_returns GenerateTests _ t s13 eq_refl).
  do 4 quiet_step.
  do 3 eexists. split; [reflexivity|]. split; [calls_chain|].
  split; [repeat constructor|]. congruence.
Qed.

Lemma test_and_repair_run C i tests code0 s :
  let r := test_and_repair C i tests code0 s in
  exists r1 s1,
    loop_steps C i tests (initial_vars code0) s r1 s1
    /\ match r1 with
       | Val v =>
           calls r.2 = calls s1
           /\ if allPassed v then
                r.1 = Val (currentCode v)
                /\ code (ui r.2) = code (ui s1)
                /\ testResults (ui r.2) = testResults (ui s1)
              else
                r.1 = Val (bestCode v)
                /\ code (ui r.2) = bestCode v
                /\ testResults (ui r.2) = bestTestResults v
       | Exn msg => r = (Exn msg, s1)
       | OutOfFuel => False
       end.
Proof.
  cbn zeta. unfold test_and_repair. fold (initial_vars code0).
  assert (Hfuel : MAX_ITERATIONS <= MAX_ITERATIONS + iterations (initial_vars code0))
    by lia.
  pose proof (while_loop_sound C i tests MAX_ITERATIONS (initial_vars code0) s
                Hfuel) as Hl.
  destruct (while_loop MAX_ITERATIONS C i tests (initial_vars code0) s)
    as [[v|msg|] s1] eqn:E; cbn [fst snd] in Hl.
  - exists (Val v), s1. split; [exact Hl|].
    rewrite (bind_val _ _ _ _ _ E).
    destruct (allPassed v); cbn [negb].
    + unfold mret, agent_ret. cbn. auto.
    + quiet_step. step_with (setCode_run (bestCode v) s0).
      step_with (setTestResults_run (bestTestResults v) s2).
      unfold mret, agent_ret. cbn [fst snd].
      split; [calls_chain|]. repeat split; congruence.
  - exists (Exn msg), s1. split; [exact Hl|]. now rewrite (bind_exn _ _ _ _ _ E).
  - now apply loop_steps_total in Hl.
Qed.

Lemma verify_sound C i s :
  verify_run C i s (verify C i s).1 (verify C i s).2.
Proof.
  unfold verify.
  destruct (analyze_and_generate_run C i s) as (r & s0 & setup & E & Hc & Hs & Hr).
  destruct r as [[code0 tests]|msg|]; [| |contradiction].
  2:{ rewrite (bind_exn _ _ _ _ _ E). cbn [fst snd].
      eapply verify_setup_fails; eauto. }
  rewrite (bind_val _ _ _ _ _ E).
  destruct (test_and_repair_run C i tests code0 s0) as (r1 & s1 & Hl & H).
  destruct r1 as [v|msg|]; [| |contradiction].
  - destruct H as [Hcalls H]. destruct (allPassed v) eqn:Ha.
    + destruct H as (-> & ? & ?). eapply verify_all_passed; eauto.
    + destruct H as (-> & ? & ?). eapply verify_best_effort; eauto.
  - rewrite H. cbn [fst snd]. eapply verify_loop_aborts; eauto.
Qed.

(** For straight-line code without calls: run it by computation. *)
Ltac run_agent :=
  unfold mbind, agent_bind, mret, agent_ret, update,
    setStep, setLogs, addLog, setCode; cbn.

Lemma on_error_run msg s : failed_with msg s (on_error msg s).2.
Proof.
  unfold failed_with, on_error. run_agent.
  repeat split. now rewrite last_snoc.
Qed.

Lemma prologue_quiet i : quiet (prologue i).
Proof. unfold prologue. auto 10 with quiet. Qed.

Lemma optimize_run C i cur s :
  let r := optimize C i cur s in
  testResults (ui r.2) = testResults (ui s)
  /\ match optimizeCode C (problem i) cur (proMode i) with
     | Throws msg =>
         r.1 = Exn msg /\ calls r.2 = calls s ++ [Optimize cur (Throws msg)]
         /\ code (ui r.2) = code (ui s)
     | Returns a =>
         r.1 = Val tt /\ calls r.2 = calls s ++ [Optimize cur (Returns a)]
         /\ code (ui r.2) = data a /\ step (ui r.2) = completed
     end.
Proof.
  cbn zeta. unfold optimize. do 2 quiet_step.
  destruct (optimizeCode C (problem i) cur (proMode i)) as [a|msg] eqn:Ho.
  2:{ step_with (await_throws (Optimize cur) _ msg s1 eq_refl).
      cbn [fst snd]. split; [congruence|]. split; [reflexivity|].
      split; [calls_chain|congruence]. }
  step_with (await_returns (Optimize cur) _ a s1 eq_refl).
  quiet_step. step_with (setCode_run (data a) s3).
  run_agent. split; [congruence|]. split; [reflexivity|].
  split; [calls_chain|]. auto.
Qed.

Lemma runAgent_sound C i s : agent_run C i s (runAgent C i s).
Proof.
  unfold runAgent. destruct (truthy (trim (problem i))) eqn:Hp; cbn [negb].
  2:{ now apply run_ignored. }
  destruct (prologue_quiet i s) as (s0 & E0 & Hc0 & _ & _).
  rewrite (bind_val _ _ _ _ _ E0). unfold pipeline.
  pose proof (verify_sound C i s0) as Hv.
  destruct (verify C i s0) as [[cur|msg|] s1] eqn:Ev; cbn [fst snd] in Hv.
  - rewrite (bind_val _ _ _ _ _ Ev).
    pose proof (optimize_run C i cur s1) as Ho. cbn zeta in Ho.
    destruct Ho as [Ht Ho].
    destruct (optimizeCode C (problem i) cur (proMode i)) as [a|msg] eqn:Eo.
    + destruct Ho as (Hr & Hcalls & Hcode & Hstep).
      destruct (optimize C i cur s1) as [r s2]. cbn [fst snd] in *. subst r.
      eapply run_completed; eauto.
    + destruct Ho as (Hr & Hcalls & Hcode).
      destruct (optimize C i cur s1) as [r s2]. cbn [fst snd] in *. subst r.
      eapply run_optimize_fails; eauto. apply on_error_run.
  - rewrite (bind_exn _ _ _ _ _ Ev).
    eapply run_verify_fails; eauto. apply on_error_run.
  - inversion Hv.
Qed.

(** *** C1: the iteration budget *)

Lemma executed_setup setup : Forall is_setup setup -> executed setup = 0.
Proof.
  induction 1 as [|c l Hc _ IH]; [reflexivity|].
  unfold executed in *. destruct c; cbn in *; try contradiction; exact IH.
Qed.

Lemma executions_le_executed cs : length (executions cs) <= executed cs.
Proof.
  unfold executions, executed. induction cs as [|c cs IH]; [reflexivity|].
  destruct c as [| | |? ? [?|?]| |]; cbn; lia.
Qed.

Lemma verify_run_executed C i s r s1 :
  verify_run C i s r s1 ->
  exists new, calls s1 = calls s ++ new /\ executed new <= MAX_ITERATIONS.
Proof.
  assert (Hloop : forall code0 tests s0 r1 s1 setup,
             calls s0 = calls s ++ setup -> Forall is_setup setup ->
             loop_steps C i tests (initial_vars code0) s0 r1 s1 ->
             exists new, calls s1 = calls s ++ new /\ executed new <= MAX_ITERATIONS).
  { intros code0 tests s0 r1 s1' setup E Hs Hl.
    destruct (loop_steps_executed _ _ _ _ _ _ _ Hl) as (new & E1 & Hn).
    exists (setup ++ new). rewrite E1, E, <- app_assoc. split; [reflexivity|].
    rewrite executed_app, executed_setup by assumption.
    change (iterations (initial_vars code0)) with 0 in Hn. lia. }
  inversion 1; subst.
  - exists setup. split; [assumption|]. rewrite executed_setup by assumption. lia.
  - eauto.
  - destruct (Hloop _ _ _ _ _ _ H0 H1 H3) as (new & E & Hn).
    exists new. split; [congruence|assumption].
  - destruct (Hloop _ _ _ _ _ _ H0 H1 H3) as (new & E & Hn).
    exists new. split; [congruence|assumption].
Qed.

Lemma agent_run_executed C i s s' :
  agent_run C i s s' ->
  exists new, calls s' = calls s ++ new /\ executed new <= MAX_ITERATIONS.
Proof.
  inversion 1 as [Hp|s0 msg s1 s'' Hp E0 Hv Hf|s0 cur s1 msg s2 s'' Hp E0 Hv Ho E2 _ _ Hf
                 |s0 cur s1 a s'' Hp E0 Hv Ho E2 _ _ _]; subst.
  - exists []. rewrite app_nil_r. split; [reflexivity|]. cbn. lia.
  - destruct (verify_run_executed _ _ _ _ _ Hv) as (new & E & Hn).
    destruct Hf as (_ & _ & Ec & _). exists new. split; [congruence|assumption].
  - destruct (verify_run_executed _ _ _ _ _ Hv) as (new & E & Hn).
    destruct Hf as (_ & _ & Ec & _).
    exists (new ++ [Optimize cur (Throws msg)]).
    rewrite Ec, E2, E, E0, <- app_assoc. split; [reflexivity|].
    rewrite executed_app. cbn. lia.
  - destruct (verify_run_executed _ _ _ _ _ Hv) as (new & E & Hn).
    exists (new ++ [Optimize cur (Returns a)]).
    rewrite E2, E, E0, <- app_assoc. split; [reflexivity|].
    rewrite executed_app. cbn. lia.
Qed.

(** C1: whatever the collaborators answer, a run of [runAgent] posts the
    test-vector set to the execute endpoint at most [MAX_ITERATIONS] = 5
    times, and so receives at most 5 result sets. *)
Theorem C1_at_most_five_executions C i s :
  MAX_ITERATIONS = 5
  /\ exists new,
       calls (runAgent C i s) = calls s ++ new
       /\ executed new <= 5
       /\ length (executions new) <= 5.
Proof.
  split; [reflexivity|].
  destruct (agent_run_executed _ _ _ _ (runAgent_sound C i s)) as (new & E & Hn).
  exists new. split; [exact E|]. change MAX_ITERATIONS with 5 in Hn.
  split; [exact Hn|]. pose proof (executions_le_executed new). lia.
Qed.

(** The bound is reached: five failing cycles are five executions. *)
Example five_executions_happen :
  executed (calls (runAgent (scripted [3; 1; 4; 4; 2] good_repair good_optimize)
                     user_inputs idle_agent)) = 5.
Proof. vm_compute. reflexivity. Qed.

(** *** C3: a blank repair *)

Lemma trimStart_nil s :
  trimStart s = [] <-> Forall (fun c => is_js_space c = true) s.
Proof.
  induction s as [|c t IH]; cbn.
  - split; auto.
  - destruct (is_js_space c) eqn:Hc.
    + rewrite IH. split; [now constructor|now inversion 1].
    + split; [discriminate|]. inversion 1. congruence.
Qed.

Lemma trimStart_suffix s : exists ws, s = ws ++ trimStart s
  /\ Forall (fun c => is_js_space c = true) ws.
Proof.
  induction s as [|c t (ws & E & H)]; cbn.
  - now exists [].
  - destruct (is_js_space c) eqn:Hc.
    + exists (c :: ws). cbn. split; [congruence|now constructor].
    + now exists [].
Qed.

Lemma trim_nil s : trim s = [] <-> Forall (fun c => is_js_space c = true) s.
Proof.
  unfold trim, trimEnd. split.
  - intros H. destruct (trimStart_suffix s) as (ws & E & Hws).
    assert (H1 : trimStart (rev (trimStart s)) = []).
    { now rewrite <- (rev_involutive (trimStart _)), H. }
    apply trimStart_nil in H1.
    rewrite E. apply Forall_app. split; [exact Hws|].
    rewrite <- (rev_involutive (trimStart s)).
    now apply Forall_rev.
  - intros H. apply trimStart_nil in H. now rewrite H.
Qed.

(** [!data || data.trim() === ''] holds exactly of the empty and the
    all-whitespace strings. *)
Lemma blank_iff s : blank s = true <-> Forall (fun c => is_js_space c = true) s.
Proof.
  unfold blank. rewrite <- trim_nil. destruct s as [|c t]; cbn [truthy negb orb].
  - split; auto.
  - apply str_eqb_eq.
Qed.

Lemma stops_clean {A} (r : result A) new :
  Forall (fun c => ~ blank_repair c) new -> stops_at_blank_repair r new.
Proof.
  intros H pre c post -> Hb. apply Forall_app in H as [_ H].
  inversion H; contradiction.
Qed.

Lemma stops_val_clean {A} (a : A) new :
  stops_at_blank_repair (Val a) new -> Forall (fun c => ~ blank_repair c) new.
Proof.
  intros H. apply Forall_forall. intros c Hc Hb.
  apply list_elem_of_split in Hc as (pre & post & ->).
  destruct (H pre c post eq_refl Hb) as [_ ?]. discriminate.
Qed.

Lemma app_split_clean {A} (P : A -> Prop) l1 : forall l2 pre x post,
  l1 ++ l2 = pre ++ x :: post -> Forall (fun y => ~ P y) l1 -> P x ->
  exists pre', pre = l1 ++ pre' /\ l2 = pre' ++ x :: post.
Proof.
  induction l1 as [|a l1 IH]; intros l2 pre x post E Hc Hx.
  - now exists pre.
  - inversion Hc as [|? ? Ha Hc']; subst. destruct pre as [|b pre]; cbn in E.
    + injection E as -> _. contradiction.
    + injection E as -> E. destruct (IH _ _ _ _ E Hc' Hx) as (pre' & -> & ->).
      now exists pre'.
Qed.

Lemma stops_app {A} (r : result A) l1 l2 :
  Forall (fun c => ~ blank_repair c) l1 -> stops_at_blank_repair r l2 ->
  stops_at_blank_repair r (l1 ++ l2).
Proof.
  intros H1 H2 pre c post E Hb.
  destruct (app_split_clean blank_repair _ _ _ _ _ E H1 Hb) as (pre' & -> & E2).
  eapply H2; eauto.
Qed.

Lemma stops_snoc_clean {A B} (a : A) (r : result B) l c :
  stops_at_blank_repair (Val a) l -> ~ blank_repair c ->
  stops_at_blank_repair r (l ++ [c]).
Proof.
  intros H Hc. apply stops_clean, Forall_app. split.
  - now apply stops_val_clean in H.
  - now repeat constructor.
Qed.

Lemma setup_clean setup :
  Forall is_setup setup -> Forall (fun c => ~ blank_repair c) setup.
Proof. intros H. eapply Forall_impl; [exact H|]. now intros []. Qed.

Lemma cycle_step_stops C i tests v s r s' :
  cycle_step C i tests v s r s' ->
  exists new, calls s' = calls s ++ new /\ stops_at_blank_repair r new.
Proof.
  inversion 1; subst; eexists; (split; [eassumption|]);
    try (apply stops_clean; repeat constructor; cbn; auto; congruence).
  intros pre c post E Hb.
  destruct pre as [|c1 [|c2 pre]]; cbn in E.
  - injection E as <- _. contradiction.
  - injection E as _ _ <-. auto.
  - injection E as _ _ E. now destruct pre.
Qed.

Lemma loop_steps_stops C i tests v s r s' :
  loop_steps C i tests v s r s' ->
  exists new, calls s' = calls s ++ new /\ stops_at_blank_repair r new.
Proof.
  induction 1 as [v s _|v s msg s' _ _ Hc|v s v1 s1 r s' _ _ Hc _ IH].
  - exists []. rewrite app_nil_r. split; [reflexivity|]. now apply stops_clean.
  - eapply cycle_step_stops; eauto.
  - destruct (cycle_step_stops _ _ _ _ _ _ _ Hc) as (new1 & E1 & H1).
    destruct IH as (new & E & Hn).
    exists (new1 ++ new). rewrite E, E1, <- app_assoc. split; [reflexivity|].
    apply stops_app; [|exact Hn]. now apply stops_val_clean in H1.
Qed.

Lemma verify_run_stops C i s r s1 :
  verify_run C i s r s1 ->
  exists new, calls s1 = calls s ++ new /\ stops_at_blank_repair r new.
Proof.
  assert (Hloop : forall code0 tests s0 (r1 : result loop_vars) s1 setup,
             calls s0 = calls s ++ setup -> Forall is_setup setup ->
             loop_steps C i tests (initial_vars code0) s0 r1 s1 ->
             exists new, calls s1 = calls s ++ new
                         /\ stops_at_blank_repair r1 new).
  { intros code0 tests s0 r1 s1' setup E Hs Hl.
    destruct (loop_steps_stops _ _ _ _ _ _ _ Hl) as (new & E1 & Hn).
    exists (setup ++ new). rewrite E1, E, <- app_assoc. split; [reflexivity|].
    apply stops_app; [now apply setup_clean|exact Hn]. }
  inversion 1; subst.
  - exists setup. split; [assumption|]. now apply stops_clean, setup_clean.
  - destruct (Hloop _ _ _ _ _ _ H0 H1 H3) as (new & E & Hn).
    exists new. split; [exact E|]. intros pre c post Ep Hb.
    destruct (Hn pre c post Ep Hb) as [? [= ->]]. auto.
  - destruct (Hloop _ _ _ _ _ _ H0 H1 H3) as (new & E & Hn).
    exists new. split; [congruence|].
    apply stops_clean. now apply stops_val_clean in Hn.
  - destruct (Hloop _ _ _ _ _ _ H0 H1 H3) as (new & E & Hn).
    exists new. split; [congruence|].
    apply stops_clean. now apply stops_val_clean in Hn.
Qed.

(** C3: if the repair collaborator hands back an empty or all-whitespace
    candidate, in whichever cycle, that call is the last call of the run: no
    execution, repair or optimisation follows, and the run ends in the
    [failed] step with the critical-failure line for the empty repair. *)
Theorem C3_blank_repair_aborts_run C i s pre sent failedTests a post :
  calls (runAgent C i s)
  = calls s ++ pre ++ Repair sent failedTests (Returns a) :: post ->
  Forall (fun c => is_js_space c = true) (data a) ->
  post = []
  /\ step (ui (runAgent C i s)) = failed
  /\ last (logs (ui (runAgent C i s)))
     = Some {| log_type := log_error;
               message := lit "CRITICAL FAILURE: Self-repair generated empty code. Aborting." |}.
Proof.
  intros E Hws. apply blank_iff in Hws.
  assert (Hb : blank_repair (Repair sent failedTests (Returns a))) by exact Hws.
  pose proof (runAgent_sound C i s) as Hrun.
  inversion Hrun as [Hp Es|s0 msg s1 s'' Hp E0 Hv Hf Es
                    |s0 cur s1 msg s2 s'' Hp E0 Hv Ho E2 _ _ Hf Es
                    |s0 cur s1 b s'' Hp E0 Hv Ho E2 _ _ _ Es].
  - rewrite <- Es in E. rewrite <- (app_nil_r (calls s)) in E at 1.
    apply app_inv_head in E. now destruct pre.
  - destruct (verify_run_stops _ _ _ _ _ Hv) as (new & En & Hn).
    destruct Hf as (Hstep & Hlog & Ec & _).
    rewrite Ec, En, E0 in E. apply app_inv_head in E.
    destruct (Hn _ _ _ E Hb) as [-> [= ->]]. auto.
  - exfalso. destruct (verify_run_stops _ _ _ _ _ Hv) as (new & En & Hn).
    destruct Hf as (_ & _ & Ec & _).
    rewrite Ec, E2, En, E0, <- app_assoc in E. apply app_inv_head in E.
    assert (Hs : stops_at_blank_repair (Val tt) (new ++ [Optimize cur (Throws msg)])).
    { eapply stops_snoc_clean; eauto. }
    destruct (Hs _ _ _ E Hb) as [_ ?]. discriminate.
  - exfalso. destruct (verify_run_stops _ _ _ _ _ Hv) as (new & En & Hn).
    rewrite E2, En, E0, <- app_assoc in E. apply app_inv_head in E.
    assert (Hs : stops_at_blank_repair (Val tt) (new ++ [Optimize cur (Returns b)])).
    { eapply stops_snoc_clean; eauto. }
    destruct (Hs _ _ _ E Hb) as [_ ?]. discriminate.
Qed.

(** A blank repair in the second of five cycles: two executions, then the
    run is over. *)
Lemma C3_witness :
  let run := runAgent (scripted [3; 1; 4; 4; 2] (blank_repair_at 2) good_optimize)
               user_inputs idle_agent in
  let a := {| data := lit "  " ++ [NL]; reasoning := None |} in
  let pre := take 6 (calls run) in
  (calls run = calls idle_agent ++ pre
               ++ Repair (candidate 1) (failures (score 1 5)) (Returns a) :: []
   /\ Forall (fun c => is_js_space c = true) (data a))
  /\ executed (calls run) = 2
  /\ step (ui run) = failed.
Proof.
  cbn zeta.
  assert (E : calls (runAgent (scripted [3; 1; 4; 4; 2] (blank_repair_at 2)
                                 good_optimize) user_inputs idle_agent)
              = calls idle_agent
                ++ take 6 (calls (runAgent (scripted [3; 1; 4; 4; 2]
                                              (blank_repair_at 2) good_optimize)
                                    user_inputs idle_agent))
                ++ Repair (candidate 1) (failures (score 1 5))
                     (Returns {| data := lit "  " ++ [NL]; reasoning := None |})
                   :: []).
  { vm_compute. reflexivity. }
  assert (Hws : Forall (fun c => is_js_space c = true)
                  (data {| data := lit "  " ++ [NL];
                           reasoning := @None jsstring |})).
  { repeat constructor. }
  split; [split; assumption|]. split; [vm_compute; reflexivity|].
  exact (proj1 (proj2 (C3_blank_repair_aborts_run _ _ _ _ _ _ _ _ E Hws))).
Defined.

(** *** C2: the best candidate *)

Lemma passedCount_nonneg results : (0 <= passedCount results)%Z.
Proof. unfold passedCount. lia. Qed.

Lemma best_of_advance v results ap cur :
  best_of (advance v results ap cur) = track (best_of v) (currentCode v, results).
Proof.
  unfold best_of, advance, track, consider. cbn.
  now destruct (maxPassedCount v <? passedCount results)%Z.
Qed.

Lemma track_count b rec : (b.1.2 <= (track b rec).1.2)%Z.
Proof.
  unfold track. destruct (Z.ltb_spec b.1.2 (passedCount rec.2)); cbn; lia.
Qed.

(** The bookkeeping, run over the executions of a loop that started from
    the stored maximum -1, ends on the earliest execution with the highest
    pass count. *)
Lemma fold_track_earliest_best recs : forall code0,
  recs <> [] ->
  let b := fold_left track recs (code0, (-1)%Z, []) in
  exists idx, earliest_best recs idx (b.1.1, b.2) /\ b.1.2 = passedCount b.2.
Proof.
  induction recs as [|x recs IH] using rev_ind; intros code0 Hne; [contradiction|].
  cbn zeta. rewrite fold_left_app. cbn [fold_left].
  destruct recs as [|y recs'].
  - cbn. unfold track. cbn.
    pose proof (passedCount_nonneg x.2).
    destruct (Z.ltb_spec (-1) (passedCount x.2)); [|lia]. cbn.
    exists 0. split; [|reflexivity]. unfold earliest_best. cbn.
    split; [now destruct x|]. split.
    + intros [|j] r; cbn; [|discriminate]. intros [= <-]. lia.
    + intros j r Hj. lia.
  - destruct (IH code0 ltac:(discriminate)) as (idx & (Hidx & Hmax & Hfirst) & Hcount).
    set (recs := y :: recs') in *.
    set (b := fold_left track recs (code0, (-1)%Z, [])) in *.
    cbn zeta in *. clearbody b. cbn [fst snd] in Hmax, Hfirst. unfold track.
    destruct (Z.ltb_spec b.1.2 (passedCount x.2)) as [Hlt|Hge]; cbn [fst snd].
    + exists (length recs). split; [|reflexivity]. unfold earliest_best. cbn [fst snd].
      split; [|split].
      * rewrite lookup_app_r, Nat.sub_diag by lia. now destruct x.
      * intros j r Hj. apply lookup_app_Some in Hj as [Hj|[_ Hj]].
        -- specialize (Hmax _ _ Hj). lia.
        -- destruct (j - length recs); [|discriminate]. injection Hj as <-. lia.
      * intros j r Hj Hr. rewrite lookup_app_l in Hr by exact Hj.
        specialize (Hmax _ _ Hr). lia.
    + exists idx. split; [|exact Hcount]. unfold earliest_best. split; [|split].
      * now apply lookup_app_l_Some.
      * intros j r Hj. apply lookup_app_Some in Hj as [Hj|[_ Hj]].
        -- eauto.
        -- destruct (j - length recs); [|discriminate]. injection Hj as <-.
           cbn [snd]. lia.
      * intros j r Hj Hr. apply lookup_lt_Some in Hidx as Hlen.
        rewrite lookup_app_l in Hr by lia. eauto.
Qed.

Lemma executions_app a b : executions (a ++ b) = executions a ++ executions b.
Proof. apply omap_app. Qed.

Lemma executions_setup setup : Forall is_setup setup -> executions setup = [].
Proof.
  induction 1 as [|c l Hc _ IH]; [reflexivity|].
  destruct c; cbn in *; try contradiction; exact IH.
Qed.

Lemma cycle_step_history C i tests v s v1 s1 :
  cycle_step C i tests v s (Val v1) s1 ->
  code (ui s) = currentCode v ->
  exists results,
    executions (calls s1) = executions (calls s) ++ [(currentCode v, results)]
    /\ best_of v1 = track (best_of v) (currentCode v, results)
    /\ code (ui s1) = currentCode v1
    /\ testResults (ui s1) = results
    /\ (allPassed v = false -> allPassed v1 = true ->
        currentCode v1 = currentCode v /\ failures results = []).
Proof.
  intros H Hcode.
  inversion H; subst;
    match goal with
    | Hf : fetch_execute _ _ _ _ _ = Returns ?results,
      Ec : calls _ = _ |- _ =>
        exists results; rewrite Ec, executions_app, best_of_advance; cbn;
        repeat split; auto; try congruence
    end.
Qed.

(** What the loop leaves behind when it ends normally. *)
Lemma loop_steps_history C i tests v s r s' :
  loop_steps C i tests v s r s' ->
  forall v', r = Val v' ->
  code (ui s) = currentCode v ->
  exists recs,
    executions (calls s') = executions (calls s) ++ recs
    /\ best_of v' = fold_left track recs (best_of v)
    /\ code (ui s') = currentCode v'
    /\ (allPassed v = false -> iterations v < MAX_ITERATIONS -> recs <> [])
    /\ (allPassed v' = true ->
        (allPassed v = true /\ recs = [] /\ v' = v /\ s' = s)
        \/ exists rs, last recs = Some (currentCode v', rs)
                      /\ failures rs = [] /\ testResults (ui s') = rs).
Proof.
  induction 1 as [v s Hstop|v s msg s' _ _ Hc|v s v1 s1 r s' Ha Hlt Hc _ IH];
    intros v' Er Hcode; [| discriminate |].
  - injection Er as <-. exists []. rewrite app_nil_r. repeat split; auto.
    intros Hf Hl. destruct Hstop; [congruence|lia].
  - destruct (cycle_step_history _ _ _ _ _ _ _ Hc Hcode)
      as (results & Ex & Hb & Hcode1 & Ht & Hall).
    destruct (IH v' Er Hcode1) as (recs & Ex' & Hb' & Hcode' & _ & Hlast).
    exists ((currentCode v, results) :: recs).
    rewrite Ex', Ex, <- app_assoc. split; [reflexivity|].
    split; [cbn [fold_left]; congruence|]. split; [exact Hcode'|].
    split; [discriminate|]. intros Hp. right.
    destruct (Hlast Hp) as [(Ha1 & -> & -> & ->)|(rs & Hl & Hf & Hr)].
    + destruct (Hall Ha Ha1) as [-> Hfail]. exists results. auto.
    + exists rs. split; [|auto]. destruct recs; [discriminate|exact Hl].
Qed.

Lemma verify_run_history C i s cur s2 :
  verify_run C i s (Val cur) s2 ->
  exists recs,
    executions (calls s2) = executions (calls s) ++ recs
    /\ code (ui s2) = cur
    /\ ((exists rs, last recs = Some (cur, rs) /\ failures rs = []
                    /\ testResults (ui s2) = rs)
        \/ (exists idx rs, earliest_best recs idx (cur, rs)
                           /\ testResults (ui s2) = rs)).
Proof.
  inversion 1; subst;
    match goal with
    | Ec : calls ?s0 = calls s ++ ?setup, Hs : Forall is_setup ?setup,
      Hl : loop_steps _ _ _ _ ?s0 (Val ?v) ?s1, Ha : allPassed ?v = _,
      Ec2 : calls s2 = calls ?s1, Hc2 : code (ui s2) = _,
      Ht2 : testResults (ui s2) = _ |- _ =>
        destruct (loop_steps_history _ _ _ _ _ _ _ Hl v eq_refl eq_refl)
          as (recs & Ex & Hb & Hcode' & Hne & Hlast);
        exists recs;
        rewrite Ec2, Ex, Ec, executions_app, (executions_setup _ Hs), app_nil_r;
        split; [reflexivity|]
    end.
  - split; [congruence|]. left.
    destruct (Hlast ltac:(assumption)) as [(Hf & _)|(rs & ? & ? & ?)];
      [discriminate|].
    exists rs. repeat split; auto. congruence.
  - split; [assumption|]. right.
    assert (Hrecs : recs <> []).
    { apply Hne; [reflexivity|]. cbn. unfold MAX_ITERATIONS. lia. }
    destruct (fold_track_earliest_best recs (code (ui s0)) Hrecs) as (idx & He & _).
    change (code (ui s0), (-1)%Z, []) with (best_of (initial_vars (code (ui s0)))) in He.
    cbn zeta in He. rewrite <- Hb in He. cbn in He.
    exists idx, (bestTestResults v). auto.
Qed.

(** C2: the stored best is replaced exactly when the new pass count is
    strictly higher, the stored count starts at -1 and never goes down; and
    when steps 1 to 4 end with a failing vector in the last execution, the
    candidate handed on, the candidate on display and the results on display
    are those of the earliest execution with the highest pass count. *)
Theorem C2_earliest_best_candidate_reported :
  (forall v results,
     ((maxPassedCount v < passedCount results)%Z ->
      best_of (consider v results) = (currentCode v, passedCount results, results))
     /\ ((passedCount results <= maxPassedCount v)%Z -> consider v results = v)
     /\ (maxPassedCount v <= maxPassedCount (consider v results))%Z)
  /\ (forall code0, maxPassedCount (initial_vars code0) = (-1)%Z)
  /\ (forall C i s cur s1 recs last_sent last_results,
        verify C i s = (Val cur, s1) ->
        executions (calls s1) = executions (calls s) ++ recs ->
        last recs = Some (last_sent, last_results) ->
        failures last_results <> [] ->
        exists idx rs,
          earliest_best recs idx (cur, rs)
          /\ code (ui s1) = cur
          /\ testResults (ui s1) = rs).
Proof.
  split; [|split; [reflexivity|]].
  - intros v results. unfold consider, best_of.
    destruct (Z.ltb_spec (maxPassedCount v) (passedCount results));
      repeat split; intros; cbn; try lia; reflexivity.
  - intros C i s cur s1 recs last_sent last_results Ev Ex Hlast Hfail.
    pose proof (verify_sound C i s) as Hv. rewrite Ev in Hv. cbn [fst snd] in Hv.
    destruct (verify_run_history _ _ _ _ _ Hv) as (recs' & Ex' & Hcode & Hcase).
    rewrite Ex in Ex'. apply app_inv_head in Ex'. subst recs'.
    destruct Hcase as [(rs & Hl & Hf & _)|(idx & rs & He & Ht)].
    + rewrite Hlast in Hl. injection Hl as -> ->. contradiction.
    + exists idx, rs. auto.
Qed.

(** The pass counts 3, 1, 4, 4, 2 over five vectors. *)
Lemma C2_witness :
  let C := scripted [3; 1; 4; 4; 2] good_repair good_optimize in
  let r := verify C user_inputs idle_agent in
  let recs := executions (calls r.2) in
  (r.1 = Val (candidate 2)
   /\ (passedCount ∘ snd) <$> recs = [3; 1; 4; 4; 2]%Z
   /\ last recs = Some (candidate 4, score 2 5)
   /\ failures (score 2 5) <> [])
  /\ exists idx rs,
       earliest_best recs idx (candidate 2, rs)
       /\ code (ui r.2) = candidate 2
       /\ testResults (ui r.2) = rs.
Proof.
  cbn zeta.
  set (C := scripted [3; 1; 4; 4; 2] good_repair good_optimize).
  destruct (verify C user_inputs idle_agent) as [r s1] eqn:Ev.
  assert (Er : r = Val (candidate 2)).
  { change r with (r, s1).1. rewrite <- Ev. vm_compute. reflexivity. }
  assert (Es : executions (calls s1)
               = executions (calls idle_agent) ++ executions (calls s1)) by reflexivity.
  assert (Hl : last (executions (calls s1)) = Some (candidate 4, score 2 5)).
  { change s1 with (r, s1).2. rewrite <- Ev. vm_compute. reflexivity. }
  assert (Hf : failures (score 2 5) <> []) by (vm_compute; discriminate).
  cbn [fst snd]. split.
  - split; [exact Er|]. split; [|split; assumption].
    change s1 with (r, s1).2. rewrite <- Ev. vm_compute. reflexivity.
  - subst r.
    exact (proj2 (proj2 C2_earliest_best_candidate_reported)
             C user_inputs idle_agent _ _ _ _ _ Ev Es Hl Hf).
Defined.

(** The example of the specification: of the pass counts 3, 1, 4, 4, 2 the
    third execution wins, not the fourth. *)
Example third_iteration_wins :
  let C := scripted [3; 1; 4; 4; 2] good_repair good_optimize in
  let r := verify C user_inputs idle_agent in
  r.1 = Val (candidate 2)
  /\ executions (calls r.2) !! 2 = Some (candidate 2, score 4 5)
  /\ executions (calls r.2) !! 3 = Some (candidate 3, score 4 5)
  /\ code (ui r.2) = candidate 2
  /\ testResults (ui r.2) = score 4 5.
Proof. vm_compute. repeat split. Qed.

(** *** C10: a failing optimiser *)

Lemma cycle_step_no_optimize C i tests v s r s' :
  cycle_step C i tests v s r s' ->
  exists new, calls s' = calls s ++ new /\ Forall (fun c => ~ is_optimize c) new.
Proof.
  inversion 1; subst; eexists; (split; [eassumption|]); repeat constructor; auto.
Qed.

Lemma loop_steps_no_optimize C i tests v s r s' :
  loop_steps C i tests v s r s' ->
  exists new, calls s' = calls s ++ new /\ Forall (fun c => ~ is_optimize c) new.
Proof.
  induction 1 as [v s _|v s msg s' _ _ Hc|v s v1 s1 r s' _ _ Hc _ IH].
  - exists []. now rewrite app_nil_r.
  - eapply cycle_step_no_optimize; eauto.
  - destruct (cycle_step_no_optimize _ _ _ _ _ _ _ Hc) as (new1 & E1 & H1).
    destruct IH as (new & E & Hn).
    exists (new1 ++ new). rewrite E, E1, <- app_assoc. split; [reflexivity|].
    now apply Forall_app.
Qed.

Lemma verify_run_no_optimize C i s r s1 :
  verify_run C i s r s1 ->
  exists new, calls s1 = calls s ++ new /\ Forall (fun c => ~ is_optimize c) new.
Proof.
  assert (Hsetup : forall setup, Forall is_setup setup ->
                                 Forall (fun c => ~ is_optimize c) setup).
  { intros setup H. eapply Forall_impl; [exact H|]. now intros []. }
  inversion 1; subst;
    try match goal with
        | Ec : calls ?s0 = calls s ++ ?setup,
          Hl : loop_steps _ _ _ _ ?s0 _ ?s1 |- _ =>
            destruct (loop_steps_no_optimize _ _ _ _ _ _ _ Hl) as (new & E & Hn);
            exists (setup ++ new); split;
            [rewrite app_assoc; congruence|apply Forall_app; auto]
        end.
  exists setup. auto.
Qed.

(** C10, as stated, fails: with every vector passing in the first cycle
    and an optimiser that throws, the run ends in the [failed] step, not in
    [completed]. *)
Lemma C10_counterexample :
  let C := scripted [5] good_repair failing_optimize in
  let run := runAgent C user_inputs idle_agent in
  (verify C user_inputs idle_agent).1 = Val (candidate 0)
  /\ failures (testResults (ui run)) = []
  /\ last (calls run)
     = Some (Optimize (candidate 0) (Throws (lit "429 quota exceeded")))
  /\ step (ui run) = failed
  /\ step (ui run) <> completed.
Proof. vm_compute. repeat split. discriminate. Qed.

(** C10 (amended): when the optimisation collaborator throws, the candidate
    on display is still the one that was handed to it, shown with the
    results of one of its own executions; no rewrite is applied.  The run
    itself ends in the [failed] step with a critical-failure line that
    carries the optimiser's message. *)
Theorem C10_optimizer_failure_keeps_candidate C i s pre cur msg :
  calls (runAgent C i s) = calls s ++ pre ++ [Optimize cur (Throws msg)] ->
  code (ui (runAgent C i s)) = cur
  /\ (exists rs, (cur, rs) ∈ executions pre
                 /\ testResults (ui (runAgent C i s)) = rs)
  /\ step (ui (runAgent C i s)) = failed
  /\ last (logs (ui (runAgent C i s)))
     = Some {| log_type := log_error;
               message := lit "CRITICAL FAILURE: " ++ msg |}.
Proof.
  intros E. pose proof (runAgent_sound C i s) as Hrun.
  inversion Hrun as [Hp Es|s0 m s1 s'' Hp E0 Hv Hf Es
                    |s0 c s1 m s2 s'' Hp E0 Hv Ho E2 Hc2 Ht2 Hf Es
                    |s0 c s1 b s'' Hp E0 Hv Ho E2 _ _ _ Es].
  - exfalso. rewrite <- Es in E. rewrite <- (app_nil_r (calls s)) in E at 1.
    apply app_inv_head in E. now destruct pre.
  - exfalso. destruct (verify_run_no_optimize _ _ _ _ _ Hv) as (new & En & Hn).
    destruct Hf as (_ & _ & Ec & _).
    rewrite Ec, En, E0 in E. apply app_inv_head in E. subst new.
    apply Forall_app in Hn as [_ Hn]. inversion Hn as [|? ? Hx]. now apply Hx.
  - destruct (verify_run_no_optimize _ _ _ _ _ Hv) as (new & En & _).
    destruct Hf as (Hstep & Hlog & Ec & Hcode & Hres).
    rewrite Ec, E2, En, E0, <- app_assoc in E. apply app_inv_head in E.
    apply app_inj_tail in E as [-> [= -> ->]].
    destruct (verify_run_history _ _ _ _ _ Hv) as (recs & Ex & Hcur & Hcase).
    rewrite En, executions_app in Ex. apply app_inv_head in Ex. subst recs.
    split; [congruence|]. split; [|auto].
    destruct Hcase as [(rs & Hl & _ & Hr)|(idx & rs & (Hidx & _) & Hr)].
    + exists rs. split; [|congruence].
      apply last_Some in Hl as (l' & ->). apply elem_of_app. right.
      apply list_elem_of_here.
    + exists rs. split; [|congruence]. eapply list_elem_of_lookup_2, Hidx.
  - exfalso. destruct (verify_run_no_optimize _ _ _ _ _ Hv) as (new & En & _).
    rewrite E2, En, E0, <- app_assoc in E. apply app_inv_head in E.
    apply app_inj_tail in E as [_ [=]].
Qed.

(** A best-effort run whose optimiser throws: the third candidate stays on
    display with its four passing results. *)
Lemma C10_witness :
  let C := scripted [3; 1; 4; 4; 2] good_repair failing_optimize in
  let run := runAgent C user_inputs idle_agent in
  let pre := take 12 (calls run) in
  calls run = calls idle_agent ++ pre
              ++ [Optimize (candidate 2) (Throws (lit "429 quota exceeded"))]
  /\ code (ui run) = candidate 2
  /\ testResults (ui run) = score 4 5
  /\ step (ui run) = failed.
Proof.
  cbn zeta.
  set (C := scripted [3; 1; 4; 4; 2] good_repair failing_optimize).
  assert (E : calls (runAgent C user_inputs idle_agent)
              = calls idle_agent ++ take 12 (calls (runAgent C user_inputs idle_agent))
                ++ [Optimize (candidate 2) (Throws (lit "429 quota exceeded"))]).
  { vm_compute. reflexivity. }
  split; [exact E|].
  destruct (C10_optimizer_failure_keeps_candidate C user_inputs idle_agent _ _ _ E)
    as (Hcode & _ & Hstep & _).
  split; [exact Hcode|]. split; [vm_compute; reflexivity|exact Hstep].
Defined.

(** * Further properties of the code *)

(** ** The sandbox executor *)

Lemma handle_tempFile st e : tempFile (handle st e) = tempFile st.
Proof.
  unfold handle. destruct (listening st); [|reflexivity].
  destruct e; cbn; try reflexivity.
  - apply on_close_world.
  - unfold on_timer. destruct (timer st); [|reflexivity].
    now rewrite settle_tempFile.
Qed.

Lemma handle_listening st e : listening (handle st e) = listening st.
Proof.
  unfold handle. destruct (listening st) eqn:Hl; [|exact Hl].
  destruct e as [d|d| |c|]; cbn; try reflexivity; try exact Hl.
  - unfold on_close.
    destruct (code_is c 0); [|destruct (_ || _); [|destruct (_ || _)]];
      rewrite settle_listening; exact Hl.
  - unfold on_timer. destruct (timer st); [|exact Hl].
    rewrite settle_listening. exact Hl.
Qed.




(** What an event can do to the scratch directory: nothing, or unlink the
    scratch file. *)
Lemma handle_fs st e :
  fs (host_world (handle st e)) = fs (host_world st)
  \/ fs (host_world (handle st e)) = delete (tempFile st) (fs (host_world st)).
Proof.
  assert (Hr : forall st', fs (host_world (remove_scratch st')) = fs (host_world st')
             \/ fs (host_world (remove_scratch st'))
                = delete (tempFile st') (fs (host_world st'))).
  { intros st'. unfold remove_scratch. cbn.
    destruct (existsSync _ _); cbn; auto. }
  unfold handle. destruct (listening st); [|auto].
  destruct e as [d|d| |c|]; cbn; auto.
  - destruct (on_close_world c st) as [-> _]. apply Hr.
  - unfold on_timer. destruct (timer st); [|auto]. rewrite settle_world.
    match goal with |- context [remove_scratch ?x] => destruct (Hr x) as [E|E] end;
      rewrite E; cbn; auto.
Qed.





Lemma data_accumulates evs : forall st,
  listening st = true -> forallb is_data evs = true ->
  output (fold_left handle evs st) = output st ++ stdout_of evs.
Proof.
  induction evs as [|e evs IH]; intros st Hl Hev; cbn [fold_left stdout_of].
  - now rewrite app_nil_r.
  - cbn in Hev. apply andb_prop in Hev as [He Hev].
    rewrite IH by (rewrite ?handle_listening; assumption).
    unfold handle. rewrite Hl. destruct e; try discriminate; cbn.
    + now rewrite app_assoc.
    + reflexivity.
Qed.

(** X1: a child that exits with status 0 resolves the call with everything
    it wrote to stdout, the chunks joined in the order they arrived and
    whatever it wrote to stderr in between left out; the watchdog is
    cleared and the scratch file is removed. *)
Theorem X1_exit_zero_resolves_with_stdout h code input evs w0 :
  no_throw h -> forallb is_data evs = true ->
  let st := runPython h code input (evs ++ [Exit; Close (Some 0%Z)]) w0 in
  outcome st = Resolved (stdout_of evs)
  /\ timer st = None
  /\ existsSync (tempFile st) (host_world st) = false.
Proof.
  intros [Hw Hs] Hev. cbn zeta. unfold runPython. rewrite fold_left_app.
  destruct (start_spawned h code input w0 Hw Hs) as (Hl0 & Ht0 & Ho0 & Hf0).
  cbn zeta in *.
  destruct (data_keeps_pending evs (start h code input w0) Hev)
    as (Hl & Ht & Ho & Hf & _). cbn zeta in *.
  pose proof (data_accumulates evs (start h code input w0) Hl0 Hev) as Hout.
  set (st := fold_left handle evs (start h code input w0)) in *.
  assert (Hstart : output (start h code input w0) = []).
  { unfold start. now rewrite Hw, Hs. }
  rewrite Hstart in Hout. cbn [app] in Hout.
  cbn [fold_left].
  assert (Hl1 : listening (handle st Exit) = true)
    by (rewrite handle_listening; congruence).
  split; [|split].
  - unfold handle at 1. rewrite Hl1, on_close_outcome.
    unfold handle. replace (listening st) with true by congruence. cbn.
    now rewrite Ho, Ho0, Hout.
  - unfold handle at 1. rewrite Hl1. unfold on_close. cbn [code_is Z.eqb].
    rewrite settle_timer. unfold handle. replace (listening st) with true by congruence.
    reflexivity.
  - now apply close_removes_scratch.
Qed.

Lemma X1_witness :
  let st := runPython quiet_host (lit "print(4); print(2)") []
              ([StdoutData (lit "4"); StderrData (lit "warning");
                StdoutData (lit "2")] ++ [Exit; Close (Some 0%Z)]) empty_world in
  no_throw quiet_host
  /\ outcome st = Resolved (lit "42")
  /\ existsSync (tempFile st) (host_world st) = false.
Proof.
  cbn zeta. assert (H : no_throw quiet_host) by (split; reflexivity).
  split; [exact H|].
  destruct (X1_exit_zero_resolves_with_stdout quiet_host (lit "print(4); print(2)") []
              [StdoutData (lit "4"); StderrData (lit "warning"); StdoutData (lit "2")]
              empty_world H eq_refl) as (Ho & _ & He).
  split; [exact Ho|exact He].
Defined.

(** No event writes a file or spawns a process; the log only grows. *)
Lemma handle_oslog st e :
  exists l, oslog (host_world (handle st e)) = oslog (host_world st) ++ l
            /\ spawned_stdin l = [].
Proof.
  assert (Hr : forall st', exists l,
             oslog (host_world (remove_scratch st')) = oslog (host_world st') ++ l
             /\ spawned_stdin l = []).
  { intros st'. unfold remove_scratch. cbn.
    destruct (existsSync _ _); cbn; [eexists; split; reflexivity|].
    exists []. now rewrite app_nil_r. }
  assert (H0 : exists l, oslog (host_world st) = oslog (host_world st) ++ l
                         /\ spawned_stdin l = []).
  { exists []. now rewrite app_nil_r. }
  unfold handle. destruct (listening st); [|exact H0].
  destruct e as [d|d| |c|]; cbn; try exact H0.
  - destruct (on_close_world c st) as [-> _]. apply Hr.
  - unfold on_timer. destruct (timer st); [|exact H0]. rewrite settle_world.
    match goal with |- context [remove_scratch ?x] => destruct (Hr x) as (l & E & Hl) end.
    rewrite E. cbn. exists (Kill (tempFile st) :: l).
    rewrite <- app_assoc. split; [reflexivity|exact Hl].
Qed.

Lemma run_oslog evs : forall st,
  exists l, oslog (host_world (fold_left handle evs st)) = oslog (host_world st) ++ l
            /\ spawned_stdin l = [].
Proof.
  induction evs as [|e evs IH]; intros st; cbn.
  - exists []. now rewrite app_nil_r.
  - destruct (IH (handle st e)) as (l2 & E2 & H2).
    destruct (handle_oslog st e) as (l1 & E1 & H1).
    exists (l1 ++ l2). rewrite E2, E1, <- app_assoc. split; [reflexivity|].
    unfold spawned_stdin in *. now rewrite omap_app, H1, H2.
Qed.

Lemma run_stays_removed evs : forall st,
  existsSync (tempFile st) (host_world st) = false ->
  existsSync (tempFile (fold_left handle evs st))
    (host_world (fold_left handle evs st)) = false.
Proof.
  induction evs as [|e evs IH]; intros st H; cbn; [exact H|].
  apply IH. rewrite handle_tempFile. unfold existsSync in *.
  apply bool_decide_eq_false in H. apply bool_decide_eq_false.
  destruct (handle_fs st e) as [-> | ->]; [exact H|].
  rewrite lookup_delete_eq. intros [? ?]. discriminate.
Qed.

(** X4: if the child has not exited when the three seconds are over, the
    call is decided for good: the child is sent SIGKILL, the scratch file is
    removed, and the call is rejected with the hard-timeout message, which
    no later ['exit'] or ['close'] (with whatever status) changes. *)
Theorem X4_hard_timeout_is_final h code input evs later w0 :
  no_throw h -> forallb is_data evs = true ->
  let st := runPython h code input (evs ++ TimerFires :: later) w0 in
  outcome st = Rejected (lit "Time Limit Exceeded (Hard Timeout)")
  /\ Kill (scratch_name h) ∈ oslog (host_world st)
  /\ existsSync (tempFile st) (host_world st) = false.
Proof.
  intros [Hw Hs] Hev. cbn zeta.
  destruct (hard_timeout_decides h code input evs w0 Hw Hs Hev) as (Ho & Hk & He).
  unfold runPython in *.
  replace (evs ++ TimerFires :: later) with ((evs ++ [TimerFires]) ++ later)
    by now rewrite <- app_assoc.
  rewrite fold_left_app.
  set (st := fold_left handle (evs ++ [TimerFires]) (start h code input w0)) in *.
  split; [|split].
  - rewrite run_settled; [exact Ho|]. rewrite Ho. discriminate.
  - destruct (run_oslog later st) as (l & -> & _). apply elem_of_app. now left.
  - now apply run_stays_removed.
Qed.

Lemma X4_witness :
  let st := runPython quiet_host (lit "while True: pass") []
              ([StdoutData (lit "tick")] ++ TimerFires :: [Exit; Close None])
              empty_world in
  no_throw quiet_host
  /\ outcome st = Rejected (lit "Time Limit Exceeded (Hard Timeout)")
  /\ existsSync (tempFile st) (host_world st) = false.
Proof.
  cbn zeta. assert (H : no_throw quiet_host) by (split; reflexivity).
  split; [exact H|].
  destruct (X4_hard_timeout_is_final quiet_host (lit "while True: pass") []
              [StdoutData (lit "tick")] [Exit; Close None] empty_world H eq_refl)
    as (Ho & _ & He).
  split; [exact Ho|exact He].
Defined.

(** ** The execute endpoint *)

Lemma for_testCases_mock_results env code language tcs : forall acc s,
  language <> lit "python" ->
  for_testCases env code language tcs acc s
  = (Some (acc ++ (mock_result <$> tcs)), s).
Proof.
  induction tcs as [|tc tcs IH]; intros acc s Hl; cbn [for_testCases fmap list_fmap].
  - now rewrite app_nil_r.
  - apply str_eqb_neq in Hl as Hb. rewrite Hb, IH by exact Hl.
    now rewrite <- app_assoc.
Qed.

(** X5: a request in C++ or Java runs nothing: every vector is reported
    passed with the expected output as actual output, and the server, its
    scratch directory and its process log are exactly as before. *)
Theorem X5_cpp_java_are_mocked env req s :
  req_language req = lit "cpp" \/ req_language req = lit "java" ->
  post_execute env req s = (Json (mock_result <$> req_testCases req), s).
Proof.
  intros H. rewrite post_execute_gate.
  assert (Hs : supported (req_language req) = true).
  { apply supported_iff. unfold SUPPORTED. rewrite !elem_of_cons. tauto. }
  assert (Hp : req_language req <> lit "python").
  { destruct H as [-> | ->]; discriminate. }
  now rewrite Hs, for_testCases_mock_results.
Qed.

Lemma X5_witness :
  let req := {| req_code := lit "int main() { return 1; }";
                req_language := lit "cpp"; req_testCases := three_vectors |} in
  (req_language req = lit "cpp" \/ req_language req = lit "java")
  /\ post_execute three_runs req fresh_server
     = (Json (mock_result <$> three_vectors), fresh_server).
Proof.
  cbn zeta. split; [now left|].
  exact (X5_cpp_java_are_mocked three_runs
           {| req_code := lit "int main() { return 1; }";
              req_language := lit "cpp"; req_testCases := three_vectors |}
           fresh_server (or_introl eq_refl)).
Defined.

Lemma runPython_oslog h code input evs w0 :
  no_throw h ->
  exists l, oslog (host_world (runPython h code input evs w0))
            = oslog w0 ++ WriteFile (scratch_name h) (secureCode code)
                          :: Spawn (scratch_name h) input :: l
            /\ spawned_stdin l = [].
Proof.
  intros [Hw Hs]. unfold runPython.
  destruct (run_oslog evs (start h code input w0)) as (l & -> & Hl).
  exists l. split; [|exact Hl]. unfold start. rewrite Hw, Hs. cbn.
  now rewrite <- !app_assoc.
Qed.

Lemma for_testCases_spawns env code tcs : forall acc s rs s',
  (forall k, no_throw (env k).1) ->
  for_testCases env code (lit "python") tcs acc s = (Some rs, s') ->
  exists new, oslog (sworld s') = oslog (sworld s) ++ new
              /\ spawned_stdin new = input <$> tcs
              /\ launched s' = launched s + length tcs
              /\ length rs = length acc + length tcs.
Proof.
  induction tcs as [|tc tcs IH]; intros acc s rs s' Henv; cbn [for_testCases].
  - intros [= <- <-]. exists []. rewrite app_nil_r. cbn. repeat split; lia.
  - replace (str_eqb (lit "python") (lit "python")) with true by reflexivity.
    pose proof (Henv (launched s)) as Hh.
    destruct (env (launched s)) as [h evs]. cbn [fst] in Hh.
    destruct (runPython_oslog h code (input tc) evs (sworld s) Hh) as (l & El & Hl).
    set (st := runPython h code (input tc) evs (sworld s)) in *.
    destruct (outcome st) as [|out|msg]; [discriminate| |]; intros E;
      destruct (IH _ _ _ _ Henv E) as (new & En & Hn & Hc & Hlen);
      cbn [sworld launched] in *;
      (exists (WriteFile (scratch_name h) (secureCode code)
               :: Spawn (scratch_name h) (input tc) :: l ++ new));
      rewrite En, El, <- app_assoc; cbn [app];
      (split; [reflexivity|]);
      (split; [unfold spawned_stdin in *; cbn; rewrite omap_app, Hl, Hn; reflexivity|]);
      rewrite length_app in Hlen; cbn in *; split; lia.
Qed.

(** X6: a Python request that is answered has run one process per test
    vector, in the order of the vectors, each fed the input of its vector on
    stdin (on a host where writing the scratch file and spawning succeed). *)
Theorem X6_one_process_per_vector env req s results s' :
  req_language req = lit "python" ->
  (forall k, no_throw (env k).1) ->
  post_execute env req s = (Json results, s') ->
  exists new,
    oslog (sworld s') = oslog (sworld s) ++ new
    /\ spawned_stdin new = input <$> req_testCases req
    /\ length results = length (req_testCases req).
Proof.
  intros Hl Henv. rewrite post_execute_gate, Hl.
  replace (supported (lit "python")) with true by reflexivity.
  destruct (for_testCases _ _ _ _ _ _) as [[rs|] s''] eqn:E; [|discriminate].
  intros [= <- <-].
  destruct (for_testCases_spawns _ _ _ _ _ _ _ Henv E) as (new & En & Hn & _ & Hlen).
  exists new. cbn in Hlen. auto.
Qed.

Lemma X6_witness :
  let req := {| req_code := lit "print(sum(map(int, input().split())))";
                req_language := lit "python"; req_testCases := three_vectors |} in
  let r := post_execute three_runs req fresh_server in
  (req_language req = lit "python" /\ (forall k, no_throw (three_runs k).1))
  /\ exists results new,
       r.1 = Json results
       /\ oslog (sworld r.2) = oslog (sworld fresh_server) ++ new
       /\ spawned_stdin new = [lit "2 3"; lit "1 1"; lit "0 0"].
Proof.
  cbn zeta.
  assert (Henv : forall k, no_throw (three_runs k).1).
  { intros [|[|k]]; split; reflexivity. }
  split; [split; [reflexivity|exact Henv]|].
  set (req := {| req_code := lit "print(sum(map(int, input().split())))";
                 req_language := lit "python"; req_testCases := three_vectors |}).
  destruct (post_execute three_runs req fresh_server) as [[e|rs|] s'] eqn:E.
  - exfalso. assert (E' := f_equal fst E). vm_compute in E'. discriminate.
  - destruct (X6_one_process_per_vector three_runs req fresh_server rs s'
                eq_refl Henv E) as (new & En & Hn & _).
    exists rs, new. auto.
  - exfalso. assert (E' := f_equal fst E). vm_compute in E'. discriminate.
Defined.

(** *** Blank space around the output *)

Lemma trimStart_space ws s : all_space ws -> trimStart (ws ++ s) = trimStart s.
Proof. induction 1 as [|c ws Hc _ IH]; cbn; [reflexivity|]. now rewrite Hc. Qed.

Lemma trimStart_app s x : trimStart s <> [] -> trimStart (s ++ x) = trimStart s ++ x.
Proof.
  induction s as [|c s IH]; cbn; [contradiction|].
  destruct (is_js_space c); [exact IH|reflexivity].
Qed.

Lemma trimEnd_space s ws : all_space ws -> trimEnd (s ++ ws) = trimEnd s.
Proof.
  intros H. unfold trimEnd. rewrite rev_app_distr, trimStart_space; [reflexivity|].
  now apply Forall_rev.
Qed.

Lemma trimEnd_nil s : all_space s -> trimEnd s = [].
Proof.
  intros H. unfold trimEnd.
  assert (E : trimStart (rev s) = []) by now apply trimStart_nil, Forall_rev.
  now rewrite E.
Qed.

Lemma trim_surrounding_space ws1 s ws2 :
  all_space ws1 -> all_space ws2 -> trim (ws1 ++ s ++ ws2) = trim s.
Proof.
  intros H1 H2. unfold trim. rewrite trimStart_space by exact H1.
  destruct (trimStart s) as [|c t] eqn:E.
  - assert (Hs : all_space s) by now apply trimStart_nil.
    assert (E2 : trimStart (s ++ ws2) = []).
    { apply trimStart_nil, Forall_app. auto. }
    now rewrite E2.
  - rewrite trimStart_app by (rewrite E; discriminate).
    rewrite E. now apply trimEnd_space.
Qed.

Lemma runPython_printing h code input out w0 :
  no_throw h ->
  let st := runPython h code input [StdoutData out; Exit; Close (Some 0%Z)] w0 in
  outcome st = Resolved out
  /\ host_world st
     = host_world (runPython h code input [StdoutData []; Exit; Close (Some 0%Z)] w0).
Proof.
  intros [Hw Hs]. cbn zeta. unfold runPython, start. rewrite Hw, Hs.
  split; reflexivity.
Qed.

Lemma for_testCases_printing_step h outs code tc tcs acc s :
  no_throw h ->
  for_testCases (printing h outs) code (lit "python") (tc :: tcs) acc s
  = for_testCases (printing h outs) code (lit "python") tcs
      (acc ++ [ {| r_input := input tc; r_expectedOutput := expectedOutput tc;
                   r_actualOutput := Some (outs (launched s)); r_error := None;
                   passed := str_eqb (trim (outs (launched s)))
                               (trim (expectedOutput tc)) |} ])
      {| sworld := host_world (runPython h code (input tc)
                                 [StdoutData []; Exit; Close (Some 0%Z)] (sworld s));
         launched := S (launched s) |}.
Proof.
  intros Hh. cbn [for_testCases].
  replace (str_eqb (lit "python") (lit "python")) with true by reflexivity.
  change (printing h outs (launched s))
    with (h, [StdoutData (outs (launched s)); Exit; Close (Some 0%Z)]).
  cbn beta iota.
  destruct (runPython_printing h code (input tc) (outs (launched s)) (sworld s) Hh)
    as [Ho Hw]. cbn zeta in Ho, Hw.
  now rewrite Ho, Hw.
Qed.

Lemma for_testCases_printing h code outs1 outs2 tcs : forall acc1 acc2 s,
  no_throw h ->
  (forall k, trim (outs1 k) = trim (outs2 k)) ->
  passed <$> acc1 = passed <$> acc2 ->
  exists rs1 rs2 s',
    for_testCases (printing h outs1) code (lit "python") tcs acc1 s = (Some rs1, s')
    /\ for_testCases (printing h outs2) code (lit "python") tcs acc2 s = (Some rs2, s')
    /\ passed <$> rs1 = passed <$> rs2.
Proof.
  induction tcs as [|tc tcs IH]; intros acc1 acc2 s Hh Ho Hacc.
  - now exists acc1, acc2, s.
  - rewrite !for_testCases_printing_step by exact Hh.
    apply IH; [exact Hh|exact Ho|].
    rewrite !fmap_app, Hacc. cbn. now rewrite Ho.
Qed.

(** X7: blank space around what a candidate prints does not change a
    verdict: two Python candidates whose outputs agree up to leading and
    trailing white space (a final line break, say) get the same passed flags
    on every vector. *)
Theorem X7_verdicts_ignore_surrounding_space h req outs padl padr s :
  no_throw h -> req_language req = lit "python" ->
  (forall k, all_space (padl k)) -> (forall k, all_space (padr k)) ->
  exists rs1 rs2,
    (post_execute (printing h outs) req s).1 = Json rs1
    /\ (post_execute (printing h (fun k => padl k ++ outs k ++ padr k)) req s).1
       = Json rs2
    /\ passed <$> rs1 = passed <$> rs2
    /\ length rs1 = length (req_testCases req).
Proof.
  intros Hh Hl Hpl Hpr. rewrite !post_execute_gate, Hl.
  replace (supported (lit "python")) with true by reflexivity.
  destruct (for_testCases_printing h (req_code req) outs
              (fun k => padl k ++ outs k ++ padr k) (req_testCases req) [] [] s Hh)
    as (rs1 & rs2 & s' & E1 & E2 & Hp); [|reflexivity|].
  { intros k. symmetry. now apply trim_surrounding_space. }
  rewrite E1, E2. exists rs1, rs2. cbn [fst]. repeat split; auto.
  assert (Henv : forall k, no_throw (printing h outs k).1) by (intros k; exact Hh).
  destruct (for_testCases_spawns _ _ _ _ _ _ _ Henv E1) as (_ & _ & _ & _ & Hlen).
  exact Hlen.
Qed.

Lemma X7_witness :
  let req := {| req_code := lit "print(5)"; req_language := lit "python";
                req_testCases := three_vectors |} in
  (no_throw quiet_host /\ req_language req = lit "python")
  /\ exists rs1 rs2,
       (post_execute (printing quiet_host (fun _ => lit "5")) req fresh_server).1
       = Json rs1
       /\ (post_execute (printing quiet_host
                           (fun k => lit " " ++ lit "5" ++ [NL])) req fresh_server).1
          = Json rs2
       /\ passed <$> rs1 = passed <$> rs2
       /\ passed <$> rs1 = [true; false; false].
Proof.
  cbn zeta. assert (H : no_throw quiet_host) by (split; reflexivity).
  split; [split; [exact H|reflexivity]|].
  destruct (X7_verdicts_ignore_surrounding_space quiet_host
              {| req_code := lit "print(5)"; req_language := lit "python";
                 req_testCases := three_vectors |}
              (fun _ => lit "5") (fun _ => lit " ") (fun _ => [NL]) fresh_server
              H eq_refl)
    as (rs1 & rs2 & E1 & E2 & Hp & _).
  - intros _. repeat constructor.
  - intros _. repeat constructor.
  - exists rs1, rs2. split; [exact E1|]. split; [exact E2|]. split; [exact Hp|].
    vm_compute in E1. injection E1 as <-. reflexivity.
Defined.

(** ** The agent pipeline: which calls a run makes *)

Lemma analyze_and_generate_shape C i s :
  exists r s' setup,
    analyze_and_generate C i s = (r, s')
    /\ calls s' = calls s ++ setup
    /\ setup_log i r setup
    /\ match r with
       | Val (code0, _) => code (ui s') = code0
       | _ => True
       end.
Proof.
  unfold analyze_and_generate. fold (public_tests i). quiet_step.
  destruct (analyzeProblem C (problem i) (proMode i)) as [a|msg] eqn:Ha.
  2:{ step_with (await_throws Analyze _ msg s0 eq_refl).
      do 3 eexists. split; [reflexivity|]. split; [calls_chain|].
      split; [constructor|exact I]. }
  step_with (await_returns Analyze _ a s0 eq_refl).
  do 6 quiet_step.
  destruct (generateInitialCode C (data a) (language i) (proMode i))
    as [g|msg] eqn:Hg.
  2:{ step_with (await_throws Generate _ msg s7 eq_refl).
      do 3 eexists. split; [reflexivity|]. split; [calls_chain|].
      split; [constructor|exact I]. }
  step_with (await_returns Generate _ g s7 eq_refl).
  quiet_step. step_with (setCode_run (data g) s9). do 3 quiet_step.
  destruct (generateTestCases C (problem i) (data a) (data g)) as [t|msg] eqn:Ht.
  2:{ step_with (await_throws GenerateTests _ msg s13 eq_refl).
      do 3 eexists. split; [reflexivity|]. split; [calls_chain|].
      split; [constructor|exact I]. }
  step_with (await_returns GenerateTests _ t s13 eq_refl).
  do 4 quiet_step.
  do 3 eexists. split; [reflexivity|]. split; [calls_chain|].
  split; [constructor|]. congruence.
Qed.

Lemma loop_steps_stopped C i tests v s r s' :
  loop_steps C i tests v s r s' ->
  allPassed v = true \/ MAX_ITERATIONS <= iterations v ->
  r = Val v /\ s' = s.
Proof.
  intros H Hstop. inversion H; subst; auto; destruct Hstop; congruence || lia.
Qed.

Lemma loop_steps_log C i tests v s r s' :
  loop_steps C i tests v s r s' ->
  allPassed v = false -> iterations v < MAX_ITERATIONS ->
  exists new,
    calls s' = calls s ++ new
    /\ match r with
       | Val _ => forall cur o, loop_log tests (iterations v) (currentCode v)
                                  (new ++ [Optimize cur o])
       | Exn _ => loop_log tests (iterations v) (currentCode v) new
       | OutOfFuel => False
       end.
Proof.
  induction 1 as [v s Hstop|v s msg s' _ _ Hc|v s v1 s1 r s' _ _ Hc Hl IH];
    intros Ha Hn.
  - destruct Hstop; [congruence|lia].
  - inversion Hc; subst; eexists; (split; [eassumption|]);
      constructor; auto.
  - inversion Hc; subst.
    + destruct (loop_steps_stopped _ _ _ _ _ _ _ Hl) as [-> ->]; [now left|].
      eexists. split; [eassumption|]. intros cur o. cbn. now constructor.
    + destruct (loop_steps_stopped _ _ _ _ _ _ _ Hl) as [-> ->]; [now right|].
      eexists. split; [eassumption|]. intros cur o. cbn.
      constructor; [unfold MAX_ITERATIONS in *; lia|assumption].
    + destruct IH as (new & E & Hlog); [exact Ha|assumption|].
      match goal with
      | Ec : calls s1 = calls s ++ ?l |- _ =>
          exists (l ++ new); split; [rewrite E, Ec, <- app_assoc; reflexivity|]
      end.
      cbn [advance iterations currentCode] in Hlog.
      destruct r as [v'|msg|]; [| |contradiction].
      * intros cur o. cbn. constructor; auto.
      * cbn. constructor; auto.
Qed.

Lemma loop_log_nonempty tests n c l : loop_log tests n c l -> l <> [].
Proof. inversion 1; discriminate. Qed.

(** Every run of [runAgent] on a problem that is not blank makes its calls
    according to the grammar, and ends in [completed] exactly when its last
    call is an optimiser call that returned, in [failed] otherwise. *)
Lemma runAgent_log C i s :
  truthy (trim (problem i)) = true ->
  exists new x,
    calls (runAgent C i s) = calls s ++ new
    /\ run_log i new
    /\ last new = Some x
    /\ (optimizer_returned x -> step (ui (runAgent C i s)) = completed)
    /\ (~ optimizer_returned x -> step (ui (runAgent C i s)) = failed).
Proof.
  intros Hp. unfold runAgent. rewrite Hp. cbn [negb].
  destruct (prologue_quiet i s) as (s0 & E0 & Hc0 & _ & _).
  rewrite (bind_val _ _ _ _ _ E0). unfold pipeline.
  destruct (analyze_and_generate_shape C i s0) as (r & s1 & setup & E1 & Hc1 & Hs & Hcode).
  destruct Hs as [msg|a msg|a g msg|a g t].
  1-3: assert (Ev : verify C i s0 = (Exn msg, s1))
         by (unfold verify; now rewrite (bind_exn _ _ _ _ _ E1));
       rewrite (bind_exn _ _ _ _ _ Ev);
       destruct (on_error_run msg s1) as (Hst & _ & Hce & _);
       eexists; eexists; (split; [rewrite Hce, Hc1, Hc0; reflexivity|]);
       (split; [constructor|]); (split; [reflexivity|]);
       (split; [intros []|intros _; exact Hst]).
  assert (Ev : verify C i s0
               = test_and_repair C i (public_tests i ++ t) (data g) s1)
    by (unfold verify; now rewrite (bind_val _ _ _ _ _ E1)).
  pose proof (test_and_repair_run C i (public_tests i ++ t) (data g) s1) as Ht.
  cbn zeta in Ht. destruct Ht as (r1 & s2 & Hl & Hr).
  destruct (loop_steps_log _ _ _ _ _ _ _ Hl) as (new & En & Hlog);
    [reflexivity|cbn; unfold MAX_ITERATIONS; lia|].
  cbn [initial_vars iterations currentCode] in Hlog.
  destruct (test_and_repair C i (public_tests i ++ t) (data g) s1) as [r2 s3].
  cbn [fst snd] in Hr.
  destruct r1 as [v|msg|]; [| |contradiction].
  - destruct Hr as [Hcalls Hr].
    assert (Er2 : exists cur, r2 = Val cur).
    { destruct (allPassed v); destruct Hr as (-> & _); eauto. }
    destruct Er2 as [cur ->]. rewrite (bind_val _ _ _ _ _ Ev).
    pose proof (optimize_run C i cur s3) as Ho. cbn zeta in Ho. destruct Ho as [_ Ho].
    destruct (optimizeCode C (problem i) cur (proMode i)) as [b|msg] eqn:Eo.
    + destruct Ho as (Hres & Hoc & _ & Hstep).
      destruct (optimize C i cur s3) as [r3 s4]. cbn [fst snd] in *. subst r3.
      exists ([Analyze (Returns a); Generate (Returns g); GenerateTests (Returns t)]
              ++ new ++ [Optimize cur (Returns b)]), (Optimize cur (Returns b)).
      split; [rewrite Hoc, Hcalls, En, Hc1, Hc0, <- !app_assoc; reflexivity|].
      split; [cbn; constructor; apply Hlog|].
      split; [now rewrite app_assoc, last_snoc|].
      split; [intros _; exact Hstep|intros H; now destruct H].
    + destruct Ho as (Hres & Hoc & _).
      destruct (optimize C i cur s3) as [r3 s4]. cbn [fst snd] in *. subst r3.
      destruct (on_error_run msg s4) as (Hst & _ & Hce & _).
      exists ([Analyze (Returns a); Generate (Returns g); GenerateTests (Returns t)]
              ++ new ++ [Optimize cur (Throws msg)]), (Optimize cur (Throws msg)).
      split; [rewrite Hce, Hoc, Hcalls, En, Hc1, Hc0, <- !app_assoc; reflexivity|].
      split; [cbn; constructor; apply Hlog|].
      split; [now rewrite app_assoc, last_snoc|].
      split; [intros []|intros _; exact Hst].
  - injection Hr as -> ->. rewrite (bind_exn _ _ _ _ _ Ev).
    destruct (on_error_run msg s2) as (Hst & _ & Hce & _).
    destruct (loop_steps_no_optimize _ _ _ _ _ _ _ Hl) as (new' & En' & Hno).
    rewrite En in En'. apply app_inv_head in En'. subst new'.
    pose proof (loop_log_nonempty _ _ _ _ Hlog) as Hne.
    destruct (exists_last Hne) as (l' & x & ->).
    exists ([Analyze (Returns a); Generate (Returns g); GenerateTests (Returns t)]
            ++ l' ++ [x]), x.
    split; [rewrite Hce, En, Hc1, Hc0, <- !app_assoc; reflexivity|].
    split; [cbn; constructor; exact Hlog|].
    split; [now rewrite app_assoc, last_snoc|].
    apply Forall_app in Hno as [_ Hno]. inversion Hno as [|? ? Hx _]; subst.
    split; [intros H; exfalso; apply Hx; now destruct x|intros _; exact Hst].
Qed.

Lemma run_log_nonempty i l : run_log i l -> l <> [].
Proof. inversion 1; discriminate. Qed.

Lemma problem_given p : ~ all_space p -> truthy (trim p) = true.
Proof.
  intros H. destruct (trim p) as [|c t] eqn:E; [|reflexivity].
  exfalso. apply H. now apply trim_nil.
Qed.

Lemma problem_blank p : all_space p -> truthy (trim p) = false.
Proof. intros H. apply trim_nil in H. now rewrite H. Qed.

(** The calls of any run, blank problem included. *)
Lemma runAgent_calls C i s :
  exists new,
    calls (runAgent C i s) = calls s ++ new /\ (new = [] \/ run_log i new).
Proof.
  destruct (truthy (trim (problem i))) eqn:Hp.
  - destruct (runAgent_log C i s Hp) as (new & x & E & Hlog & _). eauto.
  - exists []. unfold runAgent. rewrite Hp. cbn [negb].
    rewrite app_nil_r. auto.
Qed.

Lemma loop_log_repairs tests n c l :
  loop_log tests n c l -> repairs l + S n <= MAX_ITERATIONS.
Proof.
  induction 1; unfold repairs in *; cbn [List.filter is_repair length] in *; lia.
Qed.

Lemma loop_log_tests tests n c l :
  loop_log tests n c l ->
  forall sent x o, Execute sent x o ∈ l -> x = tests.
Proof.
  induction 1 as [| | | | |n c rs a rest _ _ _ _ IH]; intros sent x o Hin.
  1-5: apply list_elem_of_In in Hin; cbn in Hin;
       intuition (discriminate || congruence).
  apply list_elem_of_In in Hin. cbn [In] in Hin.
  destruct Hin as [[= _ <- _]|[[=]|Hin]]; [reflexivity|].
  eapply IH. apply list_elem_of_In, Hin.
Qed.

Lemma loop_log_chain tests n c l :
  loop_log tests n c l ->
  chain follows l /\ exists r l', l = Execute c tests r :: l'.
Proof.
  induction 1 as [| | | | |n c rs a rest _ Hf Hb _ [IH (r & l' & ->)]].
  1-5: split; [repeat constructor; auto|eauto].
  split; [|eauto].
  apply chain_cons; [cbn; auto|]. apply chain_cons; [cbn; auto|exact IH].
Qed.

Lemma loop_log_provenance tests n c l :
  loop_log tests n c l ->
  forall pre sent x o post,
    l = pre ++ Execute sent x o :: post ->
    (pre = [] /\ sent = c)
    \/ (exists c0 f a, last pre = Some (Repair c0 f (Returns a))
                       /\ sent = data a).
Proof.
  induction 1 as [| | | | |n c rs a rest _ _ _ _ IH]; intros pre sent x o post E.
  1-5: destruct pre as [|p1 [|p2 [|p3 pre]]]; cbn in E; inversion E; auto.
  destruct pre as [|p1 [|p2 pre]]; cbn in E; inversion E; subst; auto.
  right. destruct (IH _ _ _ _ _ eq_refl) as [[-> ->]|(c0 & f & a' & Hl & ->)].
  - cbn. eauto.
  - exists c0, f, a'. split; [|reflexivity].
    rewrite !last_cons, Hl. reflexivity.
Qed.

(** X8: a run asks the repair model at most four times
    ([MAX_ITERATIONS - 1]): the fifth failing execution goes to the
    best-effort fallback, not to another repair. *)
Theorem X8_at_most_four_repairs C i s :
  exists new,
    calls (runAgent C i s) = calls s ++ new
    /\ repairs new <= MAX_ITERATIONS - 1.
Proof.
  destruct (runAgent_calls C i s) as (new & E & [->|Hlog]).
  - exists []. split; [exact E|]. cbn. lia.
  - exists new. split; [exact E|].
    inversion Hlog as [| | |a g t rest Hl]; subst; try (cbn; lia).
    apply loop_log_repairs in Hl. unfold repairs in *.
    cbn [List.filter is_repair] in *. lia.
Qed.

(** X9: every execution request of a run carries one and the same list of
    test vectors: the sample of the user (if both fields are filled, with
    the fields trimmed) followed by the vectors the test generator returned
    in that run.  Repairs never change the vectors. *)
Theorem X9_every_execution_sends_the_same_vectors C i s :
  exists new tests,
    calls (runAgent C i s) = calls s ++ new
    /\ forall sent tests' r,
         Execute sent tests' r ∈ new ->
         tests' = tests
         /\ exists t, GenerateTests (Returns t) ∈ new
                      /\ tests = public_tests i ++ t.
Proof.
  destruct (runAgent_calls C i s) as (new & E & [->|Hlog]).
  - exists [], []. split; [exact E|]. intros ? ? ? H. inversion H.
  - inversion Hlog as [| | |a g t rest Hl]; subst.
    1-3: eexists; exists []; (split; [exact E|]); intros ? ? ? H;
         apply list_elem_of_In in H; cbn in H; intuition discriminate.
    eexists. exists (public_tests i ++ t). split; [exact E|].
    intros sent tests' r H. apply list_elem_of_In in H. cbn [In] in H.
    destruct H as [[=]|[[=]|[[=]|H]]].
    split; [eapply loop_log_tests; [exact Hl|apply list_elem_of_In, H]|].
    exists t. split; [|reflexivity].
    do 2 apply list_elem_of_further. apply list_elem_of_here.
Qed.

(** X10: the order of the calls of a run.  Analysis comes first; generation
    follows an analysis that returned, test generation a generation that
    returned, the first execution a test generation that returned; a repair
    follows only an execution that returned a failing vector, is asked about
    the candidate just executed and is given exactly its failing results; an
    execution after a repair runs the non-blank candidate the repair
    returned; the optimiser follows only an execution that returned; and
    nothing follows a call that threw, a blank repair, or the optimiser. *)
Theorem X10_call_protocol C i s :
  exists new,
    calls (runAgent C i s) = calls s ++ new
    /\ chain follows new
    /\ (new <> [] -> exists r rest, new = Analyze r :: rest).
Proof.
  destruct (runAgent_calls C i s) as (new & E & [->|Hlog]).
  - exists []. split; [exact E|]. split; [constructor|congruence].
  - exists new. split; [exact E|].
    inversion Hlog as [| | |a g t rest Hl]; subst.
    1-3: split; [repeat constructor|eauto].
    split; [|eauto].
    destruct (loop_log_chain _ _ _ _ Hl) as (Hc & r & l' & ->).
    repeat (apply chain_cons; [exact I|]). exact Hc.
Qed.



(** X12: a run is a no-op (no call, no change of what is on display)
    exactly when the problem statement is empty or all whitespace. *)
Theorem X12_blank_problem_starts_nothing C i s :
  runAgent C i s = s <-> all_space (problem i).
Proof.
  split.
  - intros E. destruct (decide (trim (problem i) = [])) as [H|H].
    + now apply trim_nil.
    + exfalso. assert (Hp : truthy (trim (problem i)) = true)
        by (destruct (trim (problem i)); [congruence|reflexivity]).
      destruct (runAgent_log C i s Hp) as (new & x & Ec & Hlog & _).
      rewrite E in Ec. rewrite <- (app_nil_r (calls s)) in Ec at 1.
      apply app_inv_head in Ec. subst new. inversion Hlog.
  - intros H. unfold runAgent. now rewrite (problem_blank _ H).
Qed.

(** X13: when the optimiser returns, its rewrite goes on display as it is,
    next to the test results of an execution of the candidate that was
    handed to it: the rewritten code itself is never executed, and the run
    is reported as completed. *)
Theorem X13_optimised_code_is_shown_unverified C i s pre cur b :
  calls (runAgent C i s) = calls s ++ pre ++ [Optimize cur (Returns b)] ->
  code (ui (runAgent C i s)) = data b
  /\ (exists rs, (cur, rs) ∈ executions pre
                 /\ testResults (ui (runAgent C i s)) = rs)
  /\ executions (calls (runAgent C i s)) = executions (calls s) ++ executions pre
  /\ step (ui (runAgent C i s)) = completed.
Proof.
  intros E. pose proof (runAgent_sound C i s) as Hrun.
  inversion Hrun as [Hp Es|s0 m s1 s'' Hp E0 Hv Hf Es
                    |s0 c s1 m s2 s'' Hp E0 Hv Ho E2 Hc2 Ht2 Hf Es
                    |s0 c s1 a s'' Hp E0 Hv Ho E2 Hcode Hres Hstep Es].
  - exfalso. rewrite <- Es in E. rewrite <- (app_nil_r (calls s)) in E at 1.
    apply app_inv_head in E. now destruct pre.
  - exfalso. destruct (verify_run_no_optimize _ _ _ _ _ Hv) as (new & En & Hn).
    destruct Hf as (_ & _ & Ec & _).
    rewrite Ec, En, E0 in E. apply app_inv_head in E. subst new.
    apply Forall_app in Hn as [_ Hn]. inversion Hn as [|? ? Hx]. now apply Hx.
  - exfalso. destruct (verify_run_no_optimize _ _ _ _ _ Hv) as (new & En & _).
    destruct Hf as (_ & _ & Ec & _).
    rewrite Ec, E2, En, E0, <- app_assoc in E. apply app_inv_head in E.
    apply app_inj_tail in E as [_ [=]].
  - destruct (verify_run_no_optimize _ _ _ _ _ Hv) as (new & En & _).
    pose proof E as E'.
    rewrite E2, En, E0, <- app_assoc in E. apply app_inv_head in E.
    apply app_inj_tail in E as [-> [= -> ->]].
    destruct (verify_run_history _ _ _ _ _ Hv) as (recs & Ex & Hcur & Hcase).
    rewrite En, executions_app in Ex. apply app_inv_head in Ex. subst recs.
    split; [assumption|]. split.
    + destruct Hcase as [(rs & Hl & _ & Hr)|(idx & rs & (Hidx & _) & Hr)].
      * exists rs. split; [|congruence].
        apply last_Some in Hl as (l' & ->). apply elem_of_app. right.
        apply list_elem_of_here.
      * exists rs. split; [|congruence]. eapply list_elem_of_lookup_2, Hidx.
    + split; [|assumption].
      rewrite E', !executions_app. cbn. now rewrite app_nil_r.
Qed.

Lemma X13_witness :
  let C := scripted [3; 1; 4; 4; 2] good_repair good_optimize in
  let run := runAgent C user_inputs idle_agent in
  let pre := take 12 (calls run) in
  calls run = calls idle_agent ++ pre
              ++ [Optimize (candidate 2)
                    (Returns {| data := candidate 2 ++ lit " # fast";
                                reasoning := None |})]
  /\ code (ui run) = candidate 2 ++ lit " # fast"
  /\ testResults (ui run) = score 4 5
  /\ step (ui run) = completed.
Proof.
  cbn zeta.
  set (C := scripted [3; 1; 4; 4; 2] good_repair good_optimize).
  assert (E : calls (runAgent C user_inputs idle_agent)
              = calls idle_agent ++ take 12 (calls (runAgent C user_inputs idle_agent))
                ++ [Optimize (candidate 2)
                      (Returns {| data := candidate 2 ++ lit " # fast";
                                  reasoning := None |})]).
  { vm_compute. reflexivity. }
  split; [exact E|].
  destruct (X13_optimised_code_is_shown_unverified C user_inputs idle_agent _ _ _ E)
    as (Hcode & _ & _ & Hstep).
  split; [exact Hcode|]. split; [vm_compute; reflexivity|exact Hstep].
Defined.

(** X14: the sandbox only ever runs code that a model returned, unchanged:
    the first execution of a run sends the data of the generator, and every
    later one the data of the repair call made just before it. *)
Theorem X14_executed_candidates_come_from_the_models C i s :
  exists new,
    calls (runAgent C i s) = calls s ++ new
    /\ forall pre sent tests r post,
         new = pre ++ Execute sent tests r :: post ->
         (executed pre = 0
          /\ exists g, Generate (Returns g) ∈ pre /\ sent = data g)
         \/ (exists c0 f a, last pre = Some (Repair c0 f (Returns a))
                            /\ sent = data a).
Proof.
  destruct (runAgent_calls C i s) as (new & E & [->|Hlog]).
  - exists []. split; [exact E|]. intros [|] ? ? ? ? H; discriminate.
  - exists new. split; [exact E|]. intros pre sent tests r post En.
    inversion Hlog as [| | |a g t rest Hl]; subst.
    1-3: destruct pre as [|p1 [|p2 [|p3 [|p4 pre]]]]; cbn in *; congruence.
    destruct pre as [|p1 [|p2 [|p3 pre]]]; cbn in H; try discriminate.
    injection H as <- <- <- ->.
    destruct (loop_log_provenance _ _ _ _ Hl _ _ _ _ _ eq_refl)
      as [[-> ->]|(c0 & f & a' & Hlast & ->)].
    + left. split; [reflexivity|]. exists g. split; [|reflexivity].
      apply list_elem_of_further, list_elem_of_here.
    + right. exists c0, f, a'. split; [|reflexivity].
      rewrite !last_cons, Hlast. reflexivity.
Qed.

(** ** The answer of a code model *)

(** *** Trimming *)

Lemma trimStart_clean s : starts_clean (trimStart s).
Proof.
  induction s as [|c t IH]; cbn; [exact I|].
  destruct (is_js_space c) eqn:Hc; [exact IH|exact Hc].
Qed.

Lemma trimStart_of_clean s : starts_clean s -> trimStart s = s.
Proof. destruct s as [|c t]; cbn; [reflexivity|]. now intros ->. Qed.

Lemma starts_clean_prefix a b : starts_clean (a ++ b) -> a <> [] -> starts_clean a.
Proof. destruct a; [contradiction|]. auto. Qed.

(** A string is its trimmed part between two runs of whitespace. *)
Lemma trim_decompose s :
  exists ws1 ws2, s = ws1 ++ trim s ++ ws2 /\ all_space ws1 /\ all_space ws2.
Proof.
  destruct (trimStart_suffix s) as (ws1 & E1 & H1).
  destruct (trimStart_suffix (rev (trimStart s))) as (ws & E2 & H2).
  exists ws1, (rev ws). split; [|split; [exact H1|now apply Forall_rev]].
  unfold trim, trimEnd. rewrite <- rev_app_distr, <- E2, rev_involutive.
  exact E1.
Qed.

Lemma trim_idem s : trim (trim s) = trim s.
Proof.
  destruct (trimStart_suffix (rev (trimStart s))) as (ws & E & _).
  unfold trim at 2 3. unfold trimEnd.
  set (v := trimStart (rev (trimStart s))) in *.
  assert (Hv : starts_clean v) by apply trimStart_clean.
  destruct (decide (v = [])) as [->|Hne]; [reflexivity|].
  assert (Hr : starts_clean (rev v)).
  { apply (starts_clean_prefix _ (rev ws)).
    - rewrite <- rev_app_distr, <- E, rev_involutive. apply trimStart_clean.
    - intros H. apply Hne. now rewrite <- (rev_involutive v), H. }
  unfold trim, trimEnd.
  now rewrite (trimStart_of_clean _ Hr), rev_involutive, (trimStart_of_clean _ Hv).
Qed.

Lemma trimStart_nonspace_app a c r :
  is_js_space c = false -> trimStart (a ++ c :: r) = trimStart a ++ c :: r.
Proof.
  intros Hc. induction a as [|x a IH]; cbn; [now rewrite Hc|].
  destruct (is_js_space x); [exact IH|reflexivity].
Qed.

Lemma trimEnd_nonspace_app r d b :
  is_js_space d = false -> trimEnd (r ++ d :: b) = r ++ d :: trimEnd b.
Proof.
  intros Hd. unfold trimEnd.
  rewrite rev_app_distr. cbn [rev]. rewrite <- app_assoc. cbn [app].
  rewrite (trimStart_nonspace_app _ _ _ Hd), rev_app_distr. cbn [rev].
  now rewrite rev_involutive, <- app_assoc.
Qed.

(** Trimming stops at a core that starts and ends with a visible code
    unit. *)
Lemma trim_around a c m d b :
  is_js_space c = false -> is_js_space d = false ->
  trim (a ++ c :: m ++ d :: b) = trimStart a ++ c :: m ++ d :: trimEnd b.
Proof.
  intros Hc Hd. unfold trim. rewrite (trimStart_nonspace_app _ _ _ Hc).
  replace (trimStart a ++ c :: m ++ d :: b)
    with ((trimStart a ++ c :: m) ++ d :: b) by now rewrite <- app_assoc.
  rewrite (trimEnd_nonspace_app _ _ _ Hd). now rewrite <- app_assoc.
Qed.

Lemma elem_of_trimStart x s : x ∈ trimStart s -> x ∈ s.
Proof.
  destruct (trimStart_suffix s) as (ws & E & _). intros H.
  rewrite E. apply elem_of_app. now right.
Qed.

Lemma elem_of_trim x s : x ∈ trim s -> x ∈ s.
Proof.
  destruct (trim_decompose s) as (ws1 & ws2 & E & _). intros H.
  rewrite E. apply elem_of_app. right. apply elem_of_app. now left.
Qed.

(** *** Occurrences *)

Lemma split_at_Some pat s b a :
  split_at pat s = Some (b, a) -> s = b ++ pat ++ a.
Proof.
  revert b. induction s as [|c t IH]; intros b; cbn.
  - destruct (strip_prefix pat []) eqn:E; [|discriminate].
    intros [= <- <-]. now apply strip_prefix_Some in E.
  - destruct (strip_prefix pat (c :: t)) eqn:E.
    + intros [= <- <-]. now apply strip_prefix_Some in E.
    + destruct (split_at pat t) as [[b' a']|]; [|discriminate].
      intros [= <- <-]. cbn. f_equal. now apply IH.
Qed.

Lemma split_at_eq pat s :
  split_at pat s
  = match strip_prefix pat s with
    | Some rest => Some ([], rest)
    | None =>
        match s with
        | [] => None
        | c :: t =>
            match split_at pat t with
            | Some (b, a) => Some (c :: b, a)
            | None => None
            end
        end
    end.
Proof. destruct s; reflexivity. Qed.

Lemma split_at_here pat rest : split_at pat (pat ++ rest) = Some ([], rest).
Proof. now rewrite split_at_eq, strip_prefix_app. Qed.

Lemma split_at_contains pat s : contains pat s -> split_at pat s <> None.
Proof.
  intros (a & b & ->). induction a as [|c a IH].
  - cbn [app]. now rewrite split_at_here.
  - cbn. destruct (strip_prefix pat (c :: a ++ pat ++ b)); [discriminate|].
    destruct (split_at pat (a ++ pat ++ b)) as [[? ?]|]; [discriminate|].
    now destruct IH.
Qed.

Lemma split_at_None pat s : split_at pat s = None <-> ~ contains pat s.
Proof.
  split.
  - intros E H. now apply split_at_contains in H.
  - intros H. destruct (split_at pat s) as [[b a]|] eqn:E; [|reflexivity].
    exfalso. apply H. exists b, a. now apply split_at_Some.
Qed.

(** The text in front of the first occurrence holds none. *)
Lemma split_at_before pat s b a :
  pat <> [] -> split_at pat s = Some (b, a) -> ~ contains pat b.
Proof.
  intros Hp E (x & y & ->).
  revert x E. induction s as [|c t IH]; intros x; cbn.
  - destruct (strip_prefix pat []) eqn:E; [|discriminate].
    intros [= H _]. destruct x, pat; cbn in H; congruence.
  - destruct (strip_prefix pat (c :: t)) eqn:E.
    + intros [= H _]. destruct x, pat; cbn in H; congruence.
    + destruct (split_at pat t) as [[b' a']|] eqn:Et; [|discriminate].
      intros [= H <-]. destruct x as [|x0 x]; cbn in H.
      * apply split_at_Some in Et. subst t.
        rewrite app_comm_cons, H, <- !app_assoc, strip_prefix_app in E.
        discriminate.
      * injection H as -> ->. now apply (IH x).
Qed.

Lemma contains_nil pat : pat <> [] -> ~ contains pat [].
Proof. intros Hp (a & b & H). destruct a, pat; cbn in H; congruence. Qed.

Lemma contains_cons pat c t :
  contains pat (c :: t) -> (exists r, c :: t = pat ++ r) \/ contains pat t.
Proof.
  intros ([|x a] & b & H).
  - left. eauto.
  - right. injection H as -> ->. now exists a, b.
Qed.

Lemma contains_middle pat a m b : contains pat m -> contains pat (a ++ m ++ b).
Proof.
  intros (x & y & ->). exists (a ++ x), (y ++ b). now rewrite <- !app_assoc.
Qed.

Lemma contains_trim pat s : contains pat (trim s) -> contains pat s.
Proof.
  destruct (trim_decompose s) as (ws1 & ws2 & E & _). intros H.
  rewrite E. now apply contains_middle.
Qed.

(** A pattern that starts with [x] is found right behind a text without
    [x]. *)
Lemma split_at_fresh x pat r rest :
  x ∉ r -> split_at (x :: pat) (r ++ x :: pat ++ rest) = Some (r, rest).
Proof.
  induction r as [|c r IH]; intros Hx.
  - apply (split_at_here (x :: pat)).
  - apply not_elem_of_cons in Hx as [Hc Hr]. cbn [app split_at].
    rewrite strip_prefix_cons. destruct (N.eqb_spec x c); [congruence|].
    now rewrite (IH Hr).
Qed.

(** *** The patterns *)

Lemma regex_match_eq openers close s :
  regex_match openers close s
  = match match_here openers close s with
    | Some (g, a) => Some ([], g, a)
    | None =>
        match s with
        | [] => None
        | c :: t =>
            match regex_match openers close t with
            | Some (b, g, a) => Some (c :: b, g, a)
            | None => None
            end
        end
    end.
Proof. destruct s; reflexivity. Qed.

Lemma strip_prefix_head_not x p s :
  head_not x s -> strip_prefix (x :: p) s = None.
Proof.
  destruct s as [|c t]; cbn; [reflexivity|]. intros Hc.
  destruct (N.eqb_spec x c); congruence.
Qed.

Lemma match_here_head_not x openers close s :
  all_start_with x openers -> head_not x s ->
  match_here openers close s = None.
Proof.
  intros Ho Hs. induction Ho as [|o os Hx _ IH]; cbn; [reflexivity|].
  destruct Hx as (o' & ->). now rewrite (strip_prefix_head_not _ _ _ Hs).
Qed.

Lemma first_prefix_head_not x marks s :
  all_start_with x marks -> head_not x s -> first_prefix marks s = None.
Proof.
  intros Ho Hs. induction Ho as [|o os Hx _ IH]; cbn; [reflexivity|].
  destruct Hx as (o' & ->). now rewrite (strip_prefix_head_not _ _ _ Hs).
Qed.

(** A text without the first code unit of the openers is skipped by the
    search. *)
Lemma regex_match_fresh_prefix x openers close pre s :
  all_start_with x openers -> x ∉ pre ->
  regex_match openers close (pre ++ s)
  = match regex_match openers close s with
    | Some (b, g, a) => Some (pre ++ b, g, a)
    | None => None
    end.
Proof.
  intros Ho. induction pre as [|c pre IH]; intros Hx.
  - cbn [app]. now destruct (regex_match openers close s) as [[[? ?] ?]|].
  - apply not_elem_of_cons in Hx as [Hc Hp].
    cbn [app]. rewrite regex_match_eq.
    rewrite (match_here_head_not x) by (assumption || (cbn; congruence)).
    rewrite (IH Hp).
    now destruct (regex_match openers close s) as [[[? ?] ?]|].
Qed.

Lemma regex_match_fresh x openers close s :
  all_start_with x openers -> x ∉ s -> regex_match openers close s = None.
Proof.
  intros Ho Hx. rewrite <- (app_nil_r s).
  rewrite (regex_match_fresh_prefix x) by assumption.
  cbn. now rewrite (match_here_head_not x).
Qed.

Lemma regex_match_here openers close s g a :
  match_here openers close s = Some (g, a) ->
  regex_match openers close s = Some ([], g, a).
Proof. intros E. now rewrite regex_match_eq, E. Qed.

Lemma match_here_group openers close s g a :
  match_here openers close s = Some (g, a) ->
  exists rest, split_at close rest = Some (g, a).
Proof.
  induction openers as [|o os IH]; cbn; [discriminate|].
  destruct (strip_prefix o s) as [rest|]; [|exact IH].
  destruct (split_at close rest) as [r|] eqn:E; [|exact IH].
  intros [= ->]. eauto.
Qed.

(** The group of a match ends at the first [close] behind its opener. *)
Lemma regex_match_group openers close s b g a :
  regex_match openers close s = Some (b, g, a) ->
  exists rest, split_at close rest = Some (g, a).
Proof.
  revert b. induction s as [|c t IH]; intros b; rewrite regex_match_eq.
  - destruct (match_here openers close []) as [[g' a']|] eqn:E; [|discriminate].
    intros [= _ <- <-]. eapply match_here_group, E.
  - destruct (match_here openers close (c :: t)) as [[g' a']|] eqn:E.
    + intros [= _ <- <-]. eapply match_here_group, E.
    + destruct (regex_match openers close t) as [[[b' g'] a']|]; [|discriminate].
      intros [= _ <- <-]. now apply (IH b').
Qed.

(** Without an opening tag there is no match. *)
Lemma regex_match_no_opener o close s :
  ~ contains o s -> regex_match [o] close s = None.
Proof.
  induction s as [|c t IH]; intros H; rewrite regex_match_eq; cbn [match_here].
  - destruct (strip_prefix o []) eqn:E; [|reflexivity].
    exfalso. apply H. apply strip_prefix_Some in E. exists [], l. exact E.
  - destruct (strip_prefix o (c :: t)) eqn:E.
    + exfalso. apply H. apply strip_prefix_Some in E. exists [], l. exact E.
    + rewrite IH; [reflexivity|].
      intros (a & b & ->). apply H. now exists (c :: a), b.
Qed.

(** Two openers without a line break inside their tags that fit the same
    text have the same tag. *)
Lemma tag_line_inj t1 t2 r1 r2 :
  NL ∉ t1 -> NL ∉ t2 -> t1 ++ NL :: r1 = t2 ++ NL :: r2 -> t1 = t2 /\ r1 = r2.
Proof.
  revert t2. induction t1 as [|a t1 IH]; intros [|b t2] H1 H2 E; cbn in E.
  - now injection E.
  - injection E as <- _. exfalso. apply H2. apply list_elem_of_here.
  - injection E as -> _. exfalso. apply H1. apply list_elem_of_here.
  - injection E as -> E. apply not_elem_of_cons in H1 as [_ H1].
    apply not_elem_of_cons in H2 as [_ H2].
    destruct (IH t2 H1 H2 E) as [-> ->]. auto.
Qed.

Lemma match_here_fence tags tag rest g a :
  Forall (fun t => NL ∉ t) tags -> NL ∉ tag -> tag ∈ tags ->
  split_at FENCE rest = Some (g, a) ->
  match_here ((fun t => FENCE ++ t ++ [NL]) <$> tags) FENCE
    (FENCE ++ tag ++ NL :: rest) = Some (g, a).
Proof.
  intros Ht Hn Hin Hs. induction Ht as [|t1 ts H1 _ IH]; [inversion Hin|].
  cbn [fmap list_fmap match_here].
  destruct (strip_prefix (FENCE ++ t1 ++ [NL]) (FENCE ++ tag ++ NL :: rest))
    as [r|] eqn:E.
  - apply strip_prefix_Some in E. rewrite <- !app_assoc in E.
    apply app_inv_head in E. cbn [app] in E.
    destruct (tag_line_inj _ _ _ _ Hn H1 E) as [_ <-]. now rewrite Hs.
  - apply IH. apply elem_of_cons in Hin as [->|Hin]; [|exact Hin].
    exfalso. replace (FENCE ++ t1 ++ NL :: rest)
      with ((FENCE ++ t1 ++ [NL]) ++ rest) in E by now rewrite <- !app_assoc.
    rewrite strip_prefix_app in E. discriminate.
Qed.

Lemma fence_openers_start tags : all_start_with BACKTICK (fence_openers tags).
Proof.
  unfold all_start_with, fence_openers. apply Forall_fmap, Forall_forall.
  intros t _. cbn. eauto.
Qed.

Lemma fence_marks_start tags : all_start_with BACKTICK (fence_marks tags).
Proof.
  unfold all_start_with, fence_marks. apply Forall_app. split.
  - apply Forall_fmap, Forall_forall. intros t _. cbn. eauto.
  - repeat constructor. cbn. eauto.
Qed.

(** *** Deleting the fence markers *)

Lemma remove_marks_fresh x marks fuel s :
  all_start_with x marks -> x ∉ s -> remove_marks fuel marks s = s.
Proof.
  intros Hm. revert s. induction fuel as [|f IH]; intros [|c t] Hx; try reflexivity.
  apply not_elem_of_cons in Hx as [Hc Ht]. cbn [remove_marks].
  rewrite (first_prefix_head_not x) by (assumption || (cbn; congruence)).
  now rewrite (IH t Ht).
Qed.

Lemma first_prefix_Some marks s rest :
  first_prefix marks s = Some rest -> exists m, m ∈ marks /\ s = m ++ rest.
Proof.
  induction marks as [|m ms IH]; cbn; [discriminate|].
  destruct (strip_prefix m s) as [r|] eqn:E.
  - intros [= ->]. exists m. split; [apply list_elem_of_here|].
    now apply strip_prefix_Some.
  - intros H. destruct (IH H) as (m' & Hin & Es). exists m'.
    split; [now apply list_elem_of_further|exact Es].
Qed.

Lemma first_prefix_None marks s m :
  first_prefix marks s = None -> m ∈ marks -> strip_prefix m s = None.
Proof.
  induction marks as [|m0 ms IH]; cbn; [intros _ H; inversion H|].
  destruct (strip_prefix m0 s) as [r|] eqn:E; [discriminate|].
  intros H Hin. apply elem_of_cons in Hin as [->|Hin]; auto.
Qed.

Lemma fence_marks_fenced tags m :
  m ∈ fence_marks tags -> exists r, m = FENCE ++ r.
Proof.
  unfold fence_marks. intros H. apply elem_of_app in H as [H|H].
  - apply list_elem_of_fmap in H as (t & -> & _). eauto.
  - apply list_elem_of_singleton in H as ->. exists []. now rewrite app_nil_r.
Qed.

Lemma lead_fence r : 3 <= lead (FENCE ++ r).
Proof.
  change (FENCE ++ r) with (BACKTICK :: BACKTICK :: BACKTICK :: r).
  cbn [lead]. rewrite N.eqb_refl. lia.
Qed.

Lemma strip_fence_lead s : strip_prefix FENCE s = None -> lead s < 3.
Proof.
  change FENCE with [BACKTICK; BACKTICK; BACKTICK].
  destruct s as [|c1 [|c2 [|c3 t]]]; cbn [strip_prefix lead];
    rewrite ?(N.eqb_sym BACKTICK);
    repeat match goal with
           | |- context [N.eqb ?a BACKTICK] => destruct (N.eqb a BACKTICK)
           end; intros; try lia; discriminate.
Qed.

(** Fewer than three backticks at the start stay as they are. *)
Lemma remove_marks_lead tags fuel s :
  lead s < 3 -> lead (remove_marks fuel (fence_marks tags) s) = lead s.
Proof.
  revert s. induction fuel as [|f IH]; intros [|c t] Hl; try reflexivity.
  cbn [remove_marks].
  destruct (first_prefix (fence_marks tags) (c :: t)) as [rest|] eqn:E.
  - exfalso. apply first_prefix_Some in E as (m & Hin & Es).
    apply fence_marks_fenced in Hin as (r & ->).
    rewrite Es, <- app_assoc in Hl. pose proof (lead_fence (r ++ rest)). lia.
  - cbn [lead] in *. destruct (c =? BACKTICK)%N; [|reflexivity].
    rewrite IH; [reflexivity|lia].
Qed.

(** What is left after the deletion holds no fence marker. *)
Lemma remove_marks_no_fence tags fuel s :
  length s <= fuel -> ~ contains FENCE (remove_marks fuel (fence_marks tags) s).
Proof.
  revert s. induction fuel as [|f IH]; intros [|c t] Hlen.
  1,3: now apply contains_nil.
  - cbn in Hlen. lia.
  - cbn [remove_marks].
    destruct (first_prefix (fence_marks tags) (c :: t)) as [rest|] eqn:E.
    + apply IH. apply first_prefix_Some in E as (m & Hin & Es).
      apply fence_marks_fenced in Hin as (r & ->).
      apply (f_equal length) in Es. rewrite !length_app in Es.
      change (length FENCE) with 3 in Es. lia.
    + intros H. apply contains_cons in H as [(r & Hr)|H].
      * assert (Hs : lead (c :: t) < 3).
        { apply strip_fence_lead. apply (first_prefix_None _ _ _ E).
          unfold fence_marks. apply elem_of_app. right. apply list_elem_of_here. }
        pose proof (remove_marks_lead tags (S f) (c :: t) Hs) as Hk.
        cbn [remove_marks] in Hk. rewrite E, Hr in Hk.
        pose proof (lead_fence r). lia.
      * revert H. apply IH. cbn in Hlen. lia.
Qed.

Lemma remove_marks_fuel tags f1 : forall f2 s,
  length s <= f1 -> length s <= f2 ->
  remove_marks f1 (fence_marks tags) s = remove_marks f2 (fence_marks tags) s.
Proof.
  induction f1 as [|f1 IH]; intros [|f2] [|c t] H1 H2; try reflexivity;
    cbn [length] in *; try lia.
  cbn [remove_marks].
  destruct (first_prefix (fence_marks tags) (c :: t)) as [rest|] eqn:E.
  - apply first_prefix_Some in E as (m & Hin & Es).
    apply fence_marks_fenced in Hin as (r & ->).
    apply (f_equal length) in Es. rewrite !length_app in Es.
    change (length FENCE) with 3 in Es. cbn [length] in Es.
    apply IH; lia.
  - f_equal. apply IH; lia.
Qed.

Lemma strip_fences_keep tags c t :
  first_prefix (fence_marks tags) (c :: t) = None ->
  strip_fences tags (c :: t) = c :: strip_fences tags t.
Proof. intros E. unfold strip_fences. cbn [length remove_marks]. now rewrite E. Qed.

Lemma strip_fences_drop tags s rest :
  first_prefix (fence_marks tags) s = Some rest ->
  strip_fences tags s = strip_fences tags rest.
Proof.
  intros E. unfold strip_fences. destruct s as [|c t].
  - apply first_prefix_Some in E as (m & Hin & Es).
    apply fence_marks_fenced in Hin as (r & ->). discriminate.
  - cbn [length remove_marks]. rewrite E.
    apply first_prefix_Some in E as (m & Hin & Es).
    apply fence_marks_fenced in Hin as (r & ->).
    apply (f_equal length) in Es. rewrite !length_app in Es.
    change (length FENCE) with 3 in Es. cbn [length] in Es.
    apply remove_marks_fuel; lia.
Qed.

Lemma strip_fences_fresh_prefix tags pre s :
  BACKTICK ∉ pre -> strip_fences tags (pre ++ s) = pre ++ strip_fences tags s.
Proof.
  induction pre as [|c pre IH]; intros Hx; [reflexivity|].
  apply not_elem_of_cons in Hx as [Hc Hp]. cbn [app].
  rewrite strip_fences_keep, (IH Hp); [reflexivity|].
  apply (first_prefix_head_not BACKTICK); [apply fence_marks_start|].
  cbn. congruence.
Qed.

Lemma strip_fences_no_fence tags s : ~ contains FENCE (strip_fences tags s).
Proof. now apply remove_marks_no_fence. Qed.

(** *** The two halves of the extraction *)

Lemma extract_code_plain tags text :
  regex_match [REASONING_OPEN] REASONING_CLOSE text = None ->
  extract_code tags text
  = {| data := fenced_code tags (trim text); reasoning := None |}.
Proof. intros E. unfold extract_code, fenced_code. now rewrite E. Qed.

Lemma extract_code_reasoned tags text b g a :
  regex_match [REASONING_OPEN] REASONING_CLOSE text = Some (b, g, a) ->
  extract_code tags text
  = {| data := fenced_code tags (trim (b ++ a)); reasoning := Some (trim g) |}.
Proof. intros E. unfold extract_code, fenced_code. now rewrite E. Qed.

Lemma extract_code_data tags text :
  exists s, data (extract_code tags text) = fenced_code tags s.
Proof.
  destruct (regex_match [REASONING_OPEN] REASONING_CLOSE text)
    as [[[b g] a]|] eqn:E.
  - rewrite (extract_code_reasoned _ _ _ _ _ E). eauto.
  - rewrite (extract_code_plain _ _ E). eauto.
Qed.

Lemma fenced_code_trimmed tags s : trim (fenced_code tags s) = fenced_code tags s.
Proof.
  unfold fenced_code.
  destruct (regex_match _ _ _) as [[[? ?] ?]|]; apply trim_idem.
Qed.

Lemma fence_not_nil : FENCE <> [].
Proof. discriminate. Qed.

Lemma fenced_code_no_fence tags s : ~ contains FENCE (fenced_code tags s).
Proof.
  unfold fenced_code.
  destruct (regex_match _ _ _) as [[[b g] a]|] eqn:E; intros H;
    apply contains_trim in H.
  - apply regex_match_group in E as (rest & E).
    now apply (split_at_before _ _ _ _ fence_not_nil E).
  - now apply strip_fences_no_fence in H.
Qed.

Lemma trim_fenced a body b :
  trim (a ++ FENCE ++ body ++ FENCE ++ b)
  = trimStart a ++ FENCE ++ body ++ FENCE ++ trimEnd b.
Proof.
  pose proof (trim_around a BACKTICK ([BACKTICK; BACKTICK] ++ body
                                       ++ [BACKTICK; BACKTICK]) BACKTICK b
                eq_refl eq_refl) as H.
  repeat (rewrite <- app_assoc in H; cbn [app] in H).
  exact H.
Qed.

(** The first fenced block with a known tag (or none) gives the code. *)
Lemma fenced_code_block tags tag a code b :
  Forall (fun t => NL ∉ t) tags -> NL ∉ tag -> tag ∈ tags ++ [[]] ->
  BACKTICK ∉ a -> BACKTICK ∉ code ->
  fenced_code tags (trim (a ++ FENCE ++ (tag ++ NL :: code) ++ FENCE ++ b))
  = trim code.
Proof.
  intros Ht Hn Hin Ha Hc. rewrite trim_fenced. unfold fenced_code.
  rewrite (regex_match_fresh_prefix BACKTICK);
    [|apply fence_openers_start
     |intros H; apply Ha; now apply elem_of_trimStart].
  rewrite (regex_match_here _ _ _ code (trimEnd b)); [reflexivity|].
  rewrite <- app_assoc. cbn [app]. unfold fence_openers.
  apply match_here_fence; try assumption.
  - apply Forall_app. split; [exact Ht|]. repeat constructor. inversion 1.
  - apply (split_at_fresh BACKTICK [BACKTICK; BACKTICK]). exact Hc.
Qed.

(** X15: the code that [generateInitialCode], [debugAndRepair] and
    [optimizeCode] return never starts or ends with whitespace, and neither
    does the reasoning; so the blank-candidate check of the repair loop
    fires exactly when the returned code is the empty string. *)
Theorem X15_extracted_code_is_trimmed tags text :
  trim (data (extract_code tags text)) = data (extract_code tags text)
  /\ (blank (data (extract_code tags text)) = true
      <-> data (extract_code tags text) = [])
  /\ (forall g, reasoning (extract_code tags text) = Some g -> trim g = g).
Proof.
  destruct (extract_code_data tags text) as (s & E).
  assert (Ht : trim (data (extract_code tags text)) = data (extract_code tags text))
    by (rewrite E; apply fenced_code_trimmed).
  split; [exact Ht|]. split.
  - rewrite blank_iff, <- trim_nil, Ht. reflexivity.
  - intros g. unfold extract_code.
    destruct (regex_match [REASONING_OPEN] _ _) as [[[? r] ?]|]; cbn; [|discriminate].
    intros [= <-]. apply trim_idem.
Qed.

(** X16: the returned code never holds a fence marker, whatever the model
    wrote: a matched block ends at the first closing fence, and without a
    matched block every marker is deleted. *)
Theorem X16_extracted_code_has_no_fence tags text :
  ~ contains FENCE (data (extract_code tags text)).
Proof.
  destruct (extract_code_data tags text) as (s & ->). apply fenced_code_no_fence.
Qed.



(** X18: an answer without a reasoning tag and without a backtick (what the
    prompts ask for outside the reasoning mode: only the code, no markdown)
    is returned as it is, trimmed, and without reasoning. *)
Theorem X18_plain_answer_is_passed_through tags text :
  ~ contains REASONING_OPEN text -> BACKTICK ∉ text ->
  extract_code tags text = {| data := trim text; reasoning := None |}.
Proof.
  intros Hr Hb.
  rewrite (extract_code_plain _ _ (regex_match_no_opener _ _ _ Hr)).
  f_equal. unfold fenced_code.
  assert (Hb' : BACKTICK ∉ trim text) by (intros H; now apply elem_of_trim in H).
  rewrite (regex_match_fresh BACKTICK _ _ _ (fence_openers_start tags) Hb').
  unfold strip_fences.
  rewrite (remove_marks_fresh BACKTICK _ _ _ (fence_marks_start tags) Hb').
  apply trim_idem.
Qed.

Lemma X18_witness :
  extract_code PYTHON_ONLY (NL :: lit "if a < b: print(a)" ++ [NL])
  = {| data := lit "if a < b: print(a)"; reasoning := None |}.
Proof.
  etransitivity.
  - apply X18_plain_answer_is_passed_through.
    + apply split_at_None. vm_compute. reflexivity.
    + rewrite list_elem_of_In; vm_compute; intuition discriminate.
  - vm_compute. reflexivity.
Defined.

(** *** A fence with a tag the pattern does not list *)

Lemma regex_match_skip openers close c t :
  match_here openers close (c :: t) = None ->
  regex_match openers close t = None ->
  regex_match openers close (c :: t) = None.
Proof. intros E1 E2. now rewrite regex_match_eq, E1, E2. Qed.

Lemma language_name_fresh l :
  (BACKTICK ∉ language_name l) /\ (NL ∉ language_name l).
Proof.
  destruct l; split; rewrite list_elem_of_In; vm_compute; intuition discriminate.
Qed.

Lemma python_only_misses l code :
  l <> python -> BACKTICK ∉ code ->
  regex_match (fence_openers PYTHON_ONLY) FENCE
    (FENCE ++ (language_name l ++ NL :: code) ++ FENCE) = None.
Proof.
  intros Hl Hc.
  assert (Hrest : regex_match (fence_openers PYTHON_ONLY) FENCE
                    ((language_name l ++ NL :: code) ++ FENCE) = None).
  { rewrite (regex_match_fresh_prefix BACKTICK); [reflexivity|apply fence_openers_start|].
    intros H. apply elem_of_app in H as [H|H].
    - now apply (proj1 (language_name_fresh l)).
    - apply elem_of_cons in H as [H|H]; [discriminate|auto]. }
  change (FENCE ++ (language_name l ++ NL :: code) ++ FENCE)
    with (BACKTICK :: BACKTICK :: BACKTICK
          :: (language_name l ++ NL :: code) ++ FENCE).
  destruct l; [contradiction| |];
    (apply regex_match_skip; [reflexivity|]);
    (apply regex_match_skip; [reflexivity|]);
    (apply regex_match_skip; [reflexivity|]); exact Hrest.
Qed.

Lemma python_only_strips l code :
  l <> python -> BACKTICK ∉ code ->
  strip_fences PYTHON_ONLY (FENCE ++ (language_name l ++ NL :: code) ++ FENCE)
  = language_name l ++ NL :: code.
Proof.
  intros Hl Hc.
  rewrite (strip_fences_drop _ _ ((language_name l ++ NL :: code) ++ FENCE))
    by (destruct l; [contradiction|reflexivity|reflexivity]).
  rewrite strip_fences_fresh_prefix.
  - change (strip_fences PYTHON_ONLY FENCE) with (@nil N). apply app_nil_r.
  - intros H. apply elem_of_app in H as [H|H].
    + now apply (proj1 (language_name_fresh l)).
    + apply elem_of_cons in H as [H|H]; [discriminate|auto].
Qed.

Lemma trim_tagged l rest :
  trim (language_name l ++ rest) = language_name l ++ trimEnd rest.
Proof.
  destruct l.
  - apply (trim_around [] 112%N (lit "ytho") 110%N rest eq_refl eq_refl).
  - apply (trim_around [] 99%N (lit "p") 112%N rest eq_refl eq_refl).
  - apply (trim_around [] 106%N (lit "av") 97%N rest eq_refl eq_refl).
Qed.

(** X19: the multi-language services disagree on C++ and Java answers.  For
    an answer that is one block fenced with the tag [cpp] or [java],
    [debugAndRepair] and [optimizeCode] (tags python, cpp, java) return the
    body of the block, while [generateInitialCode] (tag python only) finds
    no block, deletes the fence markers and returns the body with the tag
    as its first line. *)
Theorem X19_generator_keeps_cpp_and_java_tags l code :
  l <> python -> BACKTICK ∉ code ->
  ~ contains REASONING_OPEN (FENCE ++ (language_name l ++ NL :: code) ++ FENCE) ->
  extract_code ALL_TAGS (FENCE ++ (language_name l ++ NL :: code) ++ FENCE)
  = {| data := trim code; reasoning := None |}
  /\ extract_code PYTHON_ONLY (FENCE ++ (language_name l ++ NL :: code) ++ FENCE)
     = {| data := language_name l ++ trimEnd (NL :: code); reasoning := None |}.
Proof.
  intros Hl Hc Hr.
  pose proof (regex_match_no_opener _ REASONING_CLOSE _ Hr) as E.
  rewrite !(extract_code_plain _ _ E).
  assert (Ht : trim (FENCE ++ (language_name l ++ NL :: code) ++ FENCE)
               = FENCE ++ (language_name l ++ NL :: code) ++ FENCE).
  { pose proof (trim_fenced [] (language_name l ++ NL :: code) []) as H.
    cbn [app trimStart] in H. rewrite app_nil_r in H.
    change (trimEnd []) with (@nil N) in H. now rewrite app_nil_r in H. }
  split; f_equal.
  - pose proof (fenced_code_block ALL_TAGS (language_name l) [] code []) as H.
    cbn [app] in H. rewrite app_nil_r in H. apply H.
    + repeat constructor; rewrite list_elem_of_In; vm_compute; intuition discriminate.
    + apply language_name_fresh.
    + apply elem_of_app. left. destruct l; [contradiction| |].
      * apply list_elem_of_further, list_elem_of_here.
      * do 2 apply list_elem_of_further. apply list_elem_of_here.
    + inversion 1.
    + exact Hc.
  - rewrite Ht. unfold fenced_code.
    rewrite (python_only_misses l code Hl Hc), (python_only_strips l code Hl Hc).
    apply trim_tagged.
Qed.

Lemma X19_witness :
  let text := FENCE ++ (lit "cpp" ++ NL :: lit "#include <cstdio>" ++ [NL]) ++ FENCE in
  data (extract_code ALL_TAGS text) = lit "#include <cstdio>"
  /\ data (extract_code PYTHON_ONLY text) = lit "cpp" ++ NL :: lit "#include <cstdio>".
Proof.
  cbn zeta.
  destruct (X19_generator_keeps_cpp_and_java_tags cpp (lit "#include <cstdio>" ++ [NL]))
    as [E1 E2].
  - discriminate.
  - rewrite list_elem_of_In; vm_compute; intuition discriminate.
  - apply split_at_None. vm_compute. reflexivity.
  - change (language_name cpp) with (lit "cpp") in *. rewrite E1, E2.
    split; vm_compute; reflexivity.
Defined.

(** ** The test library *)

Lemma post_execute_verdicts env req s results s' :
  post_execute env req s = (Json results, s') ->
  Forall2 verdict (req_testCases req) results.
Proof.
  rewrite post_execute_gate. destruct (supported (req_language req)); [|discriminate].
  destruct (decide (req_language req = lit "python")) as [E|E].
  - rewrite E.
    pose proof (for_testCases_python env (req_code req) (req_testCases req) [] s) as H.
    destruct (for_testCases env (req_code req) (lit "python") (req_testCases req) [] s)
      as [[rs|] s1]; [|discriminate].
    intros [= <- <-]. destruct H as (new & -> & Hv & _). exact Hv.
  - destruct (for_testCases_mock env (req_code req) (req_language req)
                (req_testCases req) [] s E) as (new & -> & Hv & _).
    intros [= <- <-]. exact Hv.
Qed.

(** [find] returns the first element that satisfies the test. *)
Lemma find_first {A} (p : A -> bool) (l : list A) : forall i x,
  l !! i = Some x -> p x = true ->
  exists j y, j <= i /\ l !! j = Some y /\ List.find p l = Some y
              /\ p y = true
              /\ forall k z, k < j -> l !! k = Some z -> p z = false.
Proof.
  induction l as [|a l IH]; intros i x Hi Hp; [discriminate|].
  cbn [List.find]. destruct (p a) eqn:Ha.
  - exists 0, a. repeat split; auto; [lia|]. intros k z Hk. lia.
  - destruct i as [|i]; [cbn in Hi; congruence|].
    destruct (IH i x Hi Hp) as (j & y & Hj & Hy & Hf & Hpy & Hmin).
    exists (S j), y. repeat split; auto; [lia|].
    intros [|k] z Hk Hz; [cbn in Hz; congruence|].
    apply (Hmin k z); [lia|exact Hz].
Qed.

Lemma same_vector_verdict test tc r :
  verdict tc r ->
  same_vector test r = true
  <-> input tc = input test /\ expectedOutput tc = expectedOutput test.
Proof.
  intros (Hi & He & _). unfold same_vector.
  rewrite andb_true_iff, !str_eqb_eq, Hi, He. reflexivity.
Qed.

(** X20: the badge of a vector in the test library.  When the results on
    display are an answer of the execute endpoint for the vectors of the
    library, every vector finds a result, and it is the result of the first
    vector with the same input and the same expected output: its own result
    unless such a vector comes before it. *)
Theorem X20_library_badge_is_first_matching_result env req s results s' i test :
  post_execute env req s = (Json results, s') ->
  req_testCases req !! i = Some test ->
  exists j first r,
    j <= i
    /\ req_testCases req !! j = Some first
    /\ input first = input test /\ expectedOutput first = expectedOutput test
    /\ results !! j = Some r
    /\ find_result results test = Some r
    /\ (forall k tc, k < j -> req_testCases req !! k = Some tc ->
        ~ (input tc = input test /\ expectedOutput tc = expectedOutput test)).
Proof.
  intros E Hi. apply post_execute_verdicts in E as Hv.
  destruct (Forall2_lookup_l _ _ _ _ _ Hv Hi) as (r0 & Hr0 & Hv0).
  assert (Hp : same_vector test r0 = true)
    by (apply (same_vector_verdict _ _ _ Hv0); auto).
  destruct (find_first (same_vector test) results i r0 Hr0 Hp)
    as (j & r & Hj & Hr & Hf & Hpr & Hmin).
  destruct (Forall2_lookup_r _ _ _ _ _ Hv Hr) as (first & Hfirst & Hvf).
  apply (same_vector_verdict _ _ _ Hvf) in Hpr as [H1 H2].
  exists j, first, r. repeat split; auto.
  intros k tc Hk Htc Hsame.
  destruct (Forall2_lookup_l _ _ _ _ _ Hv Htc) as (rk & Hrk & Hvk).
  apply (same_vector_verdict _ _ _ Hvk) in Hsame.
  rewrite (Hmin k rk Hk Hrk) in Hsame. discriminate.
Qed.

(** The second of two identical vectors failed, and its badge says
    passed. *)
Lemma X20_witness :
  let req := {| req_code := lit "print(5)"; req_language := lit "python";
                req_testCases := twin_vectors |} in
  exists results s' r1 r2,
    post_execute flaky_runs req fresh_server = (Json results, s')
    /\ twin_vectors !! 1 = Some r1
    /\ results !! 1 = Some r2 /\ passed r2 = false
    /\ badge_of results r1 = badge_passed.
Proof.
  cbn zeta.
  set (req := {| req_code := lit "print(5)"; req_language := lit "python";
                 req_testCases := twin_vectors |}).
  destruct (post_execute flaky_runs req fresh_server) as [[e|results|] s'] eqn:E;
    [vm_compute in E; discriminate| |vm_compute in E; discriminate].
  destruct (X20_library_badge_is_first_matching_result flaky_runs req fresh_server
              results s' 1
              {| input := lit "2 3"; expectedOutput := lit "5"; description := None |}
              E eq_refl) as (j & first & r & _ & _ & _ & _ & _ & Hf & _).
  vm_compute in E. injection E as <- <-.
  eexists _, _, _, _. split; [reflexivity|]. split; [reflexivity|].
  split; [reflexivity|]. split; [reflexivity|].
  unfold badge_of. rewrite Hf. vm_compute in Hf. injection Hf as <-. reflexivity.
Defined.

(** ** The pipeline display *)

(** X21: the stage icons.  While a run is in stage [k] of the pipeline, the
    icons before it have the past look, icon [k] the active look and the
    icons behind it the idle look; a completed run has five past icons and
    the last one active.  The red look is never used: [failed] is not a
    stage of the pipeline, so after a failure every icon is idle, exactly as
    before a run, while the progress line is at full length. *)
Theorem X21_failed_run_shows_no_red_icon step :
  (icon_failed ∉ icons step)
  /\ icons step
     = (if bool_decide (0 <= findIndex step)%Z then
          replicate (Z.to_nat (findIndex step)) icon_past ++ [icon_active]
          ++ replicate (5 - Z.to_nat (findIndex step)) icon_idle
        else replicate 6 icon_idle)
  /\ icons failed = icons idle
  /\ scaleX failed = scale_lit 1 /\ scaleX idle = scale_lit 0.
Proof.
  split; [|split; [|repeat split]].
  - rewrite list_elem_of_In. destruct step; vm_compute; intuition discriminate.
  - destruct step; vm_compute; reflexivity.
Qed.

(** ** The contest clock *)

Lemma parseInt10_zero_left ds : parseInt10 (48%N :: ds) = parseInt10 ds.
Proof. reflexivity. Qed.





(** ** The chat panel *)

Lemma or_else_truthy a b : truthy b = true -> truthy (or_else a b) = true.
Proof. unfold or_else. now destruct (truthy a) eqn:E. Qed.

Lemma truthy_app_l a b : truthy a = true -> truthy (a ++ b) = true.
Proof. now destruct a. Qed.

Lemma fold_sources_truthy chunks : forall t,
  truthy t = true ->
  truthy (fold_left (fun t chunk => t ++ Chat.source_line chunk) chunks t) = true.
Proof.
  induction chunks as [|c cs IH]; intros t Ht; [exact Ht|].
  cbn [fold_left]. apply IH. now apply truthy_app_l.
Qed.

Lemma searchWithGemini_truthy response :
  truthy (Chat.searchWithGemini response) = true.
Proof.
  unfold Chat.searchWithGemini.
  assert (H : truthy (or_else (response_text (Chat.text response)) Chat.NO_RESPONSE)
              = true) by now apply or_else_truthy.
  destruct (Chat.groundingChunks response) as [[|c cs]|]; try exact H.
  apply fold_sources_truthy. now apply truthy_app_l.
Qed.

(** X23: one send of the chat panel.  A blank input is refused in the fast
    and the search mode, and only there; every other send adds exactly two
    messages, the input of the user as it was typed and an answer that is
    never empty (the text of the model, a fixed fallback, or the error
    message), clears the input and ends with the loading flag off. *)
Theorem X23_send_adds_question_and_nonempty_answer gen now later st :
  let st' := Chat.handleSend gen now later st in
  (all_space (Chat.input st) /\ Chat.mode st <> Chat.normal -> st' = st)
  /\ (~ all_space (Chat.input st) \/ Chat.mode st = Chat.normal ->
      exists question answer,
        Chat.messages st' = Chat.messages st ++ [question; answer]
        /\ Chat.role question = Chat.user
        /\ Chat.content question = Chat.input st
        /\ Chat.role answer = Chat.ai
        /\ Chat.content answer <> []
        /\ Chat.input st' = []
        /\ Chat.isLoading st' = false
        /\ Chat.mode st' = Chat.mode st).
Proof.
  cbn zeta. unfold Chat.handleSend. split.
  - intros [Hb Hm]. rewrite (problem_blank _ Hb). cbn [negb andb].
    now rewrite bool_decide_eq_false_2.
  - intros H.
    assert (E : negb (truthy (trim (Chat.input st)))
                && negb (bool_decide (Chat.mode st = Chat.normal)) = false).
    { destruct H as [H| ->]; [now rewrite (problem_given _ H)|].
      rewrite bool_decide_eq_true_2 by reflexivity. apply andb_false_r. }
    rewrite E. cbn [Chat.messages Chat.input Chat.isLoading Chat.mode].
    eexists _, _. rewrite <- app_assoc. split; [reflexivity|].
    repeat split.
    + destruct (gen _ _) as [response|message]; reflexivity.
    + assert (Ht : forall s, truthy s = true -> s <> []) by (intros [|? ?] Hs; [discriminate Hs|discriminate]).
      destruct (gen _ _) as [response|message]; cbn [Chat.content].
      * apply Ht. destruct (Chat.mode st).
        -- now apply or_else_truthy.
        -- now apply or_else_truthy.
        -- apply searchWithGemini_truthy.
      * discriminate.
Qed.

Lemma X23_witness :
  let gen := fun (_ : Chat.Mode) (_ : jsstring) =>
               Returns {| Chat.text := None; Chat.groundingChunks := None |} in
  let st := {| Chat.messages := []; Chat.input := []; Chat.isLoading := false;
               Chat.mode := Chat.normal |} in
  exists question answer,
    Chat.messages (Chat.handleSend gen 5%N 7%N st) = [question; answer]
    /\ Chat.content question = []
    /\ Chat.content answer = lit "No response generated.".
Proof.
  cbn zeta.
  destruct (X23_send_adds_question_and_nonempty_answer
              (fun _ _ => Returns {| Chat.text := None; Chat.groundingChunks := None |})
              5%N 7%N
              {| Chat.messages := []; Chat.input := []; Chat.isLoading := false;
                 Chat.mode := Chat.normal |}) as [_ H].
  destruct H as (question & answer & Hm & _ & Hq & _); [now right|].
  exists question, answer. split; [exact Hm|]. split; [exact Hq|].
  vm_compute in Hm. now injection Hm as _ <-.
Defined.

(** ** A first candidate that passes *)

Lemma analyze_and_generate_ready C i s a g t :
  analyzeProblem C (problem i) (proMode i) = Returns a ->
  generateInitialCode C (data a) (language i) (proMode i) = Returns g ->
  generateTestCases C (problem i) (data a) (data g) = Returns t ->
  exists s',
    analyze_and_generate C i s = (Val (data g, public_tests i ++ t), s')
    /\ calls s' = calls s ++ [Analyze (Returns a); Generate (Returns g);
                              GenerateTests (Returns t)].
Proof.
  intros Ha Hg Ht.
  unfold analyze_and_generate. fold (public_tests i). quiet_step.
  step_with (await_returns Analyze _ a s0 Ha).
  do 6 quiet_step.
  step_with (await_returns Generate _ g s7 Hg).
  quiet_step. step_with (setCode_run (data g) s9). do 3 quiet_step.
  step_with (await_returns GenerateTests _ t s13 Ht).
  do 4 quiet_step.
  eexists. split; [reflexivity|]. calls_chain.
Qed.

Lemma loop_steps_first_pass C i tests v s r s' rs :
  loop_steps C i tests v s r s' ->
  allPassed v = false -> iterations v < MAX_ITERATIONS ->
  fetch_execute C (S (iterations v)) (currentCode v) (language i) tests
    = Returns rs ->
  failures rs = [] ->
  r = Val (advance v rs true (currentCode v))
  /\ calls s' = calls s ++ [Execute (currentCode v) tests (Returns rs)]
  /\ testResults (ui s') = rs.
Proof.
  intros Hl Ha Hn Hf Hrs.
  inversion Hl as [? ? Hstop|? ? msg ? _ _ Hc|? ? v1 s1 ? ? _ _ Hc Hrest]; subst.
  - destruct Hstop; [congruence|lia].
  - inversion Hc; subst; congruence.
  - inversion Hc; subst;
      match goal with
      | H1 : fetch_execute _ _ _ _ _ = Returns ?x |- _ =>
          assert (Ex : x = rs) by congruence
      end;
      try (exfalso; congruence).
    destruct (loop_steps_stopped _ _ _ _ _ _ _ Hrest) as [-> ->]; [now left|].
    rewrite <- Ex. auto.
Qed.

(** X24: when the first execution reports no failing result, the run makes
    exactly one execution and no repair, and hands the candidate of the
    generator to the optimiser; if that returns, the run is completed with
    the optimiser's code next to these results.  An empty result list counts
    as a pass, so a run without any test vector is reported as verified. *)
Theorem X24_first_pass_goes_straight_to_the_optimiser C i s a g t rs :
  ~ all_space (problem i) ->
  analyzeProblem C (problem i) (proMode i) = Returns a ->
  generateInitialCode C (data a) (language i) (proMode i) = Returns g ->
  generateTestCases C (problem i) (data a) (data g) = Returns t ->
  fetch_execute C 1 (data g) (language i) (public_tests i ++ t) = Returns rs ->
  failures rs = [] ->
  calls (runAgent C i s)
  = calls s ++ [Analyze (Returns a); Generate (Returns g);
                GenerateTests (Returns t);
                Execute (data g) (public_tests i ++ t) (Returns rs);
                Optimize (data g)
                  (optimizeCode C (problem i) (data g) (proMode i))]
  /\ testResults (ui (runAgent C i s)) = rs
  /\ forall b, optimizeCode C (problem i) (data g) (proMode i) = Returns b ->
               step (ui (runAgent C i s)) = completed
               /\ code (ui (runAgent C i s)) = data b.
Proof.
  intros Hp Ha Hg Ht Hf Hrs. apply problem_given in Hp.
  unfold runAgent. rewrite Hp. cbn [negb].
  destruct (prologue_quiet i s) as (s0 & E0 & Hc0 & _ & _).
  rewrite (bind_val _ _ _ _ _ E0). unfold pipeline.
  destruct (analyze_and_generate_ready C i s0 a g t Ha Hg Ht) as (s1 & E1 & Hc1).
  assert (Ev : verify C i s0
               = test_and_repair C i (public_tests i ++ t) (data g) s1)
    by (unfold verify; now rewrite (bind_val _ _ _ _ _ E1)).
  pose proof (test_and_repair_run C i (public_tests i ++ t) (data g) s1) as Hr.
  cbn zeta in Hr. destruct Hr as (r1 & s2 & Hl & Hr).
  destruct (loop_steps_first_pass _ _ _ _ _ _ _ rs Hl) as (-> & Hc2 & Hres);
    [reflexivity|cbn; unfold MAX_ITERATIONS; lia|exact Hf|exact Hrs|].
  cbn [advance allPassed currentCode initial_vars] in Hr, Hc2.
  destruct Hr as (Hc3 & Hval & _ & Hres3).
  destruct (test_and_repair C i (public_tests i ++ t) (data g) s1) as [r2 s3].
  cbn [fst snd] in *. subst r2. rewrite (bind_val _ _ _ _ _ Ev).
  pose proof (optimize_run C i (data g) s3) as Ho. cbn zeta in Ho.
  destruct Ho as [Hto Ho].
  destruct (optimizeCode C (problem i) (data g) (proMode i)) as [b|msg] eqn:Eo.
  - destruct Ho as (Hv & Hoc & Hcode & Hstep).
    destruct (optimize C i (data g) s3) as [r3 s4]. cbn [fst snd] in *. subst r3.
    split; [rewrite Hoc, Hc3, Hc2, Hc1, Hc0, <- !app_assoc; reflexivity|].
    split; [congruence|]. intros b' [= <-]. auto.
  - destruct Ho as (Hv & Hoc & Hcode).
    destruct (optimize C i (data g) s3) as [r3 s4]. cbn [fst snd] in *. subst r3.
    destruct (on_error_run msg s4) as (_ & _ & Hce & _ & Hte).
    split; [rewrite Hce, Hoc, Hc3, Hc2, Hc1, Hc0, <- !app_assoc; reflexivity|].
    split; [congruence|]. intros b' [=].
Qed.

Lemma X24_witness :
  let run := runAgent untested user_inputs idle_agent in
  (post_execute three_runs
     {| req_code := candidate 0; req_language := lit "python";
        req_testCases := [] |} fresh_server).1 = Json []
  /\ executed (calls run) = 1
  /\ testResults (ui run) = []
  /\ step (ui run) = completed.
Proof.
  cbn zeta. split; [vm_compute; reflexivity|].
  assert (Hp : ~ all_space (problem user_inputs)).
  { intros H. apply trim_nil in H. vm_compute in H. discriminate. }
  destruct (X24_first_pass_goes_straight_to_the_optimiser
              untested user_inputs idle_agent _ _ [] []
              Hp eq_refl eq_refl eq_refl eq_refl eq_refl) as (Hc & Hr & Hb).
  split; [rewrite Hc; reflexivity|]. split; [exact Hr|].
  now destruct (Hb _ eq_refl).
Defined.

(** ** From the traceback to the line of the candidate *)

(** *** The rewrite keeps the lines of the text *)

Lemma adjust_app_nl p : forall x,
  adjust (p ++ NL :: x) = adjust p ++ NL :: adjust x.
Proof.
  induction p as [p IH] using (induction_ltof1 _ (@length N)).
  unfold ltof in IH. intros x.
  destruct p as [|c t]; [reflexivity|].
  rewrite <- app_comm_cons, (adjust_cons c (t ++ _)), (adjust_cons c t).
  destruct (strip_prefix (lit "line ") (c :: t)) as [r|] eqn:Hp.
  - pose proof (match_is_suffix _ _ Hp) as Hlen.
    apply strip_prefix_Some in Hp. rewrite app_comm_cons, Hp, <- app_assoc.
    rewrite strip_prefix_app.
    destruct (span_digits_spec r) as (Er & Hds & Hrest).
    assert (Hspan : span_digits (r ++ NL :: x)
                    = ((span_digits r).1, (span_digits r).2 ++ NL :: x)).
    { rewrite Er at 1. rewrite <- app_assoc. apply span_digits_app; [exact Hds|].
      destruct (span_digits r).2; [reflexivity|exact Hrest]. }
    rewrite Hspan. destruct (span_digits r) as [[|d ds] rest]; cbn [fst snd] in *.
    + cbn in Er. subst r. rewrite <- app_comm_cons. f_equal.
      apply IH. cbn. lia.
    + rewrite IH by exact Hlen. now rewrite app_assoc.
  - assert (Hl : NL ∉ lit "line ")
      by (rewrite list_elem_of_In; vm_compute; intuition discriminate).
    rewrite app_comm_cons, (strip_prefix_None_app _ NL _ x Hl Hp).
    rewrite <- !app_comm_cons. f_equal. apply IH. cbn. lia.
Qed.

Lemma remap_line_no_nl ds :
  Forall (fun c => is_digit c = true) ds -> NL ∉ remap_line ds.
Proof.
  intros Hds. unfold remap_line.
  assert (Hd : forall l, Forall (fun c => is_digit c = true) l -> NL ∉ l).
  { intros l Hl Hin. rewrite Forall_forall in Hl. now specialize (Hl _ Hin). }
  assert (Hl : NL ∉ lit "line ")
    by (rewrite list_elem_of_In; vm_compute; intuition discriminate).
  destruct (_ <=? _)%N; intros H; apply elem_of_app in H as [H|H]; auto.
  - destruct (dec_shape (parseInt10 ds - 27)%N) as (d & l & -> & Hdl) in H.
    now apply (Hd _ Hdl).
  - now apply (Hd _ Hds).
Qed.

Lemma adjust_no_nl p : NL ∉ p -> NL ∉ adjust p.
Proof.
  induction p as [p IH] using (induction_ltof1 _ (@length N)).
  unfold ltof in IH. intros Hp.
  destruct p as [|c t]; [exact Hp|].
  apply not_elem_of_cons in Hp as Hct. destruct Hct as [Hc Ht].
  assert (Hkeep : NL ∉ c :: adjust t).
  { apply not_elem_of_cons. split; [exact Hc|]. apply IH; [cbn; lia|exact Ht]. }
  rewrite adjust_cons.
  destruct (strip_prefix (lit "line ") (c :: t)) as [r|] eqn:E; [|exact Hkeep].
  pose proof (match_is_suffix _ _ E) as Hlen.
  apply strip_prefix_Some in E.
  destruct (span_digits_spec r) as (Er & Hds & _).
  destruct (span_digits r) as [[|d ds] rest]; [exact Hkeep|].
  cbn [fst snd] in *. intros H. apply elem_of_app in H as [H|H].
  - now apply (remap_line_no_nl _ Hds).
  - revert H. apply IH; [exact Hlen|].
    intros H. apply Hp. rewrite E, Er.
    apply elem_of_app. right. apply elem_of_app. now right.
Qed.

Lemma lines_from_no_nl p : forall cur, NL ∉ p -> lines_from cur p = [rev cur ++ p].
Proof.
  induction p as [|c p IH]; intros cur Hp; cbn.
  - now rewrite app_nil_r.
  - apply not_elem_of_cons in Hp as [Hc Hp].
    destruct (N.eqb_spec c NL); [congruence|].
    rewrite (IH _ Hp). cbn. now rewrite <- app_assoc.
Qed.

Lemma lines_no_nl p : NL ∉ p -> lines p = [p].
Proof. apply (lines_from_no_nl p []). Qed.

Lemma lines_app_nl p x : NL ∉ p -> lines (p ++ NL :: x) = p :: lines x.
Proof.
  intros Hp. unfold lines. rewrite lines_from_app_nl.
  now rewrite (lines_from_no_nl p [] Hp).
Qed.

Lemma first_line s :
  NL ∉ s \/ exists p x, s = p ++ NL :: x /\ NL ∉ p.
Proof.
  induction s as [|c t IH]; [left; apply not_elem_of_nil|].
  destruct (N.eqb_spec c NL) as [->|Hc].
  - right. exists [], t. split; [reflexivity|apply not_elem_of_nil].
  - destruct IH as [H|(p & x & -> & Hp)].
    + left. now apply not_elem_of_cons.
    + right. exists (c :: p), x. split; [reflexivity|]. now apply not_elem_of_cons.
Qed.

(** The rewrite works line by line. *)
Lemma lines_adjust s : lines (adjust s) = adjust <$> lines s.
Proof.
  induction s as [s IH] using (induction_ltof1 _ (@length N)).
  unfold ltof in IH.
  destruct (first_line s) as [H|(p & x & -> & Hp)].
  - rewrite (lines_no_nl _ H), (lines_no_nl _ (adjust_no_nl _ H)). reflexivity.
  - rewrite adjust_app_nl, (lines_app_nl _ _ Hp),
      (lines_app_nl _ _ (adjust_no_nl _ Hp)).
    cbn [fmap list_fmap]. f_equal. apply IH. rewrite length_app. cbn. lia.
Qed.

Lemma no_digit_ahead_adjust rest : no_digit_ahead rest -> no_digit_ahead (adjust rest).
Proof.
  destruct rest as [|c t]; [auto|]. intros Hc. rewrite adjust_cons.
  destruct (strip_prefix (lit "line ") (c :: t)) as [r|]; [|exact Hc].
  destruct (span_digits r) as [[|d ds] rest]; [exact Hc|].
  unfold remap_line. now destruct (_ <=? _)%N.
Qed.

(** *** The line with the file and the line number *)

Lemma span_unquoted_app path r :
  QUOTE ∉ path -> span_unquoted (path ++ QUOTE :: r) = (path, QUOTE :: r).
Proof.
  induction path as [|c path IH]; intros Hq; [reflexivity|].
  apply not_elem_of_cons in Hq as [Hc Hp]. cbn [app span_unquoted].
  destruct (N.eqb_spec c QUOTE); [congruence|]. now rewrite (IH Hp).
Qed.

Lemma file_line_here_reported path ds tail :
  path <> [] -> QUOTE ∉ path ->
  ds <> [] -> Forall (fun c => is_digit c = true) ds -> no_digit_ahead tail ->
  file_line_here ((lit "File " ++ [QUOTE]) ++ path
                  ++ (QUOTE :: lit ", line ") ++ ds ++ tail)
  = Some (path, ds, dot_star tail).
Proof.
  intros Hne Hq Hd Hds Ht. unfold file_line_here.
  rewrite strip_prefix_app.
  change ((QUOTE :: lit ", line ") ++ ds ++ tail)
    with (QUOTE :: (lit ", line " ++ ds ++ tail)).
  rewrite (span_unquoted_app _ _ Hq).
  destruct path as [|f fs]; [contradiction|].
  change (QUOTE :: lit ", line " ++ ds ++ tail)
    with ((QUOTE :: lit ", line ") ++ ds ++ tail).
  rewrite strip_prefix_app, (span_digits_app _ _ Hds Ht).
  destruct ds; [contradiction|reflexivity].
Qed.

Lemma file_line_match_eq s :
  file_line_match s
  = match file_line_here s with
    | Some r => Some r
    | None => match s with [] => None | _ :: t => file_line_match t end
    end.
Proof. destruct s; reflexivity. Qed.

Lemma file_line_match_indent pre s :
  all_space pre -> file_line_match (pre ++ s) = file_line_match s.
Proof.
  induction 1 as [|c pre Hc _ IH]; [reflexivity|].
  cbn [app]. rewrite file_line_match_eq. unfold file_line_here at 1.
  change (lit "File " ++ [QUOTE]) with (70%N :: lit "ile " ++ [QUOTE]).
  rewrite (strip_prefix_head_not 70%N); [exact IH|].
  cbn. intros ->. discriminate.
Qed.

Lemma elem_of_trim_visible x s :
  x ∈ s -> is_js_space x = false -> x ∈ trim s.
Proof.
  destruct (trim_decompose s) as (ws1 & ws2 & E & H1 & H2). intros Hin Hx.
  rewrite E in Hin.
  assert (Hno : forall ws, all_space ws -> x ∉ ws).
  { intros ws Hws Hw. unfold all_space in Hws. rewrite Forall_forall in Hws.
    specialize (Hws _ Hw). congruence. }
  apply elem_of_app in Hin as [Hin|Hin]; [now apply Hno in Hin|].
  apply elem_of_app in Hin as [Hin|Hin]; [exact Hin|now apply Hno in Hin].
Qed.

(** *** The rows of the code view *)

Lemma dec_inj a b : dec a = dec b -> a = b.
Proof. intros H. apply (f_equal parseInt10) in H. now rewrite !parseInt10_dec in H. Qed.

Lemma line_id_inj a b : line_id a = line_id b -> a = b.
Proof. unfold line_id. intros H. apply app_inv_head in H. now apply dec_inj. Qed.

Lemma find_row (rows : list jsstring) : forall (f : nat -> N) j l,
  (forall a b, f a = f b -> a = b) ->
  rows !! j = Some l ->
  List.find (fun row : jsstring * jsstring => str_eqb row.1 (line_id (f j)))
    (imap (fun i line => (line_id (f i), line)) rows)
  = Some (line_id (f j), l).
Proof.
  induction rows as [|r rows IH]; intros f j l Hf Hj; [discriminate|].
  cbn [imap List.find fst]. destruct j as [|j].
  - injection Hj as ->. unfold str_eqb. now rewrite bool_decide_eq_true_2.
  - unfold str_eqb at 1. rewrite bool_decide_eq_false_2.
    + apply (IH (f ∘ S) j l); [|exact Hj].
      intros a b H. apply Hf in H. congruence.
    + intros H. apply line_id_inj, Hf in H. discriminate.
Qed.

Lemma handleLineClick_line src j l :
  src <> [] -> lines src !! j = Some l ->
  handleLineClick src (N.of_nat (j + 1))
  = Some (line_id (N.of_nat (j + 1)), l).
Proof.
  intros Hs Hj. unfold handleLineClick, code_view.
  destruct src as [|c t]; [contradiction|]. cbn [truthy].
  apply (find_row _ (fun i => N.of_nat (i + 1)) j l); [|exact Hj].
  intros a b H. lia.
Qed.

(** X25: from the traceback to the line of the candidate.  Python names
    the lines of the scratch file; line [j + 28] of that file is line
    [j + 1] of the candidate.  The rewrite of [runPython] works line by
    line, so the line of stderr that names the file and line [j + 28]
    arrives in the error view as the same line with the number [j + 1]; the
    view shows it with a button for line [j + 1], and a click on the button
    lights up the row of the code view that holds exactly that line of the
    candidate. *)
Theorem X25_traceback_link_opens_the_failing_line
    src stderr idx j l pre path rest :
  src <> [] ->
  lines src !! j = Some l ->
  all_space pre -> path <> [] -> QUOTE ∉ path -> no_digit_ahead rest ->
  adjust (pre ++ (lit "File " ++ [QUOTE]) ++ path ++ QUOTE :: lit ", ")
  = pre ++ (lit "File " ++ [QUOTE]) ++ path ++ QUOTE :: lit ", " ->
  lines stderr !! idx
  = Some (pre ++ (lit "File " ++ [QUOTE]) ++ path ++ (QUOTE :: lit ", line ")
          ++ dec (N.of_nat (j + 28)) ++ rest) ->
  lines (secureCode src) !! (j + 27) = Some l
  /\ exists views r,
       ErrorLogDisplay (adjust stderr) = Some views
       /\ views !! idx = Some (file_line path (N.of_nat (j + 1)) r)
       /\ button (file_line path (N.of_nat (j + 1)) r) = Some (N.of_nat (j + 1))
       /\ handleLineClick src (N.of_nat (j + 1))
          = Some (line_id (N.of_nat (j + 1)), l).
Proof.
  intros Hsrc Hj Hpre Hne Hq Hrest Hfix Hline.
  split; [rewrite Nat.add_comm; now apply user_line_offset|].
  set (k := N.of_nat (j + 1)).
  set (front := pre ++ (lit "File " ++ [QUOTE]) ++ path ++ QUOTE :: lit ", ") in *.
  set (reported := pre ++ _) in Hline.
  assert (Er : reported
               = front ++ 108%N :: (lit "ine " ++ dec (N.of_nat (j + 28)) ++ rest)).
  { unfold reported, front. rewrite <- !app_assoc. cbn [app]. reflexivity. }
  assert (Ea : adjust reported
               = pre ++ ((lit "File " ++ [QUOTE]) ++ path
                         ++ (QUOTE :: lit ", line ") ++ dec k ++ adjust rest)).
  { rewrite Er, adjust_app, Hfix.
    change (108%N :: (lit "ine " ++ dec (N.of_nat (j + 28)) ++ rest))
      with (lit "line " ++ dec (N.of_nat (j + 28)) ++ rest).
    rewrite adjust_line_reference; [|lia|exact Hrest].
    replace (N.of_nat (j + 28) - 27)%N with k by (unfold k; lia).
    unfold front. rewrite <- !app_assoc. cbn [app]. reflexivity. }
  assert (Hstderr : truthy stderr = true).
  { destruct stderr as [|c t]; [|reflexivity].
    destruct idx; cbn in Hline; [|discriminate].
    rewrite Er in Hline. injection Hline as Hline. now destruct front. }
  exists (render_line <$> lines (adjust stderr)), (dot_star (adjust rest)).
  split; [unfold ErrorLogDisplay; now rewrite (adjust_truthy _ Hstderr)|].
  split; [|split; [reflexivity|now apply handleLineClick_line]].
  rewrite lines_adjust, !list_lookup_fmap, Hline. cbn [fmap option_fmap option_map].
  f_equal. rewrite Ea. unfold render_line.
  assert (Hhead : str_eqb (trim (pre ++ (lit "File " ++ [QUOTE]) ++ path
                                 ++ (QUOTE :: lit ", line ") ++ dec k
                                 ++ adjust rest)) TRACEBACK_HEADER = false).
  { apply str_eqb_neq. intros H.
    assert (Hin : QUOTE ∈ TRACEBACK_HEADER).
    { rewrite <- H. apply elem_of_trim_visible; [|reflexivity].
      apply elem_of_app. right. apply elem_of_app. left.
      apply elem_of_app. right. apply list_elem_of_here. }
    revert Hin. rewrite list_elem_of_In. vm_compute. intuition discriminate. }
  rewrite Hhead, (file_line_match_indent _ _ Hpre), file_line_match_eq.
  destruct (dec_shape k) as (d & ds & Ed & Hds).
  rewrite file_line_here_reported; try assumption.
  - now rewrite parseInt10_dec.
  - rewrite Ed. discriminate.
  - now rewrite Ed.
  - now apply no_digit_ahead_adjust.
Qed.

Lemma X25_witness :
  exists views,
    ErrorLogDisplay (adjust failing_stderr) = Some views
    /\ button <$> views = [None; Some 2%N; None; None]
    /\ handleLineClick failing_candidate 2%N
       = Some (lit "code-line-2", lit "print(b)").
Proof.
  destruct (X25_traceback_link_opens_the_failing_line
              failing_candidate failing_stderr 1 1 (lit "print(b)") (lit "  ")
              (lit "/app/temp_1700000000000_k3x9q.py") (lit ", in <module>"))
    as (_ & views & r & Hv & _ & _ & Hclick).
  - discriminate.
  - reflexivity.
  - repeat constructor.
  - discriminate.
  - rewrite list_elem_of_In. vm_compute. intuition discriminate.
  - reflexivity.
  - vm_compute. reflexivity.
  - vm_compute. reflexivity.
  - exists views. split; [exact Hv|]. split; [|exact Hclick].
    vm_compute in Hv. injection Hv as <-. reflexivity.
Defined.

(** ** Line numbers that collide, and the number of calls *)

(** X26: the rewritten line numbers are ambiguous.  A reference to one of
    the 27 lines of the preamble is left as it is, and a reference to the
    first 27 lines of the candidate is moved onto the same numbers: for
    [1 <= k <= 27] the details [line k] and [line k + 27] of the scratch
    file reach the client as the same text. *)
Theorem X26_preamble_and_candidate_lines_collide (k : N) pre post :
  (1 <= k)%N -> (k <= 27)%N -> no_digit_ahead post ->
  adjust (pre ++ lit "line " ++ dec (k + 27) ++ post)
  = adjust (pre ++ lit "line " ++ dec k ++ post)
  /\ adjust (pre ++ lit "line " ++ dec k ++ post)
     = adjust pre ++ lit "line " ++ dec k ++ adjust post.
Proof.
  intros H1 H27 Hpost.
  assert (E : forall x, lit "line " ++ x = 108%N :: (lit "ine " ++ x))
    by reflexivity.
  rewrite !E.
  rewrite (adjust_app pre (lit "ine " ++ dec (k + 27) ++ post)),
    (adjust_app pre (lit "ine " ++ dec k ++ post)).
  rewrite <- !E.
  rewrite adjust_line_reference by (assumption || lia).
  rewrite adjust_preamble_reference by (assumption || lia).
  replace (k + 27 - 27)%N with k by lia. auto.
Qed.

Lemma X26_witness :
  adjust (lit "  File x.py, " ++ lit "line " ++ dec (3 + 27) ++ lit ", in f")
  = adjust (lit "  File x.py, " ++ lit "line " ++ dec 3 ++ lit ", in f").
Proof.
  destruct (X26_preamble_and_candidate_lines_collide 3 (lit "  File x.py, ")
              (lit ", in f")) as [H _]; [lia|lia|reflexivity|exact H].
Defined.

Lemma loop_log_length tests n c l :
  loop_log tests n c l -> length l + 2 * n <= 2 * MAX_ITERATIONS.
Proof. induction 1; cbn [length] in *; unfold MAX_ITERATIONS in *; lia. Qed.

(** X27: a run makes at most thirteen outbound calls: three for the set-up,
    at most five executions, at most four repairs and one optimisation. *)
Theorem X27_at_most_thirteen_calls C i s :
  exists new,
    calls (runAgent C i s) = calls s ++ new
    /\ length new <= 3 + 2 * MAX_ITERATIONS.
Proof.
  destruct (runAgent_calls C i s) as (new & E & [->|Hlog]).
  - exists []. split; [exact E|]. cbn. lia.
  - exists new. split; [exact E|].
    inversion Hlog as [| | |a g t rest Hl]; subst; try (cbn; lia).
    apply loop_log_length in Hl. cbn [length]. lia.
Qed.
